(** * advanced_organizer.py: a shallow embedding and its properties

    The helper functions of [advanced_organizer.py] (classification,
    collision-free naming, the two organize strategies, duplicate search,
    dashboard statistics, the move history) and the [undo_last] and
    [run_organize] methods of [OrganizerGUI] are transcribed as Rocq
    functions over an explicit file system, and the statements of the
    specification are proved or refuted about them. *)

From Stdlib Require Import ZArith Ascii String.
From stdpp Require Import gmap strings list pretty fin_maps.

Local Open Scope Z_scope.
Local Open Scope nat_scope.

(** ** Python strings *)

Module Str.

(** A Python string is held as the UTF-8 bytes of its text.  [decode] cuts
    them into code points; a byte that is no part of a well-formed sequence
    stands for itself (it can be no letter). *)
Inductive item : Type :=
  | Cp (n : N)
  | Byte (c : ascii).

Definition tail_bits (c : ascii) : option N :=
  let n := N_of_ascii c in
  if ((0x80 <=? n) && (n <=? 0xbf))%N then Some (n - 0x80)%N else None.

(** The bits of [k] continuation bytes at the head of [l], after [acc]. *)
Fixpoint tails (k : nat) (acc : N) (l : list item) : option (N * list item) :=
  match k with
  | O => Some (acc, l)
  | S k' =>
      match l with
      | Byte c :: l' =>
          match tail_bits c with
          | Some b => tails k' (acc * 64 + b)%N l'
          | None => None
          end
      | _ => None
      end
  end.

(** A value that a sequence of [1 + k] bytes may spell: in shortest form,
    no surrogate, at most U+10FFFF. *)
Definition scalar (k : nat) (n : N) : bool :=
  match k with
  | 1 => (0x80 <=? n)%N
  | 2 => ((0x800 <=? n) && negb ((0xd800 <=? n) && (n <=? 0xdfff)))%N
  | 3 => ((0x10000 <=? n) && (n <=? 0x10ffff))%N
  | _ => false
  end.

Definition push (c : ascii) (rest : list item) : list item :=
  let n := N_of_ascii c in
  if (n <? 0x80)%N then Cp n :: rest
  else
    let '(k, bits) :=
      if (n <? 0xc0)%N then (0, 0%N)
      else if (n <? 0xe0)%N then (1, (n - 0xc0)%N)
      else if (n <? 0xf0)%N then (2, (n - 0xe0)%N)
      else if (n <? 0xf8)%N then (3, (n - 0xf0)%N)
      else (0, 0%N) in
    match tails k bits rest with
    | Some (v, rest') => if scalar k v then Cp v :: rest' else Byte c :: rest
    | None => Byte c :: rest
    end.

Fixpoint decode (s : string) : list item :=
  match s with
  | EmptyString => []
  | String c r => push c (decode r)
  end.

Definition byte (n : N) : string := String (ascii_of_N n) EmptyString.

Definition encode_cp (n : N) : string :=
  if (n <? 0x80)%N then byte n
  else if (n <? 0x800)%N then byte (0xc0 + n / 64) +:+ byte (0x80 + n mod 64)
  else if (n <? 0x10000)%N then
    byte (0xe0 + n / 4096) +:+ byte (0x80 + (n / 64) mod 64) +:+ byte (0x80 + n mod 64)
  else
    byte (0xf0 + n / 262144) +:+ byte (0x80 + (n / 4096) mod 64) +:+
    byte (0x80 + (n / 64) mod 64) +:+ byte (0x80 + n mod 64).

Definition encode_item (x : item) : string :=
  match x with
  | Cp n => encode_cp n
  | Byte c => String c EmptyString
  end.

Fixpoint encode (l : list item) : string :=
  match l with
  | [] => EmptyString
  | x :: l' => encode_item x +:+ encode l'
  end.

(** The case tables of Unicode 14.0.0, as CPython 3.11 has them.  A run
    [(lo, hi, step, to)] sends the code points [lo], [lo + step], ... up to
    [hi] to [to], [to + step], ...; the runs are in ascending order. *)
Definition lower_runs : list (N * N * N * N) :=
  [
    (0x41, 0x5a, 1, 0x61); (0xc0, 0xd6, 1, 0xe0); (0xd8, 0xde, 1, 0xf8);
    (0x100, 0x12e, 2, 0x101); (0x132, 0x136, 2, 0x133); (0x139, 0x147, 2, 0x13a);
    (0x14a, 0x176, 2, 0x14b); (0x178, 0x178, 1, 0xff); (0x179, 0x17d, 2, 0x17a);
    (0x181, 0x181, 1, 0x253); (0x182, 0x184, 2, 0x183); (0x186, 0x186, 1, 0x254);
    (0x187, 0x187, 1, 0x188); (0x189, 0x18a, 1, 0x256); (0x18b, 0x18b, 1, 0x18c);
    (0x18e, 0x18e, 1, 0x1dd); (0x18f, 0x18f, 1, 0x259); (0x190, 0x190, 1, 0x25b);
    (0x191, 0x191, 1, 0x192); (0x193, 0x193, 1, 0x260); (0x194, 0x194, 1, 0x263);
    (0x196, 0x196, 1, 0x269); (0x197, 0x197, 1, 0x268); (0x198, 0x198, 1, 0x199);
    (0x19c, 0x19c, 1, 0x26f); (0x19d, 0x19d, 1, 0x272); (0x19f, 0x19f, 1, 0x275);
    (0x1a0, 0x1a4, 2, 0x1a1); (0x1a6, 0x1a6, 1, 0x280); (0x1a7, 0x1a7, 1, 0x1a8);
    (0x1a9, 0x1a9, 1, 0x283); (0x1ac, 0x1ac, 1, 0x1ad); (0x1ae, 0x1ae, 1, 0x288);
    (0x1af, 0x1af, 1, 0x1b0); (0x1b1, 0x1b2, 1, 0x28a); (0x1b3, 0x1b5, 2, 0x1b4);
    (0x1b7, 0x1b7, 1, 0x292); (0x1b8, 0x1b8, 1, 0x1b9); (0x1bc, 0x1bc, 1, 0x1bd);
    (0x1c4, 0x1c4, 1, 0x1c6); (0x1c5, 0x1c5, 1, 0x1c6); (0x1c7, 0x1c7, 1, 0x1c9);
    (0x1c8, 0x1c8, 1, 0x1c9); (0x1ca, 0x1ca, 1, 0x1cc); (0x1cb, 0x1db, 2, 0x1cc);
    (0x1de, 0x1ee, 2, 0x1df); (0x1f1, 0x1f1, 1, 0x1f3); (0x1f2, 0x1f4, 2, 0x1f3);
    (0x1f6, 0x1f6, 1, 0x195); (0x1f7, 0x1f7, 1, 0x1bf); (0x1f8, 0x21e, 2, 0x1f9);
    (0x220, 0x220, 1, 0x19e); (0x222, 0x232, 2, 0x223); (0x23a, 0x23a, 1, 0x2c65);
    (0x23b, 0x23b, 1, 0x23c); (0x23d, 0x23d, 1, 0x19a); (0x23e, 0x23e, 1, 0x2c66);
    (0x241, 0x241, 1, 0x242); (0x243, 0x243, 1, 0x180); (0x244, 0x244, 1, 0x289);
    (0x245, 0x245, 1, 0x28c); (0x246, 0x24e, 2, 0x247); (0x370, 0x372, 2, 0x371);
    (0x376, 0x376, 1, 0x377); (0x37f, 0x37f, 1, 0x3f3); (0x386, 0x386, 1, 0x3ac);
    (0x388, 0x38a, 1, 0x3ad); (0x38c, 0x38c, 1, 0x3cc); (0x38e, 0x38f, 1, 0x3cd);
    (0x391, 0x3a1, 1, 0x3b1); (0x3a3, 0x3ab, 1, 0x3c3); (0x3cf, 0x3cf, 1, 0x3d7);
    (0x3d8, 0x3ee, 2, 0x3d9); (0x3f4, 0x3f4, 1, 0x3b8); (0x3f7, 0x3f7, 1, 0x3f8);
    (0x3f9, 0x3f9, 1, 0x3f2); (0x3fa, 0x3fa, 1, 0x3fb); (0x3fd, 0x3ff, 1, 0x37b);
    (0x400, 0x40f, 1, 0x450); (0x410, 0x42f, 1, 0x430); (0x460, 0x480, 2, 0x461);
    (0x48a, 0x4be, 2, 0x48b); (0x4c0, 0x4c0, 1, 0x4cf); (0x4c1, 0x4cd, 2, 0x4c2);
    (0x4d0, 0x52e, 2, 0x4d1); (0x531, 0x556, 1, 0x561); (0x10a0, 0x10c5, 1, 0x2d00);
    (0x10c7, 0x10c7, 1, 0x2d27); (0x10cd, 0x10cd, 1, 0x2d2d); (0x13a0, 0x13ef, 1, 0xab70);
    (0x13f0, 0x13f5, 1, 0x13f8); (0x1c90, 0x1cba, 1, 0x10d0); (0x1cbd, 0x1cbf, 1, 0x10fd);
    (0x1e00, 0x1e94, 2, 0x1e01); (0x1e9e, 0x1e9e, 1, 0xdf); (0x1ea0, 0x1efe, 2, 0x1ea1);
    (0x1f08, 0x1f0f, 1, 0x1f00); (0x1f18, 0x1f1d, 1, 0x1f10); (0x1f28, 0x1f2f, 1, 0x1f20);
    (0x1f38, 0x1f3f, 1, 0x1f30); (0x1f48, 0x1f4d, 1, 0x1f40); (0x1f59, 0x1f5f, 2, 0x1f51);
    (0x1f68, 0x1f6f, 1, 0x1f60); (0x1f88, 0x1f8f, 1, 0x1f80); (0x1f98, 0x1f9f, 1, 0x1f90);
    (0x1fa8, 0x1faf, 1, 0x1fa0); (0x1fb8, 0x1fb9, 1, 0x1fb0); (0x1fba, 0x1fbb, 1, 0x1f70);
    (0x1fbc, 0x1fbc, 1, 0x1fb3); (0x1fc8, 0x1fcb, 1, 0x1f72); (0x1fcc, 0x1fcc, 1, 0x1fc3);
    (0x1fd8, 0x1fd9, 1, 0x1fd0); (0x1fda, 0x1fdb, 1, 0x1f76); (0x1fe8, 0x1fe9, 1, 0x1fe0);
    (0x1fea, 0x1feb, 1, 0x1f7a); (0x1fec, 0x1fec, 1, 0x1fe5); (0x1ff8, 0x1ff9, 1, 0x1f78);
    (0x1ffa, 0x1ffb, 1, 0x1f7c); (0x1ffc, 0x1ffc, 1, 0x1ff3); (0x2126, 0x2126, 1, 0x3c9);
    (0x212a, 0x212a, 1, 0x6b); (0x212b, 0x212b, 1, 0xe5); (0x2132, 0x2132, 1, 0x214e);
    (0x2160, 0x216f, 1, 0x2170); (0x2183, 0x2183, 1, 0x2184); (0x24b6, 0x24cf, 1, 0x24d0);
    (0x2c00, 0x2c2f, 1, 0x2c30); (0x2c60, 0x2c60, 1, 0x2c61); (0x2c62, 0x2c62, 1, 0x26b);
    (0x2c63, 0x2c63, 1, 0x1d7d); (0x2c64, 0x2c64, 1, 0x27d); (0x2c67, 0x2c6b, 2, 0x2c68);
    (0x2c6d, 0x2c6d, 1, 0x251); (0x2c6e, 0x2c6e, 1, 0x271); (0x2c6f, 0x2c6f, 1, 0x250);
    (0x2c70, 0x2c70, 1, 0x252); (0x2c72, 0x2c72, 1, 0x2c73); (0x2c75, 0x2c75, 1, 0x2c76);
    (0x2c7e, 0x2c7f, 1, 0x23f); (0x2c80, 0x2ce2, 2, 0x2c81); (0x2ceb, 0x2ced, 2, 0x2cec);
    (0x2cf2, 0x2cf2, 1, 0x2cf3); (0xa640, 0xa66c, 2, 0xa641); (0xa680, 0xa69a, 2, 0xa681);
    (0xa722, 0xa72e, 2, 0xa723); (0xa732, 0xa76e, 2, 0xa733); (0xa779, 0xa77b, 2, 0xa77a);
    (0xa77d, 0xa77d, 1, 0x1d79); (0xa77e, 0xa786, 2, 0xa77f); (0xa78b, 0xa78b, 1, 0xa78c);
    (0xa78d, 0xa78d, 1, 0x265); (0xa790, 0xa792, 2, 0xa791); (0xa796, 0xa7a8, 2, 0xa797);
    (0xa7aa, 0xa7aa, 1, 0x266); (0xa7ab, 0xa7ab, 1, 0x25c); (0xa7ac, 0xa7ac, 1, 0x261);
    (0xa7ad, 0xa7ad, 1, 0x26c); (0xa7ae, 0xa7ae, 1, 0x26a); (0xa7b0, 0xa7b0, 1, 0x29e);
    (0xa7b1, 0xa7b1, 1, 0x287); (0xa7b2, 0xa7b2, 1, 0x29d); (0xa7b3, 0xa7b3, 1, 0xab53);
    (0xa7b4, 0xa7c2, 2, 0xa7b5); (0xa7c4, 0xa7c4, 1, 0xa794); (0xa7c5, 0xa7c5, 1, 0x282);
    (0xa7c6, 0xa7c6, 1, 0x1d8e); (0xa7c7, 0xa7c9, 2, 0xa7c8); (0xa7d0, 0xa7d0, 1, 0xa7d1);
    (0xa7d6, 0xa7d8, 2, 0xa7d7); (0xa7f5, 0xa7f5, 1, 0xa7f6); (0xff21, 0xff3a, 1, 0xff41);
    (0x10400, 0x10427, 1, 0x10428); (0x104b0, 0x104d3, 1, 0x104d8); (0x10570, 0x1057a, 1, 0x10597);
    (0x1057c, 0x1058a, 1, 0x105a3); (0x1058c, 0x10592, 1, 0x105b3); (0x10594, 0x10595, 1, 0x105bb);
    (0x10c80, 0x10cb2, 1, 0x10cc0); (0x118a0, 0x118bf, 1, 0x118c0); (0x16e40, 0x16e5f, 1, 0x16e60);
    (0x1e900, 0x1e921, 1, 0x1e922) ]%N.

Definition case_ignorable : list (N * N) :=
  [
    (0x27, 0x27); (0x2e, 0x2e); (0x3a, 0x3a); (0x5e, 0x5e); (0x60, 0x60);
    (0xa8, 0xa8); (0xad, 0xad); (0xaf, 0xaf); (0xb4, 0xb4); (0xb7, 0xb8);
    (0x2b0, 0x36f); (0x374, 0x375); (0x37a, 0x37a); (0x384, 0x385); (0x387, 0x387);
    (0x483, 0x489); (0x559, 0x559); (0x55f, 0x55f); (0x591, 0x5bd); (0x5bf, 0x5bf);
    (0x5c1, 0x5c2); (0x5c4, 0x5c5); (0x5c7, 0x5c7); (0x5f4, 0x5f4); (0x600, 0x605);
    (0x610, 0x61a); (0x61c, 0x61c); (0x640, 0x640); (0x64b, 0x65f); (0x670, 0x670);
    (0x6d6, 0x6dd); (0x6df, 0x6e8); (0x6ea, 0x6ed); (0x70f, 0x70f); (0x711, 0x711);
    (0x730, 0x74a); (0x7a6, 0x7b0); (0x7eb, 0x7f5); (0x7fa, 0x7fa); (0x7fd, 0x7fd);
    (0x816, 0x82d); (0x859, 0x85b); (0x888, 0x888); (0x890, 0x891); (0x898, 0x89f);
    (0x8c9, 0x902); (0x93a, 0x93a); (0x93c, 0x93c); (0x941, 0x948); (0x94d, 0x94d);
    (0x951, 0x957); (0x962, 0x963); (0x971, 0x971); (0x981, 0x981); (0x9bc, 0x9bc);
    (0x9c1, 0x9c4); (0x9cd, 0x9cd); (0x9e2, 0x9e3); (0x9fe, 0x9fe); (0xa01, 0xa02);
    (0xa3c, 0xa3c); (0xa41, 0xa42); (0xa47, 0xa48); (0xa4b, 0xa4d); (0xa51, 0xa51);
    (0xa70, 0xa71); (0xa75, 0xa75); (0xa81, 0xa82); (0xabc, 0xabc); (0xac1, 0xac5);
    (0xac7, 0xac8); (0xacd, 0xacd); (0xae2, 0xae3); (0xafa, 0xaff); (0xb01, 0xb01);
    (0xb3c, 0xb3c); (0xb3f, 0xb3f); (0xb41, 0xb44); (0xb4d, 0xb4d); (0xb55, 0xb56);
    (0xb62, 0xb63); (0xb82, 0xb82); (0xbc0, 0xbc0); (0xbcd, 0xbcd); (0xc00, 0xc00);
    (0xc04, 0xc04); (0xc3c, 0xc3c); (0xc3e, 0xc40); (0xc46, 0xc48); (0xc4a, 0xc4d);
    (0xc55, 0xc56); (0xc62, 0xc63); (0xc81, 0xc81); (0xcbc, 0xcbc); (0xcbf, 0xcbf);
    (0xcc6, 0xcc6); (0xccc, 0xccd); (0xce2, 0xce3); (0xd00, 0xd01); (0xd3b, 0xd3c);
    (0xd41, 0xd44); (0xd4d, 0xd4d); (0xd62, 0xd63); (0xd81, 0xd81); (0xdca, 0xdca);
    (0xdd2, 0xdd4); (0xdd6, 0xdd6); (0xe31, 0xe31); (0xe34, 0xe3a); (0xe46, 0xe4e);
    (0xeb1, 0xeb1); (0xeb4, 0xebc); (0xec6, 0xec6); (0xec8, 0xecd); (0xf18, 0xf19);
    (0xf35, 0xf35); (0xf37, 0xf37); (0xf39, 0xf39); (0xf71, 0xf7e); (0xf80, 0xf84);
    (0xf86, 0xf87); (0xf8d, 0xf97); (0xf99, 0xfbc); (0xfc6, 0xfc6); (0x102d, 0x1030);
    (0x1032, 0x1037); (0x1039, 0x103a); (0x103d, 0x103e); (0x1058, 0x1059); (0x105e, 0x1060);
    (0x1071, 0x1074); (0x1082, 0x1082); (0x1085, 0x1086); (0x108d, 0x108d); (0x109d, 0x109d);
    (0x10fc, 0x10fc); (0x135d, 0x135f); (0x1712, 0x1714); (0x1732, 0x1733); (0x1752, 0x1753);
    (0x1772, 0x1773); (0x17b4, 0x17b5); (0x17b7, 0x17bd); (0x17c6, 0x17c6); (0x17c9, 0x17d3);
    (0x17d7, 0x17d7); (0x17dd, 0x17dd); (0x180b, 0x180f); (0x1843, 0x1843); (0x1885, 0x1886);
    (0x18a9, 0x18a9); (0x1920, 0x1922); (0x1927, 0x1928); (0x1932, 0x1932); (0x1939, 0x193b);
    (0x1a17, 0x1a18); (0x1a1b, 0x1a1b); (0x1a56, 0x1a56); (0x1a58, 0x1a5e); (0x1a60, 0x1a60);
    (0x1a62, 0x1a62); (0x1a65, 0x1a6c); (0x1a73, 0x1a7c); (0x1a7f, 0x1a7f); (0x1aa7, 0x1aa7);
    (0x1ab0, 0x1ace); (0x1b00, 0x1b03); (0x1b34, 0x1b34); (0x1b36, 0x1b3a); (0x1b3c, 0x1b3c);
    (0x1b42, 0x1b42); (0x1b6b, 0x1b73); (0x1b80, 0x1b81); (0x1ba2, 0x1ba5); (0x1ba8, 0x1ba9);
    (0x1bab, 0x1bad); (0x1be6, 0x1be6); (0x1be8, 0x1be9); (0x1bed, 0x1bed); (0x1bef, 0x1bf1);
    (0x1c2c, 0x1c33); (0x1c36, 0x1c37); (0x1c78, 0x1c7d); (0x1cd0, 0x1cd2); (0x1cd4, 0x1ce0);
    (0x1ce2, 0x1ce8); (0x1ced, 0x1ced); (0x1cf4, 0x1cf4); (0x1cf8, 0x1cf9); (0x1d2c, 0x1d6a);
    (0x1d78, 0x1d78); (0x1d9b, 0x1dff); (0x1fbd, 0x1fbd); (0x1fbf, 0x1fc1); (0x1fcd, 0x1fcf);
    (0x1fdd, 0x1fdf); (0x1fed, 0x1fef); (0x1ffd, 0x1ffe); (0x200b, 0x200f); (0x2018, 0x2019);
    (0x2024, 0x2024); (0x2027, 0x2027); (0x202a, 0x202e); (0x2060, 0x2064); (0x2066, 0x206f);
    (0x2071, 0x2071); (0x207f, 0x207f); (0x2090, 0x209c); (0x20d0, 0x20f0); (0x2c7c, 0x2c7d);
    (0x2cef, 0x2cf1); (0x2d6f, 0x2d6f); (0x2d7f, 0x2d7f); (0x2de0, 0x2dff); (0x2e2f, 0x2e2f);
    (0x3005, 0x3005); (0x302a, 0x302d); (0x3031, 0x3035); (0x303b, 0x303b); (0x3099, 0x309e);
    (0x30fc, 0x30fe); (0xa015, 0xa015); (0xa4f8, 0xa4fd); (0xa60c, 0xa60c); (0xa66f, 0xa672);
    (0xa674, 0xa67d); (0xa67f, 0xa67f); (0xa69c, 0xa69f); (0xa6f0, 0xa6f1); (0xa700, 0xa721);
    (0xa770, 0xa770); (0xa788, 0xa78a); (0xa7f2, 0xa7f4); (0xa7f8, 0xa7f9); (0xa802, 0xa802);
    (0xa806, 0xa806); (0xa80b, 0xa80b); (0xa825, 0xa826); (0xa82c, 0xa82c); (0xa8c4, 0xa8c5);
    (0xa8e0, 0xa8f1); (0xa8ff, 0xa8ff); (0xa926, 0xa92d); (0xa947, 0xa951); (0xa980, 0xa982);
    (0xa9b3, 0xa9b3); (0xa9b6, 0xa9b9); (0xa9bc, 0xa9bd); (0xa9cf, 0xa9cf); (0xa9e5, 0xa9e6);
    (0xaa29, 0xaa2e); (0xaa31, 0xaa32); (0xaa35, 0xaa36); (0xaa43, 0xaa43); (0xaa4c, 0xaa4c);
    (0xaa70, 0xaa70); (0xaa7c, 0xaa7c); (0xaab0, 0xaab0); (0xaab2, 0xaab4); (0xaab7, 0xaab8);
    (0xaabe, 0xaabf); (0xaac1, 0xaac1); (0xaadd, 0xaadd); (0xaaec, 0xaaed); (0xaaf3, 0xaaf4);
    (0xaaf6, 0xaaf6); (0xab5b, 0xab5f); (0xab69, 0xab6b); (0xabe5, 0xabe5); (0xabe8, 0xabe8);
    (0xabed, 0xabed); (0xfb1e, 0xfb1e); (0xfbb2, 0xfbc2); (0xfe00, 0xfe0f); (0xfe13, 0xfe13);
    (0xfe20, 0xfe2f); (0xfe52, 0xfe52); (0xfe55, 0xfe55); (0xfeff, 0xfeff); (0xff07, 0xff07);
    (0xff0e, 0xff0e); (0xff1a, 0xff1a); (0xff3e, 0xff3e); (0xff40, 0xff40); (0xff70, 0xff70);
    (0xff9e, 0xff9f); (0xffe3, 0xffe3); (0xfff9, 0xfffb); (0x101fd, 0x101fd); (0x102e0, 0x102e0);
    (0x10376, 0x1037a); (0x10780, 0x10785); (0x10787, 0x107b0); (0x107b2, 0x107ba); (0x10a01, 0x10a03);
    (0x10a05, 0x10a06); (0x10a0c, 0x10a0f); (0x10a38, 0x10a3a); (0x10a3f, 0x10a3f); (0x10ae5, 0x10ae6);
    (0x10d24, 0x10d27); (0x10eab, 0x10eac); (0x10f46, 0x10f50); (0x10f82, 0x10f85); (0x11001, 0x11001);
    (0x11038, 0x11046); (0x11070, 0x11070); (0x11073, 0x11074); (0x1107f, 0x11081); (0x110b3, 0x110b6);
    (0x110b9, 0x110ba); (0x110bd, 0x110bd); (0x110c2, 0x110c2); (0x110cd, 0x110cd); (0x11100, 0x11102);
    (0x11127, 0x1112b); (0x1112d, 0x11134); (0x11173, 0x11173); (0x11180, 0x11181); (0x111b6, 0x111be);
    (0x111c9, 0x111cc); (0x111cf, 0x111cf); (0x1122f, 0x11231); (0x11234, 0x11234); (0x11236, 0x11237);
    (0x1123e, 0x1123e); (0x112df, 0x112df); (0x112e3, 0x112ea); (0x11300, 0x11301); (0x1133b, 0x1133c);
    (0x11340, 0x11340); (0x11366, 0x1136c); (0x11370, 0x11374); (0x11438, 0x1143f); (0x11442, 0x11444);
    (0x11446, 0x11446); (0x1145e, 0x1145e); (0x114b3, 0x114b8); (0x114ba, 0x114ba); (0x114bf, 0x114c0);
    (0x114c2, 0x114c3); (0x115b2, 0x115b5); (0x115bc, 0x115bd); (0x115bf, 0x115c0); (0x115dc, 0x115dd);
    (0x11633, 0x1163a); (0x1163d, 0x1163d); (0x1163f, 0x11640); (0x116ab, 0x116ab); (0x116ad, 0x116ad);
    (0x116b0, 0x116b5); (0x116b7, 0x116b7); (0x1171d, 0x1171f); (0x11722, 0x11725); (0x11727, 0x1172b);
    (0x1182f, 0x11837); (0x11839, 0x1183a); (0x1193b, 0x1193c); (0x1193e, 0x1193e); (0x11943, 0x11943);
    (0x119d4, 0x119d7); (0x119da, 0x119db); (0x119e0, 0x119e0); (0x11a01, 0x11a0a); (0x11a33, 0x11a38);
    (0x11a3b, 0x11a3e); (0x11a47, 0x11a47); (0x11a51, 0x11a56); (0x11a59, 0x11a5b); (0x11a8a, 0x11a96);
    (0x11a98, 0x11a99); (0x11c30, 0x11c36); (0x11c38, 0x11c3d); (0x11c3f, 0x11c3f); (0x11c92, 0x11ca7);
    (0x11caa, 0x11cb0); (0x11cb2, 0x11cb3); (0x11cb5, 0x11cb6); (0x11d31, 0x11d36); (0x11d3a, 0x11d3a);
    (0x11d3c, 0x11d3d); (0x11d3f, 0x11d45); (0x11d47, 0x11d47); (0x11d90, 0x11d91); (0x11d95, 0x11d95);
    (0x11d97, 0x11d97); (0x11ef3, 0x11ef4); (0x13430, 0x13438); (0x16af0, 0x16af4); (0x16b30, 0x16b36);
    (0x16b40, 0x16b43); (0x16f4f, 0x16f4f); (0x16f8f, 0x16f9f); (0x16fe0, 0x16fe1); (0x16fe3, 0x16fe4);
    (0x1aff0, 0x1aff3); (0x1aff5, 0x1affb); (0x1affd, 0x1affe); (0x1bc9d, 0x1bc9e); (0x1bca0, 0x1bca3);
    (0x1cf00, 0x1cf2d); (0x1cf30, 0x1cf46); (0x1d167, 0x1d169); (0x1d173, 0x1d182); (0x1d185, 0x1d18b);
    (0x1d1aa, 0x1d1ad); (0x1d242, 0x1d244); (0x1da00, 0x1da36); (0x1da3b, 0x1da6c); (0x1da75, 0x1da75);
    (0x1da84, 0x1da84); (0x1da9b, 0x1da9f); (0x1daa1, 0x1daaf); (0x1e000, 0x1e006); (0x1e008, 0x1e018);
    (0x1e01b, 0x1e021); (0x1e023, 0x1e024); (0x1e026, 0x1e02a); (0x1e130, 0x1e13d); (0x1e2ae, 0x1e2ae);
    (0x1e2ec, 0x1e2ef); (0x1e8d0, 0x1e8d6); (0x1e944, 0x1e94b); (0x1f3fb, 0x1f3ff); (0xe0001, 0xe0001);
    (0xe0020, 0xe007f); (0xe0100, 0xe01ef) ]%N.

Definition cased_letters : list (N * N) :=
  [
    (0x41, 0x5a); (0x61, 0x7a); (0xaa, 0xaa); (0xb5, 0xb5); (0xba, 0xba);
    (0xc0, 0xd6); (0xd8, 0xf6); (0xf8, 0x1ba); (0x1bc, 0x1bf); (0x1c4, 0x293);
    (0x295, 0x2af); (0x370, 0x373); (0x376, 0x377); (0x37b, 0x37d); (0x37f, 0x37f);
    (0x386, 0x386); (0x388, 0x38a); (0x38c, 0x38c); (0x38e, 0x3a1); (0x3a3, 0x3f5);
    (0x3f7, 0x481); (0x48a, 0x52f); (0x531, 0x556); (0x560, 0x588); (0x10a0, 0x10c5);
    (0x10c7, 0x10c7); (0x10cd, 0x10cd); (0x10d0, 0x10fa); (0x10fd, 0x10ff); (0x13a0, 0x13f5);
    (0x13f8, 0x13fd); (0x1c80, 0x1c88); (0x1c90, 0x1cba); (0x1cbd, 0x1cbf); (0x1d00, 0x1d2b);
    (0x1d6b, 0x1d77); (0x1d79, 0x1d9a); (0x1e00, 0x1f15); (0x1f18, 0x1f1d); (0x1f20, 0x1f45);
    (0x1f48, 0x1f4d); (0x1f50, 0x1f57); (0x1f59, 0x1f59); (0x1f5b, 0x1f5b); (0x1f5d, 0x1f5d);
    (0x1f5f, 0x1f7d); (0x1f80, 0x1fb4); (0x1fb6, 0x1fbc); (0x1fbe, 0x1fbe); (0x1fc2, 0x1fc4);
    (0x1fc6, 0x1fcc); (0x1fd0, 0x1fd3); (0x1fd6, 0x1fdb); (0x1fe0, 0x1fec); (0x1ff2, 0x1ff4);
    (0x1ff6, 0x1ffc); (0x2102, 0x2102); (0x2107, 0x2107); (0x210a, 0x2113); (0x2115, 0x2115);
    (0x2119, 0x211d); (0x2124, 0x2124); (0x2126, 0x2126); (0x2128, 0x2128); (0x212a, 0x212d);
    (0x212f, 0x2134); (0x2139, 0x2139); (0x213c, 0x213f); (0x2145, 0x2149); (0x214e, 0x214e);
    (0x2160, 0x217f); (0x2183, 0x2184); (0x24b6, 0x24e9); (0x2c00, 0x2c7b); (0x2c7e, 0x2ce4);
    (0x2ceb, 0x2cee); (0x2cf2, 0x2cf3); (0x2d00, 0x2d25); (0x2d27, 0x2d27); (0x2d2d, 0x2d2d);
    (0xa640, 0xa66d); (0xa680, 0xa69b); (0xa722, 0xa76f); (0xa771, 0xa787); (0xa78b, 0xa78e);
    (0xa790, 0xa7ca); (0xa7d0, 0xa7d1); (0xa7d3, 0xa7d3); (0xa7d5, 0xa7d9); (0xa7f5, 0xa7f6);
    (0xa7fa, 0xa7fa); (0xab30, 0xab5a); (0xab60, 0xab68); (0xab70, 0xabbf); (0xfb00, 0xfb06);
    (0xfb13, 0xfb17); (0xff21, 0xff3a); (0xff41, 0xff5a); (0x10400, 0x1044f); (0x104b0, 0x104d3);
    (0x104d8, 0x104fb); (0x10570, 0x1057a); (0x1057c, 0x1058a); (0x1058c, 0x10592); (0x10594, 0x10595);
    (0x10597, 0x105a1); (0x105a3, 0x105b1); (0x105b3, 0x105b9); (0x105bb, 0x105bc); (0x10c80, 0x10cb2);
    (0x10cc0, 0x10cf2); (0x118a0, 0x118df); (0x16e40, 0x16e7f); (0x1d400, 0x1d454); (0x1d456, 0x1d49c);
    (0x1d49e, 0x1d49f); (0x1d4a2, 0x1d4a2); (0x1d4a5, 0x1d4a6); (0x1d4a9, 0x1d4ac); (0x1d4ae, 0x1d4b9);
    (0x1d4bb, 0x1d4bb); (0x1d4bd, 0x1d4c3); (0x1d4c5, 0x1d505); (0x1d507, 0x1d50a); (0x1d50d, 0x1d514);
    (0x1d516, 0x1d51c); (0x1d51e, 0x1d539); (0x1d53b, 0x1d53e); (0x1d540, 0x1d544); (0x1d546, 0x1d546);
    (0x1d54a, 0x1d550); (0x1d552, 0x1d6a5); (0x1d6a8, 0x1d6c0); (0x1d6c2, 0x1d6da); (0x1d6dc, 0x1d6fa);
    (0x1d6fc, 0x1d714); (0x1d716, 0x1d734); (0x1d736, 0x1d74e); (0x1d750, 0x1d76e); (0x1d770, 0x1d788);
    (0x1d78a, 0x1d7a8); (0x1d7aa, 0x1d7c2); (0x1d7c4, 0x1d7cb); (0x1df00, 0x1df09); (0x1df0b, 0x1df1e);
    (0x1e900, 0x1e943); (0x1f130, 0x1f149); (0x1f150, 0x1f169); (0x1f170, 0x1f189) ]%N.

Fixpoint run_of (n : N) (runs : list (N * N * N * N)) : option N :=
  match runs with
  | [] => None
  | (lo, hi, step, to) :: runs' =>
      if (n <? lo)%N then None
      else if ((n <=? hi) && ((n - lo) mod step =? 0))%N then Some (to + (n - lo))%N
      else run_of n runs'
  end.

Fixpoint in_ranges (n : N) (ranges : list (N * N)) : bool :=
  match ranges with
  | [] => false
  | (lo, hi) :: ranges' =>
      if (n <? lo)%N then false
      else if (n <=? hi)%N then true
      else in_ranges n ranges'
  end.

(** The lower case of one code point; U+0130 alone gives two. *)
Definition low (n : N) : list N :=
  if (n =? 0x130)%N then [0x69; 0x307]%N
  else match run_of n lower_runs with
       | Some m => [m]
       | None => [n]
       end.

Definition ignorable (x : item) : bool :=
  match x with Cp n => in_ranges n case_ignorable | Byte _ => false end.

Definition cased (x : item) : bool :=
  match x with Cp n => in_ranges n cased_letters | Byte _ => false end.

(** Whether, case-ignorable characters apart, a cased letter comes next. *)
Fixpoint cased_next (l : list item) : bool :=
  match l with
  | [] => false
  | x :: l' => if ignorable x then cased_next l' else cased x
  end.

(** A capital sigma is final when a cased letter comes before it and none
    after it; [before] is what precedes it, nearest first. *)
Definition final_sigma (before after : list item) : bool :=
  cased_next before && negb (cased_next after).

Fixpoint lower_items (before l : list item) : list item :=
  match l with
  | [] => []
  | x :: l' =>
      match x with
      | Cp n =>
          if (n =? 0x3a3)%N
          then [Cp (if final_sigma before l' then 0x3c2 else 0x3c3)%N]
          else Cp <$> low n
      | Byte c => [Byte c]
      end ++ lower_items (x :: before) l'
  end.

(** [str.lower] *)
Definition lower (s : string) : string := encode (lower_items [] (decode s)).

(** [list(s)]: the characters of a string. *)
Definition chars (s : string) : list string := encode_item <$> decode s.

(** [len(s)] *)
Definition len (s : string) : nat := length (decode s).

Fixpoint is_ascii (s : string) : bool :=
  match s with
  | EmptyString => true
  | String c s' => (N_of_ascii c <? 0x80)%N && is_ascii s'
  end.

(** [s.rfind(".")]: the index of the last dot. *)
Fixpoint rfind_dot (s : string) : option nat :=
  match s with
  | EmptyString => None
  | String c s' =>
      match rfind_dot s' with
      | Some i => Some (S i)
      | None => if decide (c = "."%char) then Some 0 else None
      end
  end.

(** [s.split("/")]. *)
Fixpoint split_slash (s : string) : list string :=
  match s with
  | EmptyString => [EmptyString]
  | String c s' =>
      match split_slash s' with
      | [] => []
      | w :: ws =>
          if decide (c = "/"%char) then EmptyString :: w :: ws
          else String c w :: ws
      end
  end.

(** A string without a slash: what a path component is. *)
Fixpoint no_slash (s : string) : bool :=
  match s with
  | EmptyString => true
  | String c s' => bool_decide (c ≠ "/"%char) && no_slash s'
  end.

(** [f"{n:02d}"]. *)
Definition pad2 (n : nat) : string :=
  if decide (n < 10) then "0" +:+ pretty n else pretty n.

End Str.

(** ** pathlib

    A [Path] is the list of its components below the root; every path of
    the model is absolute, as the paths the program handles are
    ([run_organize] resolves the target, and the files come from
    [iterdir]/[rglob] on it). *)

Module pathlib.

Definition path : Type := list string.

(** [p / n] for a plain name [n] (a string with a slash is cut at it, an
    empty one or [.] adds nothing, and [..] is resolved when the path is
    used; the statements that depend on it ask for plain names). *)
Definition joinpath (p : path) (n : string) : path := p ++ [n].

(** [p.parent]; the root is its own parent. *)
Definition parent (p : path) : path := removelast p.

(** [p.name]; empty for the root. *)
Definition name (p : path) : string := default EmptyString (last p).

(** [PurePath.suffix] and [PurePath.stem]: the name is cut at its last
    dot when that dot is neither its first nor its last character. *)
Definition suffix_of_name (nm : string) : string :=
  match Str.rfind_dot nm with
  | Some i =>
      if bool_decide (0 < i) && bool_decide (i < String.length nm - 1)
      then String.substring i (String.length nm - i) nm
      else EmptyString
  | None => EmptyString
  end.

Definition stem_of_name (nm : string) : string :=
  match Str.rfind_dot nm with
  | Some i =>
      if bool_decide (0 < i) && bool_decide (i < String.length nm - 1)
      then String.substring 0 i nm
      else nm
  | None => nm
  end.

Definition suffix (p : path) : string := suffix_of_name (name p).
Definition stem (p : path) : string := stem_of_name (name p).

(** [str(p)]. *)
Fixpoint str_components (p : path) : string :=
  match p with
  | [] => EmptyString
  | c :: p' => "/" +:+ c +:+ str_components p'
  end.

Definition str (p : path) : string :=
  match p with
  | [] => "/"
  | _ => str_components p
  end.

(** [Path(s)] for the string of an absolute path: empty components and
    single dots are dropped.  (A relative string is resolved against the
    working directory, and [..] against the file system, when the path is
    used; neither has a place here: the statements about paths read from
    strings ask for the strings [str] writes for paths of plain names.) *)
Definition Path (s : string) : path :=
  filter (λ c, c ≠ EmptyString ∧ c ≠ ".") (Str.split_slash s).

(** The names of entries: not empty, not [.] or [..], without a slash.
    These are the components [str] and [Path] keep apart, and the strings
    for which [p / n] adds the one component [n]. *)
Definition plain_name (c : string) : bool :=
  bool_decide (c ≠ EmptyString) && bool_decide (c ≠ ".") && bool_decide (c ≠ "..")
  && Str.no_slash c.

Definition plain (p : path) : bool := forallb plain_name p.

End pathlib.

Export pathlib.

Notation "p // n" := (joinpath p n) (at level 40, left associativity).

(** ** Exceptions, and a state monad whose state survives them *)

Inductive exn : Type :=
  | FileNotFoundError | FileExistsError | NotADirectoryError
  | PermissionError | ShutilError
  | TypeError | KeyError | AttributeError.

Global Instance exn_eq_dec : EqDecision exn.
Proof. solve_decision. Defined.

Inductive outcome (S A : Type) : Type :=
  | Returned (s : S) (a : A)
  | Raised (s : S) (e : exn).
Arguments Returned {S A} s a.
Arguments Raised {S A} s e.

Definition py (S A : Type) : Type := S → outcome S A.

Definition ret {S A} (a : A) : py S A := λ s, Returned s a.
Definition raise {S A} (e : exn) : py S A := λ s, Raised s e.
Definition bind {S A B} (m : py S A) (k : A → py S B) : py S B :=
  λ s, match m s with
       | Returned s' a => k a s'
       | Raised s' e => Raised s' e
       end.
Definition get {S} : py S S := λ s, Returned s s.
Definition put {S} (s : S) : py S unit := λ _, Returned s tt.

Notation "'let*' x := m 'in' k" := (bind m (λ x, k))
  (at level 10, x name, m at level 100, k at level 200).
Notation "m ;;; k" := (bind m (λ _, k))
  (at level 100, k at level 200, right associativity).

Definition final_state {S A} (o : outcome S A) : S :=
  match o with Returned s _ => s | Raised s _ => s end.

Definition returned {S A} (o : outcome S A) : option A :=
  match o with Returned _ a => Some a | Raised _ _ => None end.

Definition raised {S A} (o : outcome S A) : option exn :=
  match o with Returned _ _ => None | Raised _ e => Some e end.

(** [for x in xs: ys.append(body(x))] *)
Fixpoint for_each {S A B} (body : A → py S B) (xs : list A) : py S (list B) :=
  match xs with
  | [] => ret []
  | x :: xs' =>
      let* y := body x in
      let* ys := for_each body xs' in
      ret (y :: ys)
  end.

(** ** The file system *)

(** A regular file: its bytes, the year and month of its modification time,
    and whether it can be opened for reading, whether [os.rename] and
    [os.unlink] succeed on it, and whether [stat] does. *)
Record file : Type := File {
  f_data : string;
  f_mtime : nat * nat;
  f_readable : bool;
  f_movable : bool;
  f_statable : bool;
}.

Inductive node : Type :=
  | NFile (f : file)
  | NDir.

Global Instance file_eq_dec : EqDecision file.
Proof. solve_decision. Defined.
Global Instance node_eq_dec : EqDecision node.
Proof. solve_decision. Defined.

(** An ordinary file, with every operation allowed. *)
Definition plain_file (data : string) (mtime : nat * nat) : file :=
  File data mtime true true true.

Abbreviation FS := (gmap path node).

Definition is_file_node (n : node) : bool :=
  match n with NFile _ => true | NDir => false end.

Module fs.

(** [p.exists()], [p.is_dir()], [p.is_file()] *)
Definition exists_ (s : FS) (p : path) : bool := bool_decide (is_Some (s !! p)).
Definition is_dir (s : FS) (p : path) : bool := bool_decide (s !! p = Some NDir).
Definition is_file (s : FS) (p : path) : bool :=
  match s !! p with Some (NFile _) => true | _ => false end.

(** [p.mkdir(parents=True, exist_ok=True)]: every missing directory on the
    way is created; a regular file on the way is an error. *)
Fixpoint mkdir_from (base : path) (comps : list string) (s : FS) : outcome FS unit :=
  match comps with
  | [] => Returned s tt
  | c :: cs =>
      let p := base // c in
      match s !! p with
      | Some NDir => mkdir_from p cs s
      | Some (NFile _) =>
          Raised s (match cs with [] => FileExistsError | _ => NotADirectoryError end)
      | None => mkdir_from p cs (<[p := NDir]> s)
      end
  end.

Definition mkdir (p : path) : py FS unit := mkdir_from [] p.

(** The entries of a directory tree renamed from [src] to [dst]. *)
Definition rebase (src dst p : path) : path :=
  if decide (src `prefix_of` p) then dst ++ drop (length src) p else p.

Definition rename (src dst : path) (n : node) (s : FS) : FS :=
  match n with
  | NFile _ => <[dst := n]> (delete src s)
  | NDir => list_to_map (prod_map (rebase src dst) id <$> map_to_list s)
  end.

(** [shutil.move(src, dst)].  An existing directory [dst] receives the
    entry under its own name (and must not hold that name yet); otherwise
    the entry is renamed to [dst], replacing a regular file there.

    When [os.rename] fails on a regular file, [shutil.move] copies the file
    ([copy2]: the file is opened, then the destination) and unlinks the
    source; a file that cannot be unlinked is left with its copy.  For a
    directory only the rename is modelled (where it fails, the code copies
    the tree); the statements about moves are about regular files. *)
Definition shutil_move (src dst : path) : py FS unit := λ s,
  match s !! src with
  | None => Raised s FileNotFoundError
  | Some n =>
      let real_dst := if is_dir s dst then dst // name src else dst in
      if is_dir s dst && exists_ s real_dst then Raised s ShutilError
      else
        match n with
        | NFile f =>
            if f_movable f && is_dir s (parent real_dst)
            then Returned (rename src real_dst n s) tt
            else if bool_decide (src = real_dst) then Raised s ShutilError
            else if negb (f_readable f) then Raised s PermissionError
            else
              match s !! parent real_dst with
              | Some NDir =>
                  Raised (<[real_dst := NFile (plain_file (f_data f) (f_mtime f))]> s)
                         PermissionError
              | Some (NFile _) => Raised s NotADirectoryError
              | None => Raised s FileNotFoundError
              end
        | NDir =>
            if negb (is_dir s (parent real_dst)) then Raised s FileNotFoundError
            else if is_file s real_dst then Raised s FileExistsError
            else if bool_decide (src `prefix_of` real_dst) then Raised s ShutilError
            else Returned (rename src real_dst n s) tt
        end
  end.

(** [p.stat()] of a regular file: size and modification month. *)
Definition stat (p : path) : py FS (nat * (nat * nat)) := λ s,
  match s !! p with
  | Some (NFile f) =>
      if f_statable f then Returned s (String.length (f_data f), f_mtime f)
      else Raised s PermissionError
  | Some NDir => Returned s (0, (1970, 1))
  | None => Raised s FileNotFoundError
  end.

(** [open(p, "rb").read()] *)
Definition read_bytes (s : FS) (p : path) : option string :=
  match s !! p with
  | Some (NFile f) => if f_readable f then Some (f_data f) else None
  | _ => None
  end.

Definition is_child (target p : path) : bool :=
  bool_decide (p ≠ [] ∧ parent p = target).
Definition is_below (target p : path) : bool :=
  bool_decide (target `prefix_of` p ∧ p ≠ target).

(** The regular files [target.iterdir()] / [target.rglob("*")] yield, in
    the order the file system lists them. *)
Definition files_where (sel : path → bool) (s : FS) : list path :=
  (filter (λ pn, sel pn.1 ∧ is_file_node pn.2) (map_to_list s)).*1.

(** Whether [is_file()], which is a [stat], raises on one of the entries
    [sel] selects. *)
Definition blocked (sel : path → bool) (s : FS) : bool :=
  existsb (λ pn, sel pn.1 && match pn.2 with
                             | NFile f => negb (f_statable f)
                             | NDir => false
                             end) (map_to_list s).

End fs.

(** [list_files]: [iterdir] raises on a target that is not a directory,
    [rglob] yields nothing there; and [is_file()] raises on an entry whose
    [stat] fails. *)
Definition list_files (target : path) (recursive : bool) : py FS (list path) := λ s,
  if recursive then
    if fs.blocked (fs.is_below target) s then Raised s PermissionError
    else Returned s (fs.files_where (fs.is_below target) s)
  else match s !! target with
       | Some NDir =>
           if fs.blocked (fs.is_child target) s then Raised s PermissionError
           else Returned s (fs.files_where (fs.is_child target) s)
       | Some (NFile _) => Raised s NotADirectoryError
       | None => Raised s FileNotFoundError
       end.

(** ** Classifier *)

Abbreviation ExtMap := (list (string * list string)).

Definition DEFAULT_EXT_MAP : ExtMap :=
  [ ("Images", [".jpg"; ".jpeg"; ".png"; ".gif"; ".bmp"; ".tiff"; ".webp"; ".heic"]);
    ("Videos", [".mp4"; ".mkv"; ".mov"; ".avi"; ".wmv"; ".flv"; ".webm"]);
    ("Documents", [".pdf"; ".doc"; ".docx"; ".ppt"; ".pptx"; ".xls"; ".xlsx"; ".odt"; ".txt"; ".md"]);
    ("Archives", [".zip"; ".rar"; ".7z"; ".tar"; ".gz"; ".bz2"]);
    ("Code", [".py"; ".js"; ".ts"; ".java"; ".c"; ".cpp"; ".cs"; ".html"; ".css"; ".go"; ".rs"]);
    ("Music", [".mp3"; ".wav"; ".flac"; ".aac"; ".m4a"; ".ogg"]) ].

Definition DEFAULT_OTHER : string := "Others".

(** The loop of [find_category_by_ext] over [ext_map.items()]. *)
Fixpoint first_category (ext_map : ExtMap) (ext : string) : string :=
  match ext_map with
  | [] => DEFAULT_OTHER
  | (cat, exts) :: rest =>
      if bool_decide (ext ∈ exts) then cat else first_category rest ext
  end.

Definition find_category_by_ext (ext_map : ExtMap) (ext : string) : string :=
  first_category ext_map (Str.lower ext).

(** An entry of the map lists an extension. *)
Definition lists (ext : string) (ce : string * list string) : Prop := ext ∈ ce.2.

Global Instance lists_dec ext ce : Decision (lists ext ce).
Proof. unfold lists. apply _. Defined.

(** ** Path allocator *)

(** [parent / f"{stem}_{counter}{suffix}"] *)
Definition candidate (dest : path) (counter : nat) : path :=
  parent dest // (stem dest +:+ "_" +:+ pretty counter +:+ suffix dest).

(** The [while True] loop of [make_unique_path], cut after [fuel] rounds. *)
Fixpoint unique_loop (s : FS) (dest : path) (fuel counter : nat) : option path :=
  match fuel with
  | 0 => None
  | S fuel' =>
      if fs.exists_ s (candidate dest counter)
      then unique_loop s dest fuel' (S counter)
      else Some (candidate dest counter)
  end.

(** One round more than the file system has entries is enough for the loop
    to return ([unique_loop_total]), so the default is never taken. *)
Definition make_unique_path (s : FS) (dest : path) : path :=
  if negb (fs.exists_ s dest) then dest
  else default dest (unique_loop s dest (S (size s)) 1).

(** ** Hasher: hashlib.md5 (RFC 1321) on byte strings *)

Module md5.

Local Open Scope Z_scope.

Definition K : list Z :=
  [ 0xd76aa478; 0xe8c7b756; 0x242070db; 0xc1bdceee;
    0xf57c0faf; 0x4787c62a; 0xa8304613; 0xfd469501;
    0x698098d8; 0x8b44f7af; 0xffff5bb1; 0x895cd7be;
    0x6b901122; 0xfd987193; 0xa679438e; 0x49b40821;
    0xf61e2562; 0xc040b340; 0x265e5a51; 0xe9b6c7aa;
    0xd62f105d; 0x02441453; 0xd8a1e681; 0xe7d3fbc8;
    0x21e1cde6; 0xc33707d6; 0xf4d50d87; 0x455a14ed;
    0xa9e3e905; 0xfcefa3f8; 0x676f02d9; 0x8d2a4c8a;
    0xfffa3942; 0x8771f681; 0x6d9d6122; 0xfde5380c;
    0xa4beea44; 0x4bdecfa9; 0xf6bb4b60; 0xbebfbc70;
    0x289b7ec6; 0xeaa127fa; 0xd4ef3085; 0x04881d05;
    0xd9d4d039; 0xe6db99e5; 0x1fa27cf8; 0xc4ac5665;
    0xf4292244; 0x432aff97; 0xab9423a7; 0xfc93a039;
    0x655b59c3; 0x8f0ccc92; 0xffeff47d; 0x85845dd1;
    0x6fa87e4f; 0xfe2ce6e0; 0xa3014314; 0x4e0811a1;
    0xf7537e82; 0xbd3af235; 0x2ad7d2bb; 0xeb86d391 ].

Definition shifts : list Z :=
  [ 7; 12; 17; 22; 7; 12; 17; 22; 7; 12; 17; 22; 7; 12; 17; 22;
    5; 9; 14; 20; 5; 9; 14; 20; 5; 9; 14; 20; 5; 9; 14; 20;
    4; 11; 16; 23; 4; 11; 16; 23; 4; 11; 16; 23; 4; 11; 16; 23;
    6; 10; 15; 21; 6; 10; 15; 21; 6; 10; 15; 21; 6; 10; 15; 21 ].

Definition w32 (x : Z) : Z := x mod 2 ^ 32.
Definition not32 (x : Z) : Z := Z.lxor x 0xffffffff.
Definition rotl32 (x n : Z) : Z :=
  w32 (Z.lor (Z.shiftl x n) (Z.shiftr x (32 - n))).

Definition bytes_of (s : string) : list Z :=
  (λ c, Z.of_N (N_of_ascii c)) <$> list_ascii_of_string s.

(** Little-endian bytes of a word, and back. *)
Fixpoint le_bytes (n : nat) (x : Z) : list Z :=
  match n with
  | O => []
  | S n' => x mod 256 :: le_bytes n' (x / 256)
  end.

Fixpoint le_word (bs : list Z) : Z :=
  match bs with
  | [] => 0
  | b :: bs' => b + 256 * le_word bs'
  end.

(** The message followed by 0x80, zeros up to 56 modulo 64, and its length
    in bits as a 64-bit little-endian word. *)
Definition pad (msg : list Z) : list Z :=
  let len := Z.of_nat (length msg) in
  let zeros := Z.to_nat ((55 - len) mod 64) in
  msg ++ [0x80] ++ replicate zeros 0 ++ le_bytes 8 ((8 * len) mod 2 ^ 64).

(** The sixteen words of each 64-byte block. *)
Fixpoint blocks (n : nat) (bs : list Z) : list (list Z) :=
  match n with
  | O => []
  | S n' =>
      ((λ i, le_word (take 4 (drop (4 * i) bs))) <$> seq 0 16)
        :: blocks n' (drop 64 bs)
  end.

Definition state : Type := Z * Z * Z * Z.

Definition round (M : list Z) (st : state) (i : nat) : state :=
  let '(a, b, c, d) := st in
  let '(f, g) :=
    if (i <? 16)%nat then (Z.lor (Z.land b c) (Z.land (not32 b) d), i)
    else if (i <? 32)%nat then (Z.lor (Z.land d b) (Z.land (not32 d) c), (5 * i + 1) mod 16)%nat
    else if (i <? 48)%nat then (Z.lxor (Z.lxor b c) d, (3 * i + 5) mod 16)%nat
    else (Z.lxor c (Z.lor b (not32 d)), (7 * i) mod 16)%nat in
  let f' := w32 (f + a + nth i K 0 + nth g M 0) in
  (d, w32 (b + rotl32 f' (nth i shifts 0)), b, c).

Definition compress (st : state) (M : list Z) : state :=
  let '(a0, b0, c0, d0) := st in
  let '(a, b, c, d) := foldl (round M) st (seq 0 64) in
  (w32 (a0 + a), w32 (b0 + b), w32 (c0 + c), w32 (d0 + d)).

Definition init : state := (0x67452301, 0xefcdab89, 0x98badcfe, 0x10325476).

Definition digest (msg : list Z) : list Z :=
  let p := pad msg in
  let '(a, b, c, d) := foldl compress init (blocks (length p / 64) p) in
  le_bytes 4 a ++ le_bytes 4 b ++ le_bytes 4 c ++ le_bytes 4 d.

Definition hex_digit (x : Z) : ascii :=
  if x <? 10 then ascii_of_N (Z.to_N (48 + x)) else ascii_of_N (Z.to_N (87 + x)).

Fixpoint hex (bs : list Z) : string :=
  match bs with
  | [] => EmptyString
  | b :: bs' => String (hex_digit (b / 16)) (String (hex_digit (b mod 16)) (hex bs'))
  end.

(** [hashlib.md5(data).hexdigest()] *)
Definition hexdigest (data : string) : string := hex (digest (bytes_of data)).

(** The bytes a string of hexadecimal digits spells, to write test data. *)
Definition unhex_digit (c : ascii) : N :=
  let n := N_of_ascii c in
  if (n <? 58)%N then (n - 48)%N else (n - 87)%N.

Fixpoint unhex (s : string) : string :=
  match s with
  | String h (String l s') =>
      String (ascii_of_N (16 * unhex_digit h + unhex_digit l)) (unhex s')
  | _ => EmptyString
  end.

End md5.

(** [get_file_hash]: the file is read in blocks of [block_size] bytes, each
    fed to the hasher; a file that cannot be opened gives [None].  The
    hasher object is the bytes it was fed so far. *)
Fixpoint read_blocks (fuel block_size : nat) (data : string) : list string :=
  match fuel with
  | 0 => []
  | S fuel' =>
      let chunk := String.substring 0 block_size data in
      if decide (chunk = EmptyString) then []
      else chunk :: read_blocks fuel' block_size
                      (String.substring block_size (String.length data - block_size) data)
  end.

Definition block_size : nat := 2 ^ 16.

(** What the hasher was fed when the loop ends. *)
Definition fed_bytes (data : string) : string :=
  foldl (λ acc chunk, acc +:+ chunk) EmptyString
        (read_blocks (S (String.length data)) block_size data).

Definition get_file_hash (s : FS) (p : path) : option string :=
  match fs.read_bytes s p with
  | Some data => Some (md5.hexdigest (fed_bytes data))
  | None => None
  end.

(** ** Move records and the history artifact *)

(** The values [json.load] returns. *)
#[warnings="-register-all"]
Inductive json : Type :=
  | JNull
  | JBool (b : bool)
  | JNum (z : Z)
  | JStr (s : string)
  | JList (l : list json)
  | JObj (kv : list (string * json)).

(** A move record, [{"src": .., "dst": .., "time": .., "dry": ..}]. *)
Record MoveRecord : Type := {
  mv_src : string;
  mv_dst : string;
  mv_time : string;
  mv_dry : bool;
}.

Definition move_json (m : MoveRecord) : json :=
  JObj [ ("src", JStr (mv_src m)); ("dst", JStr (mv_dst m));
         ("time", JStr (mv_time m)); ("dry", JBool (mv_dry m)) ].

(** The run [run_organize] appends to the history. *)
Definition run_json (run_time : string) (target : path) (moves : list MoveRecord) : json :=
  JObj [ ("run_time", JStr run_time); ("target", JStr (str target));
         ("moves", JList (move_json <$> moves)) ].

(** The operations of Python values the program applies to what it loaded. *)
Module pyval.

(** [bool(j)] *)
Definition truthy (j : json) : bool :=
  match j with
  | JNull => false
  | JBool b => b
  | JNum z => negb (z =? 0)%Z
  | JStr s => negb (bool_decide (s = EmptyString))
  | JList l => negb (bool_decide (l = []))
  | JObj kv => negb (bool_decide (kv = []))
  end.

Fixpoint assoc (key : string) (kv : list (string * json)) : option json :=
  match kv with
  | [] => None
  | (k, v) :: kv' => if decide (k = key) then Some v else assoc key kv'
  end.

(** [j.pop()]: the list without its last item, and that item. *)
Definition pop (j : json) : exn + (json * json) :=
  match j with
  | JList l =>
      match last l with
      | Some x => inr (JList (removelast l), x)
      | None => inl KeyError
      end
  | JObj _ => inl TypeError
  | _ => inl AttributeError
  end.

(** [j.get(key, dflt)] *)
Definition get (j : json) (key : string) (dflt : json) : exn + json :=
  match j with
  | JObj kv => inr (default dflt (assoc key kv))
  | _ => inl AttributeError
  end.

(** [j[key]] for a string [key] *)
Definition item (j : json) (key : string) : exn + json :=
  match j with
  | JObj kv => match assoc key kv with Some v => inr v | None => inl KeyError end
  | _ => inl TypeError
  end.

Definition chars (s : string) : list json := JStr <$> Str.chars s.

(** [list(reversed(j))]: a list backwards, a string by characters, a
    dictionary by keys. *)
Definition reversed (j : json) : exn + list json :=
  match j with
  | JList l => inr (reverse l)
  | JStr s => inr (reverse (chars s))
  | JObj kv => inr (reverse ((λ e, JStr e.1) <$> kv))
  | _ => inl TypeError
  end.

(** [len(j)] *)
Definition len (j : json) : exn + nat :=
  match j with
  | JList l => inr (length l)
  | JStr s => inr (Str.len s)
  | JObj kv => inr (length kv)
  | _ => inl TypeError
  end.

(** [j.append(x)] *)
Definition append (j x : json) : exn + json :=
  match j with
  | JList l => inr (JList (l ++ [x]))
  | _ => inl AttributeError
  end.

(** [Path(j)] *)
Definition to_path (j : json) : exn + path :=
  match j with
  | JStr s => inr (Path s)
  | _ => inl TypeError
  end.

End pyval.

(** A Python operation that returns or raises, in the monad. *)
Definition lift {S A} (r : exn + A) : py S A :=
  match r with inr a => ret a | inl e => raise e end.

(** A JSON file of the working directory ([move_history.json],
    [config.json], [file_hashes.json]): missing; present but not openable
    for reading; present but not JSON; holding a JSON document; or out of
    reach, so that the test [exists()] itself raises. *)
Inductive artifact : Type :=
  | Absent
  | Unreadable
  | Garbled
  | Doc (j : json)
  | Denied.

(** What becomes of an attempt to write the history file: it is written;
    [open(.., "w")] raises and the file stays as it is; or the file is
    opened, and so emptied, and the write fails. *)
Inductive disk : Type :=
  | Writes
  | Refuses
  | Truncates.

(** The file system the program organizes and the history file, which
    lives in the working directory and is kept apart from the file system:
    the working directory is taken to lie outside the organized tree. *)
Record World : Type := {
  w_fs : FS;
  w_history : artifact;
  w_disk : disk;
}.

(** A file system computation, run in the world. *)
Definition on_fs {A} (m : py FS A) : py World A := λ w,
  match m (w_fs w) with
  | Returned s a =>
      Returned {| w_fs := s; w_history := w_history w; w_disk := w_disk w |} a
  | Raised s e =>
      Raised {| w_fs := s; w_history := w_history w; w_disk := w_disk w |} e
  end.

(** The history file after an attempt to write [history] to it.  A file
    that cannot be read stays so whatever is written to it; one out of reach
    cannot be opened at all. *)
Definition written (history : json) (a : artifact) (d : disk) : artifact :=
  match a, d with
  | Denied, _ => Denied
  | _, Refuses => a
  | Unreadable, _ => Unreadable
  | _, Writes => Doc history
  | _, Truncates => Garbled
  end.

(** [save_move_history]: every exception of the write is caught and only
    logged, so the call returns whatever became of the file. *)
Definition save_move_history (history : json) : py World unit := λ w,
  Returned {| w_fs := w_fs w;
              w_history := written history (w_history w) (w_disk w);
              w_disk := w_disk w |} tt.

(** [load_move_history]: the test [exists()] stands before the [try] and
    raises when the file is out of reach; the handler of the [try] gives the
    empty list; a document is returned as [json.load] parsed it. *)
Definition load_move_history (a : artifact) : exn + json :=
  match a with
  | Absent => inr (JList [])
  | Unreadable => inr (JList [])
  | Garbled => inr (JList [])
  | Doc j => inr j
  | Denied => inl PermissionError
  end.

(** ** Organize engine *)

(** The body of the loop of [organize_by_type].  The category is joined to
    the target as one component, which is what [target / cat] does for a
    category that is a plain name; the statements about the directory of a
    category ask for that. *)
Definition organize_one_by_type (now : string) (target : path) (ext_map : ExtMap)
    (dry_run : bool) (f : path) : py FS MoveRecord :=
  let ext := Str.lower (suffix f) in
  let cat := find_category_by_ext ext_map ext in
  let dest_dir := target // cat in
  fs.mkdir dest_dir ;;;
  let* s := get in
  let dest := make_unique_path s (dest_dir // name f) in
  let move_record :=
    {| mv_src := str f; mv_dst := str dest; mv_time := now; mv_dry := dry_run |} in
  (if negb dry_run then fs.shutil_move f dest else ret tt) ;;;
  ret move_record.

Definition organize_by_type (now : string) (target : path) (ext_map : ExtMap)
    (dry_run recursive : bool) : py FS (list MoveRecord) :=
  let* files := list_files target recursive in
  for_each (organize_one_by_type now target ext_map dry_run) files.

(** The body of the loop of [organize_by_date]. *)
Definition organize_one_by_date (now : string) (target : path)
    (dry_run : bool) (f : path) : py FS MoveRecord :=
  let* st := fs.stat f in
  let mtime := st.2 in
  let folder_name := pretty mtime.1 +:+ "-" +:+ Str.pad2 mtime.2 in
  let dest_dir := target // folder_name in
  fs.mkdir dest_dir ;;;
  let* s := get in
  let dest := make_unique_path s (dest_dir // name f) in
  let move_record :=
    {| mv_src := str f; mv_dst := str dest; mv_time := now; mv_dry := dry_run |} in
  (if negb dry_run then fs.shutil_move f dest else ret tt) ;;;
  ret move_record.

Definition organize_by_date (now : string) (target : path)
    (dry_run recursive : bool) : py FS (list MoveRecord) :=
  let* files := list_files target recursive in
  for_each (organize_one_by_date now target dry_run) files.

(** ** Duplicate finder *)

(** One round of the loop of [find_duplicates]:
    [hash_map.setdefault(h, []).append(str(f))], skipping a falsy digest. *)
Definition add_hash (s : FS) (hash_map : gmap string (list string)) (f : path)
    : gmap string (list string) :=
  match get_file_hash s f with
  | Some h =>
      if bool_decide (h = EmptyString) then hash_map
      else <[h := default [] (hash_map !! h) ++ [str f]]> hash_map
  | None => hash_map
  end.

Definition find_duplicates (target : path) (recursive : bool)
    : py FS (gmap string (list string)) :=
  let* files := list_files target recursive in
  let* s := get in
  let hash_map := foldl (add_hash s) ∅ files in
  ret (filter (λ hp, 1 < length hp.2) hash_map).

(** ** Stats aggregator *)

(** [round(num / den, 2)] in hundredths: the nearest hundredth, a tie going
    to the even one. *)
Definition round_hundredths (num den : Z) : Z :=
  let q := (100 * num / den)%Z in
  let r := (100 * num mod den)%Z in
  if (2 * r <? den)%Z then q
  else if (den <? 2 * r)%Z then (q + 1)%Z
  else if Z.even q then q else (q + 1)%Z.

(** The dictionary [gather_stats_for_dashboard] returns; [total_size_mb] is
    kept as the number of hundredths the rounded float stands for. *)
Record Stats : Type := {
  total_files : nat;
  total_size_mb : Z;
  counts : gmap string nat;
}.

(** The accumulators of the loop: [counts], [total_files], [total_size]. *)
Definition stats_acc : Type := gmap string nat * nat * nat.

Definition stats_one (ext_map : ExtMap) (acc : stats_acc) (f : path) : py FS stats_acc :=
  let '(cnts, n, size) := acc in
  let cat := find_category_by_ext ext_map (suffix f) in
  let* c := lift (match cnts !! cat with Some c => inr c | None => inl KeyError end) in
  let cnts := <[cat := c + 1]> cnts in
  let n := n + 1 in
  λ s, match fs.stat f s with
       | Returned s' st => Returned s' (cnts, n, size + st.1)
       | Raised s' _ => Returned s' (cnts, n, size)
       end.

Fixpoint stats_loop (ext_map : ExtMap) (acc : stats_acc) (files : list path) : py FS stats_acc :=
  match files with
  | [] => ret acc
  | f :: files' =>
      let* acc' := stats_one ext_map acc f in
      stats_loop ext_map acc' files'
  end.

Definition initial_counts (ext_map : ExtMap) : gmap string nat :=
  <[DEFAULT_OTHER := 0]> (foldl (λ c cat, <[cat := 0]> c) ∅ ext_map.*1).

Definition gather_stats_for_dashboard (target : path) (ext_map : ExtMap)
    (recursive : bool) : py FS Stats :=
  let cnts := initial_counts ext_map in
  let* files := list_files target recursive in
  let* acc := stats_loop ext_map (cnts, 0, 0) files in
  let '(cnts, n, size) := acc in
  ret {| total_files := n;
         total_size_mb := round_hundredths (Z.of_nat size) (1024 * 1024);
         counts := cnts |}.

(** ** The two methods of [OrganizerGUI] that use the history *)

Inductive mode : Type := by_type | by_date.

(** What the methods show: the console lines of [run_organize], the message
    boxes of [undo_last]. *)
Inductive console_line : Type :=
  | Starting
  | Completed (n : nat)
  | Error (e : exn).

Inductive message : Type :=
  | NoHistory
  | Restored (n : nat).

(** The [try] block of the worker of [run_organize], without the e-mail. *)
Definition run_organize_try (now : string) (target : path) (ext_map : ExtMap)
    (m : mode) (dry recursive : bool) : py World nat :=
  let* moves := on_fs (match m with
                       | by_type => organize_by_type now target ext_map dry recursive
                       | by_date => organize_by_date now target dry recursive
                       end) in
  (if negb (bool_decide (moves = [])) && negb dry
   then let* w := get in
        let* history := lift (load_move_history (w_history w)) in
        let* history := lift (pyval.append history (run_json now target moves)) in
        save_move_history history
   else ret tt) ;;;
  ret (length moves).

Definition run_organize (now : string) (target : path) (ext_map : ExtMap)
    (m : mode) (dry recursive : bool) (w : World) : World * list console_line :=
  match run_organize_try now target ext_map m dry recursive w with
  | Returned w' n => (w', [Starting; Completed n])
  | Raised w' e => (w', [Starting; Error e])
  end.

(** The body of the loop of [undo_last]. *)
Definition undo_one (rec : json) : py FS unit :=
  let* d := lift (pyval.get rec "dry" JNull) in
  if pyval.truthy d then ret tt
  else
    let* jsrc := lift (pyval.item rec "src") in
    let* src := lift (pyval.to_path jsrc) in
    let* jdst := lift (pyval.item rec "dst") in
    let* dst := lift (pyval.to_path jdst) in
    let* s := get in
    if fs.exists_ s dst then fs.shutil_move dst (make_unique_path s src)
    else ret tt.

Definition undo_last : py World message :=
  let* w := get in
  let* history := lift (load_move_history (w_history w)) in
  if negb (pyval.truthy history) then ret NoHistory
  else
    let* popped := lift (pyval.pop history) in
    let '(history, last) := popped in
    let* moves := lift (pyval.get last "moves" (JList [])) in
    let* recs := lift (pyval.reversed moves) in
    on_fs (for_each undo_one recs) ;;;
    save_move_history history ;;;
    let* n := lift (pyval.len moves) in
    ret (Restored n).

(** ** Notions the statements use *)

(** The other case of an ASCII letter, and two strings that differ at most
    in the case of their ASCII letters. *)
Definition flip_case (c : ascii) : ascii :=
  let n := N_of_ascii c in
  if ((65 <=? n) && (n <=? 90))%N then ascii_of_N (n + 32)
  else if ((97 <=? n) && (n <=? 122))%N then ascii_of_N (n - 32)
  else c.

Fixpoint case_variant (a b : string) : bool :=
  match a, b with
  | EmptyString, EmptyString => true
  | String x a', String y b' =>
      (bool_decide (y = x) || bool_decide (y = flip_case x)) && case_variant a' b'
  | _, _ => false
  end.

(** The small letter of an ASCII capital, byte by byte. *)
Definition small (c : ascii) : ascii :=
  let n := N_of_ascii c in
  if ((65 <=? n) && (n <=? 90))%N then ascii_of_N (n + 32) else c.

Fixpoint smalls (s : string) : string :=
  match s with
  | EmptyString => EmptyString
  | String c s' => String (small c) (smalls s')
  end.

(** The code points: up to U+10FFFF, no surrogate. *)
Definition valid (n : N) : bool :=
  ((n <? 0x110000) && negb ((0xd800 <=? n) && (n <=? 0xdfff)))%N.

(** A list of items that is the decoding of its own encoding. *)
Fixpoint canon (l : list Str.item) : Prop :=
  match l with
  | [] => True
  | Str.Cp n :: l' => valid n = true ∧ canon l'
  | Str.Byte c :: l' => Str.push c l' = Str.Byte c :: l' ∧ canon l'
  end.

(** The code points a table of runs maps to. *)
Definition run_images (r : N * N * N * N) : list N :=
  let '(lo, hi, step, to) := r in
  (λ j, to + N.of_nat j * step)%N <$> seq 0 (S (N.to_nat ((hi - lo) / step))).

Definition images (runs : list (N * N * N * N)) : list N :=
  r ← runs; run_images r.

(** A code point that [str.lower] leaves alone wherever it stands. *)
Definition settled (m : N) : bool :=
  negb (m =? 0x3a3)%N && negb (m =? 0x130)%N &&
  bool_decide (Str.run_of m Str.lower_runs = None).

Definition settled_item (x : Str.item) : bool :=
  match x with Str.Cp m => valid m && settled m | Str.Byte _ => true end.

(** The string [str] writes for a path of plain names, and a record both
    of whose paths are such strings: what an organize run records. *)
Definition plain_str (t : string) : bool :=
  plain (Path t) && bool_decide (str (Path t) = t).

Definition plain_record (m : MoveRecord) : bool :=
  plain_str (mv_src m) && plain_str (mv_dst m).

(** The category the aggregator gives a file. *)
Definition category_of (ext_map : ExtMap) (f : path) : string :=
  find_category_by_ext ext_map (suffix f).

(** The size [stat] reads, nothing when it fails. *)
Definition size_read (s : FS) (f : path) : nat :=
  match fs.stat f s with
  | Returned _ st => st.1
  | Raised _ _ => 0
  end.

(** The digest under which the finder files a file: none when the file
    cannot be read (or the digest is falsy). *)
Definition digest_of (s : FS) (f : path) : option string :=
  match get_file_hash s f with
  | Some h => if bool_decide (h = EmptyString) then None else Some h
  | None => None
  end.

(** The listed files filed under digest [h], as the finder names them. *)
Definition group_of (s : FS) (files : list path) (h : string) : list string :=
  str <$> filter (λ f, digest_of s f = Some h) files.

(** What one round of an organize loop does to a listed regular file [f]
    when it returns: the record names [f] and a destination at which nothing
    existed, and every other entry is where it was. *)
Definition organize_step (body : path → py FS MoveRecord) : Prop :=
  ∀ f (s s' : FS) m,
    fs.is_file s f = true →
    body f s = Returned s' m →
    mv_src m = str f ∧
    ∃ dest, mv_dst m = str dest ∧
            (∀ g, is_Some (s !! g) → dest ≠ g) ∧
            (∀ g x, g ≠ f → s !! g = Some x → s' !! g = Some x).

(** The restores of [undo_last] over the records of a run, taken in the
    order given, by the words of the specification: a record marked dry is
    skipped; so is one whose destination no longer exists; otherwise the
    destination, a regular file, is moved to the unique path made from the
    source, at which nothing exists.  The code adds the last case: a move
    that raises ends the restores with that error. *)
Inductive restores : FS → list MoveRecord → outcome FS unit → Prop :=
  | restores_done s :
      restores s [] (Returned s tt)
  | restores_dry s m ms o :
      mv_dry m = true →
      restores s ms o →
      restores s (m :: ms) o
  | restores_gone s m ms o :
      mv_dry m = false →
      s !! Path (mv_dst m) = None →
      restores s ms o →
      restores s (m :: ms) o
  | restores_moved s s1 m ms o x :
      mv_dry m = false →
      s !! Path (mv_dst m) = Some (NFile x) →
      s !! make_unique_path s (Path (mv_src m)) = None →
      fs.shutil_move (Path (mv_dst m)) (make_unique_path s (Path (mv_src m))) s
        = Returned s1 tt →
      restores s1 ms o →
      restores s (m :: ms) o
  | restores_failed s s1 m ms e x :
      mv_dry m = false →
      s !! Path (mv_dst m) = Some (NFile x) →
      fs.shutil_move (Path (mv_dst m)) (make_unique_path s (Path (mv_src m))) s
        = Raised s1 e →
      restores s (m :: ms) (Raised s1 e).

(** The destinations a call proposes, when it returns. *)
Definition proposed (o : outcome FS (list MoveRecord)) : option (list string) :=
  match o with
  | Returned _ moves => Some (mv_dst <$> moves)
  | Raised _ _ => None
  end.

(** An outcome without its value. *)
Definition void {S A} (o : outcome S A) : outcome S unit :=
  match o with
  | Returned s _ => Returned s tt
  | Raised s e => Raised s e
  end.

(** The sum of the per-category counts. *)
Definition count_total (cnts : gmap string nat) : nat :=
  map_fold (λ _ c acc, c + acc) 0 cnts.

(** ** Configuration: [load_config] *)

(** [ext.startswith(".")] *)
Definition starts_with_dot (ext : string) : bool :=
  match ext with
  | String c _ => bool_decide (c = "."%char)
  | EmptyString => false
  end.

(** [ext.lower() if ext.startswith(".") else f".{ext.lower()}"] *)
Definition normalize_ext (ext : string) : string :=
  if starts_with_dot ext then Str.lower ext else "." +:+ Str.lower ext.

(** [for ext in v]: the items of a list, the characters of a string, the
    keys of a dictionary; nothing else can be iterated. *)
Definition iterate (v : json) : exn + list json :=
  match v with
  | JList l => inr l
  | JStr s => inr (pyval.chars s)
  | JObj kv => inr ((λ e, JStr e.1) <$> kv)
  | _ => inl TypeError
  end.

(** The list comprehension over the items: an item that is not a string
    has no [startswith]. *)
Fixpoint normalize_all (items : list json) : exn + list string :=
  match items with
  | [] => inr []
  | JStr ext :: items' =>
      match normalize_all items' with
      | inr exts => inr (normalize_ext ext :: exts)
      | inl e => inl e
      end
  | _ :: _ => inl AttributeError
  end.

(** [norm[k] = exts]: a key that is there keeps its place. *)
Fixpoint dict_set (k : string) (exts : list string) (norm : ExtMap) : ExtMap :=
  match norm with
  | [] => [(k, exts)]
  | (k', exts') :: norm' =>
      if decide (k' = k) then (k, exts) :: norm'
      else (k', exts') :: dict_set k exts norm'
  end.

(** The loop over [data.items()]. *)
Fixpoint normalize_entries (entries : list (string * json)) (norm : ExtMap)
    : exn + ExtMap :=
  match entries with
  | [] => inr norm
  | (k, v) :: entries' =>
      match iterate v with
      | inr items =>
          match normalize_all items with
          | inr exts => normalize_entries entries' (dict_set k exts norm)
          | inl e => inl e
          end
      | inl e => inl e
      end
  end.

(** The body of the [try]: what [json.load] gave must have [items()]. *)
Definition normalize_config (data : json) : exn + ExtMap :=
  match data with
  | JObj entries => normalize_entries entries []
  | _ => inl AttributeError
  end.

(** [load_config] on the state of [config.json]: the map, and whether the
    warning box was shown.  Every exception of the [try] ends in the
    defaults; the test [exists()] stands before the [try]. *)
Definition load_config (config : artifact) : exn + ExtMap * bool :=
  match config with
  | Absent => inr (DEFAULT_EXT_MAP, false)
  | Unreadable => inr (DEFAULT_EXT_MAP, true)
  | Garbled => inr (DEFAULT_EXT_MAP, true)
  | Doc data =>
      match normalize_config data with
      | inr norm => inr (norm, false)
      | inl _ => inr (DEFAULT_EXT_MAP, true)
      end
  | Denied => inl PermissionError
  end.

(** A configuration of the documented shape, as JSON. *)
Definition config_json (cfg : ExtMap) : json :=
  JObj ((λ ce, (ce.1, JList (JStr <$> ce.2))) <$> cfg).

(** An extension as the program wants it: dotted and in lower case. *)
Definition normal_ext (e : string) : Prop :=
  starts_with_dot e = true ∧ Str.lower e = e.

(** A map all of whose extensions are dotted and in lower case. *)
Definition normal_map (m : ExtMap) : Prop :=
  Forall (λ ce, Forall normal_ext ce.2) m.

(** ** SHA-256 (FIPS 180-4) *)

Module sha256.

Local Open Scope Z_scope.

Definition w32 (x : Z) : Z := x mod 2 ^ 32.

(** The largest [r] below [2 ^ 40] with [r ^ k <= n], bit by bit. *)
Definition root (k n : Z) : Z :=
  foldl (λ r i, if (r + 2 ^ Z.of_nat i) ^ k <=? n then r + 2 ^ Z.of_nat i else r)
        0 (reverse (seq 0 40)).

Definition is_prime (n : nat) : bool :=
  forallb (λ d, negb (n mod d =? 0)%nat) (seq 2 (n - 2)).

(** The round constants: the first thirty-two bits of the fractional parts
    of the cube roots of the first sixty-four primes. *)
Definition K : list Z :=
  Eval vm_compute in
    (λ p, w32 (root 3 (Z.of_nat p * 2 ^ 96))) <$> List.filter is_prime (seq 2 310).

Definition not32 (x : Z) : Z := Z.lxor x 0xffffffff.
Definition rotr32 (x n : Z) : Z :=
  w32 (Z.lor (Z.shiftr x n) (Z.shiftl x (32 - n))).

(** Big-endian bytes of a word, and back. *)
Fixpoint be_bytes (n : nat) (x : Z) : list Z :=
  match n with
  | O => []
  | S n' => (x / 256 ^ Z.of_nat n') mod 256 :: be_bytes n' x
  end.

Definition be_word (bs : list Z) : Z := foldl (λ acc b, 256 * acc + b) 0 bs.

(** The message followed by 0x80, zeros up to 56 modulo 64, and its length
    in bits as a 64-bit big-endian word. *)
Definition pad (msg : list Z) : list Z :=
  let len := Z.of_nat (length msg) in
  let zeros := Z.to_nat ((55 - len) mod 64) in
  msg ++ [0x80] ++ replicate zeros 0 ++ be_bytes 8 ((8 * len) mod 2 ^ 64).

(** The sixteen words of each 64-byte block. *)
Fixpoint blocks (n : nat) (bs : list Z) : list (list Z) :=
  match n with
  | O => []
  | S n' =>
      ((λ i, be_word (take 4 (drop (4 * i) bs))) <$> seq 0 16)
        :: blocks n' (drop 64 bs)
  end.

Definition ssig0 (x : Z) : Z :=
  Z.lxor (Z.lxor (rotr32 x 7) (rotr32 x 18)) (Z.shiftr x 3).
Definition ssig1 (x : Z) : Z :=
  Z.lxor (Z.lxor (rotr32 x 17) (rotr32 x 19)) (Z.shiftr x 10).
Definition bsig0 (x : Z) : Z :=
  Z.lxor (Z.lxor (rotr32 x 2) (rotr32 x 13)) (rotr32 x 22).
Definition bsig1 (x : Z) : Z :=
  Z.lxor (Z.lxor (rotr32 x 6) (rotr32 x 11)) (rotr32 x 25).
Definition ch (x y z : Z) : Z := Z.lxor (Z.land x y) (Z.land (not32 x) z).
Definition maj (x y z : Z) : Z :=
  Z.lxor (Z.lxor (Z.land x y) (Z.land x z)) (Z.land y z).

(** The message schedule: the sixteen words of the block, extended to
    sixty-four. *)
Definition extend (W : list Z) (t : nat) : list Z :=
  W ++ [ w32 (ssig1 (nth (t - 2) W 0) + nth (t - 7) W 0
              + ssig0 (nth (t - 15) W 0) + nth (t - 16) W 0) ].

Definition schedule (M : list Z) : list Z := foldl extend M (seq 16 48).

Definition state : Type := Z * Z * Z * Z * Z * Z * Z * Z.

Definition round (W : list Z) (st : state) (t : nat) : state :=
  let '(a, b, c, d, e, f, g, h) := st in
  let T1 := h + bsig1 e + ch e f g + nth t K 0 + nth t W 0 in
  let T2 := bsig0 a + maj a b c in
  (w32 (T1 + T2), a, b, c, w32 (d + T1), e, f, g).

Definition compress (st : state) (M : list Z) : state :=
  let '(a0, b0, c0, d0, e0, f0, g0, h0) := st in
  let '(a, b, c, d, e, f, g, h) := foldl (round (schedule M)) st (seq 0 64) in
  (w32 (a0 + a), w32 (b0 + b), w32 (c0 + c), w32 (d0 + d),
   w32 (e0 + e), w32 (f0 + f), w32 (g0 + g), w32 (h0 + h)).

Definition init : state :=
  (0x6a09e667, 0xbb67ae85, 0x3c6ef372, 0xa54ff53a,
   0x510e527f, 0x9b05688c, 0x1f83d9ab, 0x5be0cd19).

Definition digest (msg : list Z) : list Z :=
  let p := pad msg in
  let '(a, b, c, d, e, f, g, h) :=
    foldl compress init (blocks (length p / 64) p) in
  be_bytes 4 a ++ be_bytes 4 b ++ be_bytes 4 c ++ be_bytes 4 d ++
  be_bytes 4 e ++ be_bytes 4 f ++ be_bytes 4 g ++ be_bytes 4 h.

(** [hashlib.sha256(data).hexdigest()] *)
Definition hexdigest (data : string) : string :=
  md5.hex (digest (md5.bytes_of data)).

End sha256.

(** ** Integrity checker: [OrganizerGUI.verify_file_integrity] *)

Module integrity.

(** The message box shown at the end. *)
Inductive verdict : Type :=
  | Unchanged   (* "File is unchanged and secure." *)
  | Modified    (* "File has been modified or tampered!" *)
  | Baseline.   (* "File added as trusted baseline for future checks." *)

(** The exceptions that escape the method (it has no handler), by class:
    a failed [open], a hash file that is not JSON, and a JSON value that is
    not a dictionary asked for the key. *)
Inductive error : Type := OSError | JSONDecodeError | TypeError.

(** The file system holding the files to verify, and [file_hashes.json]
    (which lives in the working directory and is taken not to be one of the
    files verified). *)
Record Vault : Type := {
  v_fs : FS;
  v_hashes : artifact;
}.

(** [f.read(4096)] *)
Definition chunk_size : nat := 2 ^ 12.

(** What the hasher was fed when the loop of the inner [get_file_hash]
    ends. *)
Definition fed_chunks (data : string) : string :=
  foldl (λ acc chunk, acc +:+ chunk) EmptyString
        (read_blocks (S (String.length data)) chunk_size data).

(** The inner [get_file_hash]: [open] raises on what is not a readable
    regular file. *)
Definition get_file_hash (s : FS) (p : path) : error + string :=
  match s !! p with
  | Some (NFile f) =>
      if f_readable f then inr (sha256.hexdigest (fed_chunks (f_data f)))
      else inl OSError
  | _ => inl OSError
  end.

(** [json.load] of the hash file when it exists, [{}] otherwise. *)
Definition load_hashes (a : artifact) : error + json :=
  match a with
  | Absent => inr (JObj [])
  | Unreadable => inl OSError
  | Garbled => inl JSONDecodeError
  | Doc j => inr j
  | Denied => inl OSError
  end.

(** [hashes[file_key] == current_hash] *)
Definition equals_str (j : json) (h : string) : bool :=
  match j with
  | JStr x => bool_decide (x = h)
  | _ => false
  end.

(** The method, given what the file dialog returned: nothing when it was
    cancelled, the absolute path of the file chosen otherwise.  On a list or
    a string both branches of [if file_key in hashes] end in a [TypeError]
    (indexing, or assigning, with a string key); on a number, a truth value
    or [null] the test itself does. *)
Definition verify_file_integrity (selection : option path) (v : Vault)
    : Vault * (error + option verdict) :=
  match selection with
  | None => (v, inr None)
  | Some file_path =>
      match load_hashes (v_hashes v) with
      | inl e => (v, inl e)
      | inr hashes =>
          match get_file_hash (v_fs v) file_path with
          | inl e => (v, inl e)
          | inr current_hash =>
              let file_key := str file_path in
              match hashes with
              | JObj kv =>
                  match pyval.assoc file_key kv with
                  | Some recorded =>
                      if equals_str recorded current_hash
                      then (v, inr (Some Unchanged))
                      else (v, inr (Some Modified))
                  | None =>
                      ({| v_fs := v_fs v;
                          v_hashes := Doc (JObj (kv ++ [(file_key, JStr current_hash)])) |},
                       inr (Some Baseline))
                  end
              | _ => (v, inl TypeError)
              end
          end
      end
  end.

End integrity.

(** ** Notions for the round trip of a run and its undo *)

(** The directory name a run files [f] under: its category, or the year and
    month of its modification time. *)
Definition folder_of (m : mode) (ext_map : ExtMap) (f : path) (x : file) : string :=
  match m with
  | by_type => find_category_by_ext ext_map (Str.lower (suffix f))
  | by_date => pretty (f_mtime x).1 +:+ "-" +:+ Str.pad2 (f_mtime x).2
  end.

(** [u] is [s] with more directories, none of them at a path of [F]. *)
Definition dirs_added (F : list path) (u s : FS) : Prop :=
  (∀ g y, s !! g = Some y → u !! g = Some y) ∧
  (∀ g y, u !! g = Some y → s !! g = Some y ∨ (y = NDir ∧ g ∉ F)).

(** ** Sample data *)

Module sample.

Definition jpg (data : string) : node := NFile (plain_file data (2024, 3)).

(** [/t] holding [a.jpg], [a_1.jpg] and [a_2.jpg]. *)
Definition numbered : FS :=
  list_to_map [ (["t"], NDir); (["t"; "a.jpg"], jpg "x");
                (["t"; "a_1.jpg"], jpg "y"); (["t"; "a_2.jpg"], jpg "z") ].

(** [/t] holding one file of three bytes. *)
Definition three_bytes : FS :=
  list_to_map [ (["t"], NDir); (["t"; "b.txt"], jpg "abc") ].

(** Two different blocks of 128 bytes with the same MD5 digest (Wang and
    Yu, 2005). *)
Definition block_a : string := md5.unhex
  ("d131dd02c5e6eec4693d9a0698aff95c2fcab58712467eab4004583eb8fb7f89" +:+
   "55ad340609f4b30283e488832571415a085125e8f7cdc99fd91dbdf280373c5b" +:+
   "d8823e3156348f5bae6dacd436c919c6dd53e2b487da03fd02396306d248cda0" +:+
   "e99f33420f577ee8ce54b67080a80d1ec69821bcb6a8839396f9652b6ff72a70").

Definition block_b : string := md5.unhex
  ("d131dd02c5e6eec4693d9a0698aff95c2fcab50712467eab4004583eb8fb7f89" +:+
   "55ad340609f4b30283e4888325f1415a085125e8f7cdc99fd91dbd7280373c5b" +:+
   "d8823e3156348f5bae6dacd436c919c6dd53e23487da03fd02396306d248cda0" +:+
   "e99f33420f577ee8ce54b67080280d1ec69821bcb6a8839396f965ab6ff72a70").

(** [/t] holding [a.bin] and [c.bin] with the bytes [block_a], and [b.bin]
    with the bytes [block_b]. *)
Definition colliding : FS :=
  list_to_map [ (["t"], NDir); (["t"; "a.bin"], jpg block_a);
                (["t"; "b.bin"], jpg block_b); (["t"; "c.bin"], jpg block_a) ].

(** [/t] holding [a.txt] and [b.txt] with the same bytes and [c.txt] with
    other bytes. *)
Definition triple : FS :=
  list_to_map [ (["t"], NDir); (["t"; "a.txt"], jpg "same");
                (["t"; "b.txt"], jpg "same"); (["t"; "c.txt"], jpg "other") ].

Definition locked (data : string) : node :=
  NFile (File data (2024, 3) true false true).

(** [/t] holding [b.txt], which cannot be moved, and [a.jpg]; [b.txt] is
    listed first. *)
Definition one_locked : FS :=
  list_to_map [ (["t"], NDir); (["t"; "a.jpg"], jpg "x");
                (["t"; "b.txt"], locked "y") ].

(** [/t] holding [a.jpg] alone, not organized yet. *)
Definition fresh : FS :=
  list_to_map [ (["t"], NDir); (["t"; "a.jpg"], jpg "x") ].

(** [/t/sub/a.jpg] and [/t/b.jpg], and the world after a recursive run by
    type on them. *)
Definition nested : FS :=
  list_to_map [ (["t"], NDir); (["t"; "sub"], NDir);
                (["t"; "sub"; "a.jpg"], jpg "x"); (["t"; "b.jpg"], jpg "y") ].

Definition nested_files : list path := [["t"; "b.jpg"]; ["t"; "sub"; "a.jpg"]].

Definition nested_moves : list MoveRecord :=
  [ {| mv_src := "/t/b.jpg"; mv_dst := "/t/Images/b.jpg";
       mv_time := "now"; mv_dry := false |};
    {| mv_src := "/t/sub/a.jpg"; mv_dst := "/t/Images/a.jpg";
       mv_time := "now"; mv_dry := false |} ].

Definition organized : World :=
  (run_organize "now" ["t"] DEFAULT_EXT_MAP by_type false true
     {| w_fs := nested; w_history := Absent; w_disk := Writes |}).1.

Definition moved_a : MoveRecord :=
  {| mv_src := "/t/sub/a.jpg"; mv_dst := "/t/Images/a.jpg";
     mv_time := "now"; mv_dry := false |}.

(** The history says [/t/sub/a.jpg] went to [/t/Images/a.jpg], which is
    there, but the directory [/t/sub] has been removed since. *)
Definition orphaned : World :=
  {| w_fs := list_to_map [ (["t"], NDir); (["t"; "Images"], NDir);
                           (["t"; "Images"; "a.jpg"], jpg "x") ];
     w_history := Doc (JList [run_json "now" ["t"] [moved_a]]);
     w_disk := Writes |}.

(** The same history, but [/t/Images/a.jpg] is no longer there. *)
Definition stale : World :=
  {| w_fs := list_to_map [ (["t"], NDir); (["t"; "sub"], NDir);
                           (["t"; "Images"], NDir) ];
     w_history := Doc (JList [run_json "now" ["t"] [moved_a]]);
     w_disk := Writes |}.

(** A history file that holds a JSON object, not a list of runs. *)
Definition misshapen : artifact := Doc (JObj [("runs", JList [])]).

(** [one_locked] once the directory for [b.txt] is made and the copy of
    [b.txt], which cannot be unlinked, is left there. *)
Definition locked_after : FS :=
  <[["t"; "Documents"; "b.txt"] := jpg "y"]>
    (final_state (fs.mkdir ["t"; "Documents"] one_locked)).

End sample.

(** * Properties *)

(** ** Classifier *)

(** [Str.lower] is idempotent: the bytes of a string are those of its
    code points, lowering keeps that so, and no code point [Str.lower] gives
    is changed by it again. *)

Section utf8.

Import Str.

Lemma N_of_ascii_bound (c : ascii) : (N_of_ascii c < 256)%N.
Proof. apply N_ascii_bounded. Qed.

Lemma byte_of_ascii (c : ascii) : byte (N_of_ascii c) = String c EmptyString.
Proof. unfold byte. by rewrite ascii_N_embedding. Qed.

Lemma tail_bits_Some (c : ascii) (b : N) :
  tail_bits c = Some b → (b < 64 ∧ N_of_ascii c = 0x80 + b)%N.
Proof.
  unfold tail_bits. destruct (_ && _) eqn:H; [|done]. intros [= <-].
  apply andb_true_iff in H as [H1%N.leb_le H2%N.leb_le]. lia.
Qed.

Lemma div64 (a b : N) : (b < 64 → (a * 64 + b) / 64 = a)%N.
Proof. intros Hb. rewrite N.div_add_l, N.div_small by lia. lia. Qed.

Lemma mod64 (a b : N) : (b < 64 → (a * 64 + b) mod 64 = b)%N.
Proof. intros Hb. rewrite N.add_comm, N.Div0.mod_add, N.mod_small by lia. lia. Qed.

Lemma encode_push (c : ascii) (rest : list item) :
  encode (push c rest) = String c (encode rest).
Proof.
  unfold push. pose proof (N_of_ascii_bound c) as Hc.
  set (n := N_of_ascii c) in *.
  destruct (N.ltb_spec n 0x80).
  { cbn [encode encode_item]. unfold encode_cp.
    destruct (N.ltb_spec n 0x80); [|lia]. subst n. by rewrite byte_of_ascii. }
  destruct (N.ltb_spec n 0xc0); [done|].
  destruct (N.ltb_spec n 0xe0).
  { cbn [tails]. destruct rest as [|[m|t] rest]; try done.
    destruct (tail_bits t) as [b|] eqn:Ht; [|done].
    apply tail_bits_Some in Ht as [Hb Ht].
    destruct (scalar 1 _) eqn:Hs; [|done]. cbn [scalar] in Hs. apply N.leb_le in Hs.
    cbn [encode encode_item]. unfold encode_cp.
    destruct (N.ltb_spec ((n - 192) * 64 + b) 0x80); [lia|].
    destruct (N.ltb_spec ((n - 192) * 64 + b) 0x800); [|lia].
    rewrite div64, mod64 by done.
    replace (192 + (n - 192))%N with n by lia. rewrite <-Ht.
    subst n. by rewrite !byte_of_ascii. }
  destruct (N.ltb_spec n 0xf0).
  { cbn [tails]. destruct rest as [|[m|t1] [|[m2|t2] rest]]; try done;
      try (by destruct (tail_bits t1)).
    destruct (tail_bits t1) as [b1|] eqn:Ht1; [|done].
    destruct (tail_bits t2) as [b2|] eqn:Ht2; [|done].
    apply tail_bits_Some in Ht1 as [Hb1 Ht1]. apply tail_bits_Some in Ht2 as [Hb2 Ht2].
    destruct (scalar 2 _) eqn:Hs; [|done]. cbn [scalar] in Hs.
    apply andb_true_iff in Hs as [Hs%N.leb_le _].
    cbn [encode encode_item]. unfold encode_cp.
    set (v := (((n - 224) * 64 + b1) * 64 + b2)%N) in *.
    destruct (N.ltb_spec v 0x80); [lia|].
    destruct (N.ltb_spec v 0x800); [lia|].
    destruct (N.ltb_spec v 0x10000); [|lia].
    assert (v / 64 = (n - 224) * 64 + b1)%N as Hv1.
    { unfold v. by rewrite div64. }
    assert (v mod 64 = b2)%N as Hv0.
    { unfold v. by rewrite mod64. }
    assert (v / 4096 = n - 224)%N as Hv2.
    { change 4096%N with (64 * 64)%N. by rewrite <-N.Div0.div_div, Hv1, div64. }
    rewrite Hv2, Hv1, Hv0, mod64 by done.
    replace (224 + (n - 224))%N with n by lia.
    rewrite <-Ht1, <-Ht2. subst n. by rewrite !byte_of_ascii. }
  destruct (N.ltb_spec n 0xf8); [|done].
  cbn [tails]. destruct rest as [|[m|t1] [|[m2|t2] [|[m3|t3] rest]]]; try done;
    try (by destruct (tail_bits t1)); try (by destruct (tail_bits t1), (tail_bits t2)).
  destruct (tail_bits t1) as [b1|] eqn:Ht1; [|done].
  destruct (tail_bits t2) as [b2|] eqn:Ht2; [|done].
  destruct (tail_bits t3) as [b3|] eqn:Ht3; [|done].
  apply tail_bits_Some in Ht1 as [Hb1 Ht1]. apply tail_bits_Some in Ht2 as [Hb2 Ht2].
  apply tail_bits_Some in Ht3 as [Hb3 Ht3].
  destruct (scalar 3 _) eqn:Hs; [|done]. cbn [scalar] in Hs.
  apply andb_true_iff in Hs as [Hs%N.leb_le _].
  cbn [encode encode_item]. unfold encode_cp.
  set (v := ((((n - 240) * 64 + b1) * 64 + b2) * 64 + b3)%N) in *.
  destruct (N.ltb_spec v 0x80); [lia|].
  destruct (N.ltb_spec v 0x800); [lia|].
  destruct (N.ltb_spec v 0x10000); [lia|].
  assert (v / 64 = ((n - 240) * 64 + b1) * 64 + b2)%N as Hv1.
  { unfold v. by rewrite div64. }
  assert (v mod 64 = b3)%N as Hv0.
  { unfold v. by rewrite mod64. }
  assert (v / 4096 = (n - 240) * 64 + b1)%N as Hv2.
  { change 4096%N with (64 * 64)%N. by rewrite <-N.Div0.div_div, Hv1, div64. }
  assert (v / 262144 = n - 240)%N as Hv3.
  { change 262144%N with (4096 * 64)%N. by rewrite <-N.Div0.div_div, Hv2, div64. }
  rewrite Hv3, Hv2, Hv1, Hv0, !mod64 by done.
  replace (240 + (n - 240))%N with n by lia.
  rewrite <-Ht1, <-Ht2, <-Ht3. subst n. by rewrite !byte_of_ascii.
Qed.

Lemma encode_decode (s : string) : encode (decode s) = s.
Proof.
  induction s as [|c s IH]; [done|]. cbn [decode]. by rewrite encode_push, IH.
Qed.

Lemma push_tail (m : N) (rest : list item) :
  (m < 64)%N → push (ascii_of_N (0x80 + m)) rest = Byte (ascii_of_N (0x80 + m)) :: rest.
Proof.
  intros Hm. unfold push. rewrite N_ascii_embedding by lia.
  destruct (N.ltb_spec (0x80 + m) 0x80); [lia|].
  by destruct (N.ltb_spec (0x80 + m) 0xc0); [|lia].
Qed.

Lemma tail_bits_tail (m : N) : (m < 64)%N → tail_bits (ascii_of_N (0x80 + m)) = Some m.
Proof.
  intros Hm. unfold tail_bits. rewrite N_ascii_embedding by lia.
  destruct (N.leb_spec 0x80 (0x80 + m)); [|lia].
  destruct (N.leb_spec (0x80 + m) 0xbf); [|lia]. cbn [andb]. f_equal. lia.
Qed.

Lemma string_app_cons (c : ascii) (a b : string) : String c a +:+ b = String c (a +:+ b).
Proof. done. Qed.

Lemma string_app_nil_l (a : string) : EmptyString +:+ a = a.
Proof. done. Qed.

Lemma decode_encode_cp (n : N) (s : string) :
  valid n = true → decode (encode_cp n +:+ s) = Cp n :: decode s.
Proof.
  unfold valid. intros [Hmax%N.ltb_lt Hsur]%andb_true_iff. unfold encode_cp, byte.
  replace (n / 262144)%N with (n / 64 / 64 / 64)%N by (by rewrite !N.Div0.div_div).
  replace (n / 4096)%N with (n / 64 / 64)%N by (by rewrite !N.Div0.div_div).
  pose proof (N.mod_lt n 64 ltac:(done)) as H0.
  pose proof (N.mod_lt (n / 64) 64 ltac:(done)) as H1.
  pose proof (N.mod_lt (n / 64 / 64) 64 ltac:(done)) as H2.
  pose proof (N.div_mod' n 64) as E0. pose proof (N.div_mod' (n / 64) 64) as E1.
  pose proof (N.div_mod' (n / 64 / 64) 64) as E2.
  set (r0 := (n mod 64)%N) in *. set (r1 := ((n / 64) mod 64)%N) in *.
  set (r2 := ((n / 64 / 64) mod 64)%N) in *.
  set (q2 := (n / 64 / 64 / 64)%N) in *. set (q1 := (n / 64 / 64)%N) in *.
  set (q0 := (n / 64)%N) in *. clearbody r0 r1 r2 q2 q1 q0.
  destruct (N.ltb_spec n 0x80).
  { repeat first [rewrite string_app_cons | rewrite string_app_nil_l]. cbn [decode]. unfold push.
    rewrite N_ascii_embedding by lia. by destruct (N.ltb_spec n 0x80); [|lia]. }
  destruct (N.ltb_spec n 0x800).
  { repeat first [rewrite string_app_cons | rewrite string_app_nil_l].
    cbn [decode]. rewrite push_tail by lia.
    unfold push. rewrite N_ascii_embedding by lia.
    destruct (N.ltb_spec (0xc0 + q0) 0x80); [lia|].
    destruct (N.ltb_spec (0xc0 + q0) 0xc0); [lia|].
    destruct (N.ltb_spec (0xc0 + q0) 0xe0); [|lia].
    cbn [tails]. rewrite tail_bits_tail by lia.
    replace ((192 + q0 - 192) * 64 + r0)%N with n by lia.
    cbn [scalar]. by destruct (N.leb_spec 0x80 n); [|lia]. }
  destruct (N.ltb_spec n 0x10000).
  { repeat first [rewrite string_app_cons | rewrite string_app_nil_l].
    cbn [decode]. rewrite !push_tail by lia.
    unfold push. rewrite N_ascii_embedding by lia.
    destruct (N.ltb_spec (0xe0 + q1) 0x80); [lia|].
    destruct (N.ltb_spec (0xe0 + q1) 0xc0); [lia|].
    destruct (N.ltb_spec (0xe0 + q1) 0xe0); [lia|].
    destruct (N.ltb_spec (0xe0 + q1) 0xf0); [|lia].
    cbn [tails]. rewrite !tail_bits_tail by lia.
    replace (((224 + q1 - 224) * 64 + r1) * 64 + r0)%N with n by lia.
    cbn [scalar]. destruct (N.leb_spec 0x800 n); [|lia]. by rewrite Hsur. }
  repeat first [rewrite string_app_cons | rewrite string_app_nil_l].
  cbn [decode]. rewrite !push_tail by lia.
  unfold push. rewrite N_ascii_embedding by lia.
  destruct (N.ltb_spec (0xf0 + q2) 0x80); [lia|].
  destruct (N.ltb_spec (0xf0 + q2) 0xc0); [lia|].
  destruct (N.ltb_spec (0xf0 + q2) 0xe0); [lia|].
  destruct (N.ltb_spec (0xf0 + q2) 0xf0); [lia|].
  destruct (N.ltb_spec (0xf0 + q2) 0xf8); [|lia].
  cbn [tails]. rewrite !tail_bits_tail by lia.
  replace ((((240 + q2 - 240) * 64 + r2) * 64 + r1) * 64 + r0)%N with n by lia.
  cbn [scalar]. destruct (N.leb_spec 0x10000 n); [|lia].
  by destruct (N.leb_spec n 0x10ffff); [|lia].
Qed.

Lemma tails_spec (k : nat) (acc : N) (l : list item) (v : N) (l' : list item) :
  tails k acc l = Some (v, l') →
  (v < (acc + 1) * 64 ^ N.of_nat k)%N ∧ (canon l → canon l').
Proof.
  revert acc l. induction k as [|k IH]; intros acc l; cbn [tails].
  - intros [= <- <-]. split; [|done]. cbn. lia.
  - destruct l as [|[n|c] l]; [done..|].
    destruct (tail_bits c) as [b|] eqn:Hb; [|done].
    apply tail_bits_Some in Hb as [Hb _].
    intros [Hv Hc]%IH. split.
    + rewrite Nat2N.inj_succ, N.pow_succ_r'.
      eapply N.lt_le_trans; [exact Hv|].
      rewrite N.mul_assoc. apply N.mul_le_mono_r. lia.
    + intros [_ Hl]. by apply Hc.
Qed.

Lemma push_shape (c : ascii) (rest : list item) :
  push c rest = Byte c :: rest ∨
  ∃ v rest', push c rest = Cp v :: rest' ∧ valid v = true ∧ (canon rest → canon rest').
Proof.
  unfold push. pose proof (N_of_ascii_bound c) as Hc.
  set (n := N_of_ascii c) in *.
  destruct (N.ltb_spec n 0x80).
  { right. exists n, rest. split_and!; [done| |done]. unfold valid.
    destruct (N.ltb_spec n 0x110000); [|lia].
    by destruct (N.leb_spec 0xd800 n); [lia|]. }
  destruct (N.ltb_spec n 0xc0); [by left|].
  destruct (N.ltb_spec n 0xe0).
  { destruct (tails 1 _ rest) as [[v rest']|] eqn:Ht; [|by left].
    destruct (scalar 1 v) eqn:Hs; [|by left].
    apply tails_spec in Ht as [Hv Hcanon]. right. exists v, rest'.
    split_and!; [done| |done]. unfold valid. change (64 ^ N.of_nat 1)%N with 64%N in Hv.
    destruct (N.ltb_spec v 0x110000); [|lia].
    by destruct (N.leb_spec 0xd800 v); [lia|]. }
  destruct (N.ltb_spec n 0xf0).
  { destruct (tails 2 _ rest) as [[v rest']|] eqn:Ht; [|by left].
    destruct (scalar 2 v) eqn:Hs; [|by left].
    apply tails_spec in Ht as [Hv Hcanon]. right. exists v, rest'.
    split_and!; [done| |done]. unfold valid. change (64 ^ N.of_nat 2)%N with 4096%N in Hv.
    cbn [scalar] in Hs. apply andb_true_iff in Hs as [_ ->].
    by destruct (N.ltb_spec v 0x110000); [|lia]. }
  destruct (N.ltb_spec n 0xf8); [|by left].
  destruct (tails 3 _ rest) as [[v rest']|] eqn:Ht; [|by left].
  destruct (scalar 3 v) eqn:Hs; [|by left].
  apply tails_spec in Ht as [Hv Hcanon]. right. exists v, rest'.
  split_and!; [done| |done]. unfold valid.
  cbn [scalar] in Hs. apply andb_true_iff in Hs as [Hlo%N.leb_le Hhi%N.leb_le].
  destruct (N.ltb_spec v 0x110000); [|lia].
  destruct (N.leb_spec 0xd800 v); [|lia].
  by destruct (N.leb_spec v 0xdfff); [lia|].
Qed.

Lemma push_canon (c : ascii) (rest : list item) : canon rest → canon (push c rest).
Proof.
  intros Hrest. destruct (push_shape c rest) as [E|(v & rest' & E & Hv & Hc)].
  - rewrite E. by split.
  - rewrite E. split; [done|]. by apply Hc.
Qed.

Lemma decode_canon (s : string) : canon (decode s).
Proof. induction s as [|c s IH]; [done|]. by apply push_canon. Qed.

Lemma decode_encode (l : list item) : canon l → decode (encode l) = l.
Proof.
  induction l as [|[n|c] l IH]; [done|..]; intros [Hx Hl]; cbn [encode encode_item].
  - by rewrite decode_encode_cp, IH.
  - rewrite string_app_cons, string_app_nil_l. cbn [decode]. by rewrite IH.
Qed.

(** The tables. *)
Lemma run_of_image (n m : N) (runs : list (N * N * N * N)) :
  run_of n runs = Some m → m ∈ images runs.
Proof.
  unfold images. induction runs as [|[[[lo hi] step] to] runs IH]; [done|].
  cbn [run_of]. destruct (N.ltb_spec n lo); [done|].
  rewrite bind_cons, elem_of_app.
  destruct (_ && _) eqn:Hin; [|intros Hm; right; by apply IH].
  intros [= <-]. left.
  apply andb_true_iff in Hin as [Hhi%N.leb_le Hstep%N.eqb_eq].
  unfold run_images. apply list_elem_of_fmap.
  exists (N.to_nat ((n - lo) / step)). split.
  - rewrite N2Nat.id. pose proof (N.div_mod' (n - lo) step) as E.
    rewrite Hstep, N.add_0_r in E. rewrite (N.mul_comm _ step). by rewrite <-E.
  - apply elem_of_seq.
    pose proof (N.Div0.div_le_mono (n - lo) (hi - lo) step ltac:(lia)) as Hle.
    set (q1 := ((n - lo) / step)%N) in *. set (q2 := ((hi - lo) / step)%N) in *.
    clearbody q1 q2. lia.
Qed.

Lemma images_settled :
  forallb (λ m, valid m && settled m) (images lower_runs) = true.
Proof. vm_compute. reflexivity. Qed.

Lemma run_of_settled (n m : N) :
  run_of n lower_runs = Some m → valid m && settled m = true.
Proof.
  intros Hm%run_of_image. pose proof images_settled as Hall.
  rewrite forallb_forall in Hall. apply Hall. by apply list_elem_of_In.
Qed.

Lemma lower_items_settled (b l : list item) :
  Forall (λ x, settled_item x = true) l → lower_items b l = l.
Proof.
  intros Hl. revert b. induction Hl as [|[m|c] l Hx _ IH]; intros b; [done|..];
    cbn [lower_items].
  - cbn [settled_item] in Hx. unfold settled in Hx.
    apply andb_true_iff in Hx as [_ [[H1 H2]%andb_true_iff H3%bool_decide_eq_true]%andb_true_iff].
    apply negb_true_iff in H1, H2. rewrite H1. unfold low. rewrite H2, H3.
    cbn [fmap list_fmap app]. by rewrite IH.
  - cbn [app]. by rewrite IH.
Qed.

Lemma low_settled (n : N) :
  valid n = true → (n =? 0x3a3)%N = false →
  Forall (λ x, settled_item x = true) (Cp <$> low n).
Proof.
  intros Hn Hs. unfold low. destruct (n =? 0x130)%N eqn:Hi.
  { by repeat constructor. }
  destruct (run_of n lower_runs) as [m|] eqn:Hrun.
  - repeat constructor. cbn [settled_item]. by apply run_of_settled in Hrun.
  - repeat constructor. cbn [settled_item]. unfold settled.
    by rewrite Hn, Hs, Hi, bool_decide_eq_true_2.
Qed.

Lemma settled_canon_app (ms : list item) (l : list item) :
  Forall (λ x, settled_item x = true) ms → (∀ x, x ∈ ms → ∃ m, x = Cp m) →
  canon l → canon (ms ++ l).
Proof.
  intros Hms Hcp Hl. induction Hms as [|x ms Hx _ IH]; [done|].
  destruct (Hcp x) as [m ->]; [by left|]. cbn [app canon].
  cbn [settled_item] in Hx. apply andb_true_iff in Hx as [Hv _].
  split; [done|]. apply IH. intros y Hy. apply Hcp. by right.
Qed.

Lemma tails_lower (k : nat) (acc : N) (b l : list item) :
  match tails k acc l with
  | Some (v, _) => ∃ r, tails k acc (lower_items b l) = Some (v, r)
  | None => tails k acc (lower_items b l) = None
  end.
Proof.
  revert acc b l. induction k as [|k IH]; intros acc b l; cbn [tails]; [by eexists|].
  destruct l as [|[n|c] l]; [done|..]; cbn [lower_items].
  - destruct (n =? 0x3a3)%N; [done|]. unfold low.
    destruct (n =? 0x130)%N; [done|]. by destruct (run_of n lower_runs).
  - cbn [app]. destruct (tail_bits c) as [t|]; [|done]. apply IH.
Qed.

Lemma push_byte_lower (c : ascii) (b l : list item) :
  push c l = Byte c :: l → push c (lower_items b l) = Byte c :: lower_items b l.
Proof.
  unfold push. destruct (N_of_ascii c <? 0x80)%N; [done|].
  destruct (if (N_of_ascii c <? 0xc0)%N then _ else _) as [k bits].
  pose proof (tails_lower k bits b l) as Ht.
  destruct (tails k bits l) as [[v r]|].
  - destruct Ht as [r' ->]. by destruct (scalar k v).
  - by rewrite Ht.
Qed.

Lemma lower_items_canon (b l : list item) :
  canon l → canon (lower_items b l) ∧ Forall (λ x, settled_item x = true) (lower_items b l).
Proof.
  revert b. induction l as [|[n|c] l IH]; intros b; [done|..]; intros [Hx Hl];
    cbn [lower_items].
  - destruct (IH (Cp n :: b) Hl) as [Hc Hs]. destruct (n =? 0x3a3)%N eqn:Hsig.
    + split; [by destruct (final_sigma b l)|].
      constructor; [by destruct (final_sigma b l)|done].
    + pose proof (low_settled n Hx Hsig) as Hlow. split.
      * apply settled_canon_app; [done| |done].
        intros x (m & -> & _)%list_elem_of_fmap. by exists m.
      * by apply Forall_app.
  - destruct (IH (Byte c :: b) Hl) as [Hc Hs].
    cbn [app]. split; [|by constructor]. split; [|done]. by apply push_byte_lower.
Qed.

Lemma decode_lower (s : string) :
  decode (lower s) = lower_items [] (decode s) ∧
  Forall (λ x, settled_item x = true) (decode (lower s)).
Proof.
  unfold lower.
  destruct (lower_items_canon [] (decode s) (decode_canon s)) as [Hc Hs].
  by rewrite decode_encode.
Qed.

Lemma lower_idemp (s : string) : lower (lower s) = lower s.
Proof.
  destruct (decode_lower s) as [Hd Hs].
  unfold lower at 1. rewrite (lower_items_settled _ _ Hs). apply encode_decode.
Qed.

Lemma lower_dot (s : string) : lower ("." +:+ lower s) = "." +:+ lower s.
Proof.
  destruct (decode_lower s) as [Hd Hs].
  unfold lower at 1. rewrite string_app_cons, string_app_nil_l. cbn [decode].
  change (push "." (decode (lower s))) with (Cp 46 :: decode (lower s)).
  cbn [lower_items]. change (46 =? 931)%N with false.
  change (low 46) with [46%N]. cbn [fmap list_fmap app].
  rewrite (lower_items_settled _ _ Hs). cbn [encode encode_item].
  by rewrite encode_decode.
Qed.

End utf8.

Section classifier.

(** On ASCII text [str.lower] is the lowering of the letters A to Z, byte
    by byte. *)
Lemma low_small (c : ascii) :
  (N_of_ascii c <? 0x80)%N = true →
  (N_of_ascii c =? 0x3a3)%N = false ∧
  Str.low (N_of_ascii c) = [N_of_ascii (small c)] ∧
  Str.encode_cp (N_of_ascii (small c)) = String (small c) EmptyString.
Proof.
  destruct c as [[] [] [] [] [] [] [] []]; intros Hc;
    try (by vm_compute in Hc); by vm_compute.
Qed.

Lemma lower_items_ascii (before : list Str.item) (s : string) :
  Str.is_ascii s = true →
  Str.encode (Str.lower_items before (Str.decode s)) = smalls s.
Proof.
  revert before. induction s as [|c s IH]; intros before; [done|].
  cbn [Str.is_ascii]. intros [Hc Hs]%andb_true_iff.
  destruct (low_small c Hc) as (Hsigma & Hlow & Henc).
  cbn [Str.decode]. unfold Str.push. rewrite Hc.
  cbn [Str.lower_items]. rewrite Hsigma, Hlow.
  cbn [fmap list_fmap app Str.encode Str.encode_item smalls].
  by rewrite Henc, IH.
Qed.

Lemma lower_of_ascii (s : string) : Str.is_ascii s = true → Str.lower s = smalls s.
Proof. apply lower_items_ascii. Qed.

Lemma case_variant_small (x y : ascii) :
  y = x ∨ y = flip_case x → small y = small x.
Proof.
  intros [->| ->]; [done|].
  destruct x as [[] [] [] [] [] [] [] []]; reflexivity.
Qed.

Lemma flip_case_ascii (x : ascii) :
  (N_of_ascii x <? 0x80)%N = true → (N_of_ascii (flip_case x) <? 0x80)%N = true.
Proof.
  destruct x as [[] [] [] [] [] [] [] []]; intros Hx;
    try (by vm_compute in Hx); by vm_compute.
Qed.

(** Two spellings that differ in the case of ASCII letters only are both
    ASCII when one is, and have the same small letters. *)
Lemma case_variant_smalls (a b : string) :
  Str.is_ascii a = true → case_variant a b = true →
  Str.is_ascii b = true ∧ smalls b = smalls a.
Proof.
  revert b. induction a as [|x a IH]; intros [|y b]; try done.
  cbn [Str.is_ascii case_variant smalls].
  intros [Hx Ha]%andb_true_iff [Hxy Hab]%andb_true_iff.
  destruct (IH b Ha Hab) as [Hb Hsmalls].
  apply orb_true_iff in Hxy as [Hxy%bool_decide_eq_true|Hxy%bool_decide_eq_true].
  - subst y. by rewrite Hx, Hb, Hsmalls.
  - subst y. rewrite (flip_case_ascii x Hx), Hb, Hsmalls.
    by rewrite (case_variant_small x (flip_case x)) by by right.
Qed.

Lemma first_category_skip pre rest ext :
  Forall (λ ce, ¬ lists ext ce) pre →
  first_category (pre ++ rest) ext = first_category rest ext.
Proof.
  induction 1 as [|[cat exts] pre Hno _ IH]; simpl; [done|].
  rewrite bool_decide_eq_false_2; done.
Qed.

Lemma first_category_split ext_map ext :
  Exists (lists ext) ext_map →
  ∃ pre cat exts post,
    ext_map = pre ++ (cat, exts) :: post ∧ ext ∈ exts ∧
    Forall (λ ce, ¬ lists ext ce) pre.
Proof.
  induction ext_map as [|[cat exts] rest IH]; intros Hex.
  - by apply Exists_nil in Hex.
  - destruct (decide (ext ∈ exts)) as [Hin|Hnin].
    + by exists [], cat, exts, rest.
    + apply Exists_cons in Hex as [Hin|Hex]; [done|].
      destruct (IH Hex) as (pre & c & es & post & -> & ? & ?).
      exists ((cat, exts) :: pre), c, es, post. split_and!; [done..|].
      by constructor.
Qed.

End classifier.

(** C6, as the code has it.  [find_category_by_ext] lowers the extension
    and returns the first category, in the order of the map, whose list
    holds it: every category before the returned one does not list it.  When
    no category lists it the result is "Others".  Two extensions with the
    same lower-case form get the same category; so do two spellings of an
    ASCII extension that differ only in the case of their letters. *)
Theorem find_category_by_ext_spec (ext_map : ExtMap) (ext : string) :
  (Exists (lists (Str.lower ext)) ext_map →
     ∃ pre cat exts post,
       ext_map = pre ++ (cat, exts) :: post ∧
       Str.lower ext ∈ exts ∧
       Forall (λ ce, ¬ lists (Str.lower ext) ce) pre ∧
       find_category_by_ext ext_map ext = cat) ∧
  (¬ Exists (lists (Str.lower ext)) ext_map →
     find_category_by_ext ext_map ext = "Others") ∧
  (∀ ext', Str.lower ext' = Str.lower ext →
     find_category_by_ext ext_map ext' = find_category_by_ext ext_map ext) ∧
  (∀ ext', Str.is_ascii ext = true → case_variant ext ext' = true →
     find_category_by_ext ext_map ext' = find_category_by_ext ext_map ext).
Proof.
  unfold find_category_by_ext. split_and!.
  - intros Hex. destruct (first_category_split _ _ Hex) as (pre & cat & exts & post & -> & Hin & Hpre).
    exists pre, cat, exts, post. split_and!; [done..|].
    rewrite first_category_skip by done. simpl.
    by rewrite bool_decide_eq_true_2.
  - intros Hno. apply not_Exists_Forall in Hno; [|intros ?; apply _].
    rewrite <-(app_nil_r ext_map). by rewrite first_category_skip.
  - by intros ext' ->.
  - intros ext' Hascii Hvariant.
    destruct (case_variant_smalls ext ext' Hascii Hvariant) as [Hascii' Hsmalls].
    by rewrite !lower_of_ascii, Hsmalls.
Qed.

(** C6, as stated, fails beyond ASCII: [.ΑΣ] is [.ασ] in capitals, letter
    by letter, but Python lowers a capital sigma that ends a word to the
    final form of the letter, so the lower-case form of [.ΑΣ] is [.ας], which
    the category that lists [.ασ] does not hold. *)
Lemma find_category_by_ext_final_sigma :
  find_category_by_ext [("Greek", [".ασ"])] ".ασ" = "Greek" ∧
  find_category_by_ext [("Greek", [".ασ"])] ".ΑΣ" = "Others" ∧
  Str.lower ".ΑΣ" = ".ας" ∧
  Str.lower "Α" = "α" ∧
  Str.lower "Σ" = "σ".
Proof. vm_compute. done. Qed.

Example find_category_by_ext_default :
  find_category_by_ext DEFAULT_EXT_MAP ".JPG" = "Images" ∧
  find_category_by_ext DEFAULT_EXT_MAP ".Txt" = "Documents" ∧
  find_category_by_ext DEFAULT_EXT_MAP ".unknownext" = "Others" ∧
  find_category_by_ext [("A", [".x"]); ("B", [".x"; ".y"])] ".X" = "A" ∧
  find_category_by_ext [("Fr", [".é"])] ".É" = "Fr".
Proof. by vm_compute. Qed.

(** ** Path allocator *)

Section allocator.

Lemma string_app_length a b :
  String.length (a +:+ b) = String.length a + String.length b.
Proof. induction a as [|c a IH]; simpl; [done|]. by rewrite IH. Qed.

Lemma string_app_inv_tail a b s : a +:+ s = b +:+ s → a = b.
Proof.
  revert b. induction a as [|c a IH]; intros [|d b] Heq; [done| | |].
  - apply (f_equal String.length) in Heq.
    rewrite !string_app_length in Heq. simpl in Heq. lia.
  - apply (f_equal String.length) in Heq.
    rewrite !string_app_length in Heq. simpl in Heq. lia.
  - injection Heq as -> Heq. f_equal. by apply IH.
Qed.

Lemma candidate_inj dest i j : candidate dest i = candidate dest j → i = j.
Proof.
  unfold candidate, joinpath. intros Heq.
  apply app_inj_tail in Heq as [_ Heq].
  apply String.app_inj in Heq. apply (String.app_inj "_") in Heq.
  apply string_app_inv_tail in Heq. by apply (inj pretty) in Heq.
Qed.

Lemma exists_true (s : FS) p : fs.exists_ s p = true ↔ is_Some (s !! p).
Proof. unfold fs.exists_. apply bool_decide_eq_true. Qed.

Lemma exists_false (s : FS) p : fs.exists_ s p = false ↔ s !! p = None.
Proof.
  unfold fs.exists_. rewrite bool_decide_eq_false. symmetry. apply eq_None_not_Some.
Qed.

(** What the loop returns is the first free candidate from [counter] on. *)
Lemma unique_loop_Some s dest fuel counter r :
  unique_loop s dest fuel counter = Some r →
  ∃ k, counter ≤ k < counter + fuel ∧ r = candidate dest k ∧ s !! r = None ∧
       ∀ j, counter ≤ j < k → is_Some (s !! candidate dest j).
Proof.
  revert counter. induction fuel as [|fuel IH]; intros counter; simpl; [done|].
  destruct (fs.exists_ s (candidate dest counter)) eqn:Hex.
  - intros Hr. destruct (IH _ Hr) as (k & Hk & -> & Hfree & Hbusy).
    exists k. split_and!; [lia..|done|done|].
    intros j Hj. destruct (decide (j = counter)) as [->|].
    + by apply exists_true.
    + apply Hbusy. lia.
  - intros [= <-]. exists counter. split_and!; [lia..|done| |].
    + by apply exists_false.
    + intros j Hj. lia.
Qed.

Lemma unique_loop_None s dest fuel counter :
  unique_loop s dest fuel counter = None →
  ∀ j, counter ≤ j < counter + fuel → is_Some (s !! candidate dest j).
Proof.
  revert counter. induction fuel as [|fuel IH]; intros counter; simpl.
  - intros _ j Hj. lia.
  - destruct (fs.exists_ s (candidate dest counter)) eqn:Hex; [|done].
    intros Hr j Hj. destruct (decide (j = counter)) as [->|].
    + by apply exists_true.
    + apply (IH _ Hr). lia.
Qed.

(** No more candidates can exist than the file system has entries. *)
Lemma busy_candidates_bound (s : FS) dest counter n :
  (∀ j, counter ≤ j < counter + n → is_Some (s !! candidate dest j)) →
  n ≤ size s.
Proof.
  intros Hbusy.
  assert (candidate dest <$> seq counter n ⊆+ (map_to_list s).*1) as Hsub.
  { apply NoDup_submseteq.
    - apply NoDup_fmap_2_strong; [|apply NoDup_seq].
      intros i j _ _. apply candidate_inj.
    - intros p (j & -> & Hj%elem_of_seq)%list_elem_of_fmap.
      destruct (Hbusy j) as [n' Hn']; [lia|].
      apply list_elem_of_fmap. exists (candidate dest j, n').
      split; [done|]. by apply elem_of_map_to_list. }
  apply submseteq_length in Hsub.
  rewrite !length_fmap, length_seq, length_map_to_list in Hsub. done.
Qed.

Lemma unique_loop_total s dest :
  is_Some (unique_loop s dest (S (size s)) 1).
Proof.
  destruct (unique_loop s dest (S (size s)) 1) eqn:Hloop; [done|].
  pose proof (busy_candidates_bound s dest 1 (S (size s))
                (unique_loop_None _ _ _ _ Hloop)). lia.
Qed.

(** With candidates [counter .. k-1] taken and [k] free, enough rounds
    return candidate [k]. *)
Lemma unique_loop_first s dest fuel counter k :
  counter ≤ k < counter + fuel →
  (∀ j, counter ≤ j < k → is_Some (s !! candidate dest j)) →
  s !! candidate dest k = None →
  unique_loop s dest fuel counter = Some (candidate dest k).
Proof.
  revert counter. induction fuel as [|fuel IH]; intros counter Hk Hbusy Hfree; [lia|].
  simpl. destruct (decide (counter = k)) as [->|Hne].
  - apply exists_false in Hfree. by rewrite Hfree.
  - assert (fs.exists_ s (candidate dest counter) = true) as ->.
    { apply exists_true, Hbusy. lia. }
    apply IH; [lia| |done]. intros j Hj. apply Hbusy. lia.
Qed.

(** The allocated path is never one that exists. *)
Lemma make_unique_path_fresh s dest : s !! make_unique_path s dest = None.
Proof.
  unfold make_unique_path.
  destruct (fs.exists_ s dest) eqn:Hex; cbn [negb].
  - destruct (unique_loop_total s dest) as [r Hr]. rewrite Hr. simpl.
    by destruct (unique_loop_Some _ _ _ _ _ Hr) as (k & _ & _ & Hfree & _).
  - by apply exists_false.
Qed.

(** It is the wanted path or one of its numbered variants. *)
Lemma make_unique_path_cases s dest :
  (s !! dest = None ∧ make_unique_path s dest = dest) ∨
  (is_Some (s !! dest) ∧ ∃ k, 1 ≤ k ∧ make_unique_path s dest = candidate dest k ∧
     ∀ j, 1 ≤ j < k → is_Some (s !! candidate dest j)).
Proof.
  unfold make_unique_path.
  destruct (fs.exists_ s dest) eqn:Hex; cbn [negb].
  - right. split; [by apply exists_true|].
    destruct (unique_loop_total s dest) as [r Hr]. rewrite Hr. simpl.
    destruct (unique_loop_Some _ _ _ _ _ Hr) as (k & Hk & -> & _ & Hbusy).
    exists k. split_and!; [lia|done|done].
  - left. split; [by apply exists_false|done].
Qed.

Lemma parent_joinpath p n : parent (p // n) = p.
Proof. apply removelast_last. Qed.

Lemma name_joinpath p n : name (p // n) = n.
Proof. unfold name, joinpath. by rewrite last_snoc. Qed.

Lemma rfind_dot_app nm ext :
  Str.rfind_dot ext = None →
  Str.rfind_dot (nm +:+ String "." ext) = Some (String.length nm).
Proof.
  intros Hext. induction nm as [|c nm IH].
  - change (EmptyString +:+ String "." ext) with (String "." ext). simpl.
    by rewrite Hext.
  - change (String c nm +:+ String "." ext) with (String c (nm +:+ String "." ext)).
    simpl. by rewrite IH.
Qed.

Lemma substring_all s : String.substring 0 (String.length s) s = s.
Proof. induction s as [|c s IH]; simpl; [done|]. by rewrite IH. Qed.

Lemma substring_app_l a b : String.substring 0 (String.length a) (a +:+ b) = a.
Proof.
  induction a as [|c a IH].
  - by destruct b.
  - change (String c a +:+ b) with (String c (a +:+ b)). simpl. by rewrite IH.
Qed.

Lemma substring_app_r a b :
  String.substring (String.length a) (String.length b) (a +:+ b) = b.
Proof.
  induction a as [|c a IH].
  - apply substring_all.
  - change (String c a +:+ b) with (String c (a +:+ b)). simpl. apply IH.
Qed.

(** The stem and suffix of [nm.ext]. *)
Lemma stem_suffix_dotted nm ext :
  nm ≠ EmptyString → ext ≠ EmptyString → Str.rfind_dot ext = None →
  stem_of_name (nm +:+ String "." ext) = nm ∧
  suffix_of_name (nm +:+ String "." ext) = String "." ext.
Proof.
  intros Hnm Hext Hdot. unfold stem_of_name, suffix_of_name.
  rewrite rfind_dot_app by done. rewrite string_app_length. simpl.
  assert (0 < String.length nm) by (destruct nm; [done|simpl; lia]).
  assert (0 < String.length ext) by (destruct ext; [done|simpl; lia]).
  rewrite !bool_decide_eq_true_2 by lia. simpl. split.
  - apply substring_app_l.
  - replace (String.length nm + S (String.length ext) - String.length nm)
      with (String.length (String "." ext)) by (simpl; lia).
    apply substring_app_r.
Qed.

End allocator.

(** C5. [make_unique_path] returns a path at which nothing exists unchanged.
    When the path itself and its numbered variants 1 to N all exist and
    variant N+1 does not, it returns variant N+1.  Variant [k] of a path is
    [parent/stem_k.suffix]; for a path [dir/nm.ext] it is [dir/nm_k.ext]. *)
Theorem make_unique_path_spec (s : FS) (dest : path) :
  (s !! dest = None → make_unique_path s dest = dest) ∧
  (∀ N, is_Some (s !! dest) →
        (∀ k, 1 ≤ k ≤ N → is_Some (s !! candidate dest k)) →
        s !! candidate dest (N + 1) = None →
        make_unique_path s dest = candidate dest (N + 1)) ∧
  (∀ k, candidate dest k =
        parent dest // (stem dest +:+ "_" +:+ pretty k +:+ suffix dest)) ∧
  (∀ dir nm ext k,
     dest = dir // (nm +:+ "." +:+ ext) →
     nm ≠ EmptyString → ext ≠ EmptyString → Str.rfind_dot ext = None →
     candidate dest k = dir // (nm +:+ "_" +:+ pretty k +:+ "." +:+ ext)).
Proof.
  split_and!.
  - intros Hfree. unfold make_unique_path.
    apply exists_false in Hfree. by rewrite Hfree.
  - intros N Hdest Hbusy Hfree. unfold make_unique_path.
    apply exists_true in Hdest. rewrite Hdest. cbn [negb].
    rewrite (unique_loop_first s dest _ 1 (N + 1)); [done| | |done].
    + assert (N ≤ size s); [|lia].
      apply (busy_candidates_bound s dest 1 N). intros j Hj. apply Hbusy. lia.
    + intros j Hj. apply Hbusy. lia.
  - done.
  - intros dir nm ext k -> Hnm Hext Hdot. unfold candidate, stem, suffix.
    rewrite parent_joinpath, name_joinpath.
    change ("." +:+ ext) with (String "." ext).
    by destruct (stem_suffix_dotted nm ext Hnm Hext Hdot) as [-> ->].
Qed.

Example make_unique_path_numbered :
  make_unique_path sample.numbered ["t"; "a.jpg"] = ["t"; "a_3.jpg"] ∧
  make_unique_path sample.numbered ["t"; "c.jpg"] = ["t"; "c.jpg"] ∧
  make_unique_path sample.numbered ["t"] = ["t_1"].
Proof. vm_compute. done. Qed.

(** ** Paths and their strings *)

Section path_strings.

Lemma split_slash_nonempty s : Str.split_slash s ≠ [].
Proof.
  induction s as [|c s IH]; simpl; [done|].
  destruct (Str.split_slash s); [done|]. by case_decide.
Qed.

Lemma split_slash_app c r :
  Str.no_slash c = true →
  Str.split_slash (c +:+ String "/" r) = c :: Str.split_slash r.
Proof.
  intros Hc. induction c as [|a c IH].
  - change (EmptyString +:+ String "/" r) with (String "/" r). simpl.
    pose proof (split_slash_nonempty r). by destruct (Str.split_slash r).
  - change (String a c +:+ String "/" r) with (String a (c +:+ String "/" r)).
    simpl in Hc. apply andb_true_iff in Hc as [Ha%bool_decide_eq_true Hc].
    simpl. rewrite (IH Hc). by rewrite decide_False.
Qed.

Lemma split_slash_plain c : Str.no_slash c = true → Str.split_slash c = [c].
Proof.
  induction c as [|a c IH]; simpl; [done|].
  intros [Ha%bool_decide_eq_true Hc]%andb_true_iff.
  rewrite (IH Hc). by rewrite decide_False.
Qed.

Lemma plain_name_spec (c : string) :
  plain_name c = true ↔
  c ≠ EmptyString ∧ c ≠ "." ∧ c ≠ ".." ∧ Str.no_slash c = true.
Proof.
  unfold plain_name. rewrite !andb_true_iff, !bool_decide_eq_true. tauto.
Qed.

Lemma split_str_components c p :
  plain (c :: p) = true →
  Str.split_slash (str_components (c :: p)) = EmptyString :: c :: p.
Proof.
  revert c. induction p as [|d p IH]; intros c Hp.
  - simpl in *. rewrite andb_true_r in Hp.
    apply andb_true_iff in Hp as [_ Hc].
    change ("/" +:+ c +:+ EmptyString) with (String "/" (c +:+ EmptyString)).
    assert (c +:+ EmptyString = c) as ->.
    { clear. induction c as [|a c IH]; [done|].
      change (String a c +:+ EmptyString) with (String a (c +:+ EmptyString)). by rewrite IH. }
    simpl. rewrite split_slash_plain by done. done.
  - cbn [plain forallb] in Hp. apply andb_true_iff in Hp as [Hc Hp].
    pose proof Hc as (_ & _ & _ & Hslash)%plain_name_spec.
    specialize (IH d Hp).
    cbn [str_components] in *.
    change ("/" +:+ c +:+ "/" +:+ d +:+ str_components p)
      with (String "/" (c +:+ String "/" (d +:+ str_components p))).
    change ("/" +:+ d +:+ str_components p)
      with (String "/" (d +:+ str_components p)) in IH.
    simpl in IH. simpl. rewrite split_slash_app by done.
    destruct (Str.split_slash (d +:+ str_components p)) as [|w ws]; [done|].
    by injection IH as -> ->.
Qed.

Lemma filter_plain (p : list string) :
  plain p = true → filter (λ c, c ≠ EmptyString ∧ c ≠ ".") p = p.
Proof.
  induction p as [|c p IH]; [done|]. cbn [plain forallb].
  intros [(H1 & H2 & _ & _)%plain_name_spec Hp]%andb_true_iff.
  rewrite filter_cons, decide_True by done. by rewrite (IH Hp).
Qed.

(** A path of plain names is what its string spells. *)
Lemma Path_str (p : path) : plain p = true → Path (str p) = p.
Proof.
  destruct p as [|c p]; [done|]. intros Hp.
  unfold Path, str. rewrite split_str_components by done.
  rewrite filter_cons, decide_False by (by intros [? _]).
  by apply filter_plain.
Qed.

End path_strings.

(** ** History store *)

(** C8: [load_move_history] returns what [json.load] parsed without
    looking at its shape, and its test [exists()] stands outside the [try].
    On a history file that holds the JSON object [{"runs": []}], which is
    there, can be read and is well-formed JSON, it returns that object, not
    a list of runs and not the empty list.  Its callers take the result for
    a list: [run_organize] moves [a.jpg], then fails on [history.append],
    reports the error and records no run, so the move cannot be undone; and
    [undo_last] fails on [history.pop()].  On a history file out of reach
    the function itself raises, and so does [undo_last]. *)
Theorem load_move_history_returns_non_list :
  load_move_history sample.misshapen = inr (JObj [("runs", JList [])]) ∧
  (run_organize "now" ["t"] DEFAULT_EXT_MAP by_type false false
     {| w_fs := sample.fresh; w_history := sample.misshapen; w_disk := Writes |}).2
    = [Starting; Error AttributeError] ∧
  w_fs (run_organize "now" ["t"] DEFAULT_EXT_MAP by_type false false
          {| w_fs := sample.fresh; w_history := sample.misshapen; w_disk := Writes |}).1
    !! ["t"; "Images"; "a.jpg"] = Some (sample.jpg "x") ∧
  w_history (run_organize "now" ["t"] DEFAULT_EXT_MAP by_type false false
          {| w_fs := sample.fresh; w_history := sample.misshapen; w_disk := Writes |}).1
    = sample.misshapen ∧
  raised (undo_last {| w_fs := sample.fresh; w_history := sample.misshapen;
                       w_disk := Writes |}) = Some TypeError ∧
  load_move_history Denied = inl PermissionError ∧
  raised (undo_last {| w_fs := sample.fresh; w_history := Denied; w_disk := Writes |})
    = Some PermissionError.
Proof. vm_compute. done. Qed.

(** ** Stats aggregator *)

Section stats.

Context (ext_map : ExtMap).

Lemma first_category_in ext :
  first_category ext_map ext ∈ ext_map.*1 ∨ first_category ext_map ext = DEFAULT_OTHER.
Proof.
  induction ext_map as [|[cat exts] rest IH]; simpl; [by right|].
  case_bool_decide; [left; by left|].
  destruct IH as [IH|IH]; [left; by right|by right].
Qed.

Lemma lookup_zeroed (cats : list string) (c0 : gmap string nat) k :
  foldl (λ c cat, <[cat := 0]> c) c0 cats !! k =
    if decide (k ∈ cats) then Some 0 else c0 !! k.
Proof.
  revert c0. induction cats as [|cat cats IH]; intros c0; cbn [foldl].
  - rewrite decide_False; [done|]. by intros ?%elem_of_nil.
  - rewrite IH. destruct (decide (k ∈ cats)) as [Hin|Hnin].
    + rewrite decide_True; [done|]. by right.
    + destruct (decide (k = cat)) as [->|Hne].
      * rewrite lookup_insert_eq. rewrite decide_True; [done|]. by left.
      * rewrite lookup_insert_ne by done. rewrite decide_False; [done|].
        by intros [?|?]%elem_of_cons.
Qed.

Lemma lookup_initial_counts k :
  initial_counts ext_map !! k =
    if decide (k = DEFAULT_OTHER ∨ k ∈ ext_map.*1) then Some 0 else None.
Proof.
  unfold initial_counts. destruct (decide (k = DEFAULT_OTHER)) as [->|Hne].
  - rewrite lookup_insert_eq. rewrite decide_True; [done|]. by left.
  - rewrite lookup_insert_ne by done. rewrite lookup_zeroed, lookup_empty.
    destruct (decide (k ∈ ext_map.*1)).
    + rewrite decide_True; [done|]. by right.
    + rewrite decide_False; [done|]. by intros [?|?].
Qed.

Local Abbreviation category_of := (category_of ext_map).

Lemma category_of_counted f : is_Some (initial_counts ext_map !! category_of f).
Proof.
  rewrite lookup_initial_counts. rewrite decide_True; [done|].
  unfold category_of, find_category_by_ext.
  destruct (first_category_in (Str.lower (suffix f))); [by right|by left].
Qed.

Lemma stat_state (f : path) (s : FS) : final_state (fs.stat f s) = s.
Proof. unfold fs.stat. by repeat case_match. Qed.

Lemma stats_loop_spec (files : list path) (cnts : gmap string nat) (n size : nat)
    (s : FS) :
  (∀ f, is_Some (cnts !! category_of f)) →
  ∃ cnts',
    stats_loop ext_map (cnts, n, size) files s =
      Returned s (cnts', n + length files, size + sum_list (size_read s <$> files)) ∧
    ∀ cat, cnts' !! cat =
      (λ c, c + length (filter (λ f, category_of f = cat) files)) <$> cnts !! cat.
Proof.
  revert cnts n size. induction files as [|f files IH]; intros cnts n size Hdom.
  - exists cnts. split.
    + simpl. unfold ret. f_equal. apply injective_projections; simpl; [|lia].
      apply injective_projections; simpl; [done|lia].
    + intros cat. simpl. destruct (cnts !! cat); simpl; [f_equal; lia|done].
  - destruct (Hdom f) as [c Hc].
    destruct (IH (<[category_of f := c + 1]> cnts) (n + 1)
                (size + size_read s f)) as (cnts' & Hrun & Hcnt).
    { intros g. destruct (decide (category_of g = category_of f)) as [->|Hne].
      - by rewrite lookup_insert_eq.
      - rewrite lookup_insert_ne by done. apply Hdom. }
    exists cnts'. split.
    + cbn [stats_loop]. unfold bind at 1. unfold stats_one.
      fold (category_of f). rewrite Hc. cbn [lift]. unfold bind at 1. unfold ret at 1.
      pose proof (stat_state f s) as Hst.
      destruct (fs.stat f s) as [s1 st|s1 e] eqn:Hstat; simpl in Hst; subst s1.
      * assert (size_read s f = st.1) as Hsz by (unfold size_read; by rewrite Hstat).
        rewrite Hsz in Hrun. rewrite Hrun, fmap_cons. simpl. rewrite Hsz.
        f_equal. apply injective_projections; simpl; [|lia].
        apply injective_projections; simpl; [done|lia].
      * assert (size_read s f = 0) as Hsz by (unfold size_read; by rewrite Hstat).
        rewrite Hsz, Nat.add_0_r in Hrun. rewrite Hrun, fmap_cons. simpl. rewrite Hsz.
        f_equal. apply injective_projections; simpl; [|lia].
        apply injective_projections; simpl; [done|lia].
    + intros cat. rewrite Hcnt. rewrite filter_cons.
      destruct (decide (category_of f = cat)) as [<-|Hne].
      * rewrite lookup_insert_eq, Hc. simpl. f_equal. lia.
      * by rewrite lookup_insert_ne.
Qed.

End stats.

(** C9, as the code has it.  When the files can be listed,
    [gather_stats_for_dashboard] returns, leaving the file system as it
    was: the number of files listed; a count for exactly the categories of
    the map and "Others", each the number of listed files of that category;
    and the size the successful [stat] calls add up to, not in bytes but in
    MiB rounded to two decimals (here in hundredths).  A failing [stat] adds
    nothing and stops nothing.  When listing raises, so does the call. *)
Theorem gather_stats_for_dashboard_spec (target : path) (ext_map : ExtMap)
    (recursive : bool) (s : FS) :
  match list_files target recursive s with
  | Returned _ files =>
      ∃ st,
        gather_stats_for_dashboard target ext_map recursive s = Returned s st ∧
        total_files st = length files ∧
        (∀ cat, is_Some (counts st !! cat) ↔ cat ∈ ext_map.*1 ∨ cat = "Others") ∧
        (∀ cat n, counts st !! cat = Some n →
           n = length (filter (λ f, category_of ext_map f = cat) files)) ∧
        total_size_mb st =
          round_hundredths (Z.of_nat (sum_list (size_read s <$> files))) (1024 * 1024)
  | Raised _ e =>
      gather_stats_for_dashboard target ext_map recursive s = Raised s e
  end.
Proof.
  unfold gather_stats_for_dashboard.
  assert (final_state (list_files target recursive s) = s) as Hls.
  { unfold list_files. by repeat case_match. }
  unfold bind.
  destruct (list_files target recursive s) as [s' files|s' e]; simpl in Hls; subst s'; [|done].
  destruct (stats_loop_spec ext_map files (initial_counts ext_map) 0 0 s)
    as (cnts' & Hrun & Hcnt).
  { apply category_of_counted. }
  rewrite Hrun. eexists. split; [reflexivity|]. simpl.
  split_and!; [done| | |done].
  - intros cat. rewrite Hcnt, lookup_initial_counts.
    case_decide as Hcat; simpl.
    + split; [intros _; tauto|done].
    + split; [by intros []|]. intros [?|?]; exfalso; apply Hcat; auto.
  - intros cat n. rewrite Hcnt, lookup_initial_counts.
    case_decide; simpl; [|done]. by intros [= <-].
Qed.

(** C9, as stated, fails on the size: for a directory holding one file of
    three bytes the number returned is 0.0 (its size in MiB, rounded), not
    the 3 bytes the file has. *)
Lemma gather_stats_size_not_bytes :
  (λ st, (total_files st, total_size_mb st)) <$>
    returned (gather_stats_for_dashboard ["t"] DEFAULT_EXT_MAP false sample.three_bytes)
    = Some (1, 0%Z) ∧
  sum_list (size_read sample.three_bytes <$> [["t"; "b.txt"]]) = 3.
Proof. vm_compute. done. Qed.

(** ** Hasher and duplicate finder *)

Section duplicates.

Lemma hex_nonempty bs : bs ≠ [] → md5.hex bs ≠ EmptyString.
Proof. by destruct bs. Qed.

(** A digest is never the empty string, so [if not h] only skips the
    files that could not be read. *)
Lemma hexdigest_nonempty data : md5.hexdigest data ≠ EmptyString.
Proof.
  unfold md5.hexdigest, md5.digest.
  destruct (foldl _ _ _) as [[[a b] c] d]. apply hex_nonempty.
  cbn [md5.le_bytes app]. discriminate.
Qed.

Lemma digest_of_hash s f : digest_of s f = get_file_hash s f.
Proof.
  unfold digest_of. destruct (get_file_hash s f) as [h|] eqn:Hh; [|done].
  rewrite bool_decide_eq_false_2; [done|].
  unfold get_file_hash in Hh. destruct (fs.read_bytes s f) as [data|]; [|done].
  assert (h = md5.hexdigest (fed_bytes data)) as -> by congruence.
  apply hexdigest_nonempty.
Qed.

(** Files that read the same bytes get the same digest. *)
Lemma same_bytes_same_hash s f1 f2 data :
  fs.read_bytes s f1 = Some data → fs.read_bytes s f2 = Some data →
  ∃ h, get_file_hash s f1 = Some h ∧ get_file_hash s f2 = Some h.
Proof. unfold get_file_hash. intros -> ->. eauto. Qed.

Lemma add_hash_digest s (hash_map : gmap string (list string)) f :
  add_hash s hash_map f =
    match digest_of s f with
    | Some h => <[h := default [] (hash_map !! h) ++ [str f]]> hash_map
    | None => hash_map
    end.
Proof.
  unfold add_hash, digest_of. destruct (get_file_hash s f) as [h|]; [|done].
  by case_bool_decide.
Qed.

Lemma group_of_cons s f files h :
  group_of s (f :: files) h =
    if decide (digest_of s f = Some h) then str f :: group_of s files h
    else group_of s files h.
Proof. unfold group_of. rewrite filter_cons. by case_decide. Qed.

(** The loop files every hashed file under its digest, in listing order. *)
Lemma lookup_hash_map s files (hash_map : gmap string (list string)) h :
  foldl (add_hash s) hash_map files !! h =
    if decide (group_of s files h = []) then hash_map !! h
    else Some (default [] (hash_map !! h) ++ group_of s files h).
Proof.
  revert hash_map. induction files as [|f files IH]; intros hash_map; [done|].
  cbn [foldl]. rewrite IH, add_hash_digest, group_of_cons.
  destruct (decide (digest_of s f = Some h)) as [Hf|Hf].
  - rewrite Hf, lookup_insert_eq. simpl.
    destruct (decide (str f :: group_of s files h = [])) as [?|_]; [done|].
    case_decide as Hg; [by rewrite Hg|by rewrite <-app_assoc].
  - destruct (digest_of s f) as [h'|]; [|done].
    rewrite lookup_insert_ne by congruence. done.
Qed.

Lemma group_of_perm s files files' h :
  files ≡ₚ files' → group_of s files h ≡ₚ group_of s files' h.
Proof. unfold group_of. by intros ->. Qed.

End duplicates.

(** C7, as the code has it.  When the files can be listed,
    [find_duplicates] returns, leaving the file system as it was, a map that
    holds under a digest exactly the listed files with that digest, files
    without a digest being in no group, and only the groups of two files or
    more.  In particular, when three files are listed, two of them readable
    with the same bytes, and the third has another digest or none, the map
    is the single group of those two. *)
Theorem find_duplicates_spec (target : path) (recursive : bool) (s : FS) :
  match list_files target recursive s with
  | Returned _ files =>
      ∃ dups,
        find_duplicates target recursive s = Returned s dups ∧
        (∀ h paths, dups !! h = Some paths ↔
                    paths = group_of s files h ∧ 2 ≤ length paths) ∧
        (∀ f1 f2 f3 data,
           files ≡ₚ [f1; f2; f3] →
           fs.read_bytes s f1 = Some data → fs.read_bytes s f2 = Some data →
           get_file_hash s f3 ≠ get_file_hash s f1 →
           ∃ h, get_file_hash s f1 = Some h ∧
                dups = {[ h := group_of s files h ]} ∧
                group_of s files h ≡ₚ [str f1; str f2])
  | Raised _ e => find_duplicates target recursive s = Raised s e
  end.
Proof.
  unfold find_duplicates.
  assert (final_state (list_files target recursive s) = s) as Hls.
  { unfold list_files. by repeat case_match. }
  unfold bind.
  destruct (list_files target recursive s) as [s' files|s' e]; simpl in Hls; subst s'; [|done].
  eexists. split; [reflexivity|].
  assert (∀ h paths,
    filter (λ hp : string * list string, 1 < length hp.2)
           (foldl (add_hash s) ∅ files) !! h = Some paths ↔
    paths = group_of s files h ∧ 2 ≤ length paths) as Hchar.
  { intros h paths. rewrite map_lookup_filter_Some, lookup_hash_map, lookup_empty. simpl.
    case_decide as Hg.
    - split; [by intros [? _]|]. intros [-> Hlen]. rewrite Hg in Hlen. simpl in Hlen. lia.
    - split.
      + intros [[= <-] Hlen]. split; [done|lia].
      + intros [-> Hlen]. split; [done|lia]. }
  split; [exact Hchar|].
  intros f1 f2 f3 data Hperm Hr1 Hr2 Hdiff.
  destruct (same_bytes_same_hash s f1 f2 data Hr1 Hr2) as (h & Hh1 & Hh2).
  exists h. split; [done|].
  assert (∀ h', group_of s files h' ≡ₚ group_of s [f1; f2; f3] h') as Hgrp.
  { intros h'. by apply group_of_perm. }
  assert (group_of s [f1; f2; f3] h = [str f1; str f2]) as Hg.
  { rewrite !group_of_cons, !digest_of_hash, Hh1, Hh2.
    rewrite !decide_True by done. rewrite decide_False; [done|].
    rewrite Hh1 in Hdiff. done. }
  split; [|by rewrite Hgrp, Hg].
  apply map_eq. intros h'. destruct (decide (h' = h)) as [->|Hne].
  - rewrite lookup_singleton_eq. apply Hchar. split; [done|].
    rewrite Hgrp, Hg. simpl. lia.
  - rewrite lookup_singleton_ne by done.
    destruct (_ !! h') as [paths|] eqn:Hlook; [|done].
    apply Hchar in Hlook as [-> Hlen]. rewrite Hgrp in Hlen.
    rewrite !group_of_cons, !digest_of_hash, Hh1, Hh2 in Hlen.
    rewrite !decide_False in Hlen by congruence.
    case_decide; simpl in Hlen; lia.
Qed.

(** C7, as stated, fails: [a.bin] and [c.bin] have the same bytes and
    [b.bin] has other bytes with the same MD5 digest, and the one group
    returned holds all three paths. *)
Lemma find_duplicates_md5_collision :
  map_to_list <$> returned (find_duplicates ["t"] false sample.colliding) =
    Some [ ("79054025255fb1a26e4bc422aef54eb4",
            ["/t/c.bin"; "/t/b.bin"; "/t/a.bin"]) ] ∧
  fs.read_bytes sample.colliding ["t"; "a.bin"] = Some sample.block_a ∧
  fs.read_bytes sample.colliding ["t"; "c.bin"] = Some sample.block_a ∧
  fs.read_bytes sample.colliding ["t"; "b.bin"] = Some sample.block_b ∧
  sample.block_a ≠ sample.block_b.
Proof. vm_compute. split_and!; [done..|discriminate]. Qed.

Example find_duplicates_three_files :
  map_to_list <$> returned (find_duplicates ["t"] false sample.triple)
    = Some [ (md5.hexdigest "same", ["/t/b.txt"; "/t/a.txt"]) ].
Proof. vm_compute. reflexivity. Qed.

(** ** Organize engine *)

Section file_system.

Implicit Types (s : FS) (p src dst : path).

Lemma is_file_Some s p : fs.is_file s p = true ↔ ∃ x, s !! p = Some (NFile x).
Proof.
  unfold fs.is_file. destruct (s !! p) as [[x|]|]; split; try done; eauto.
  - by intros [x [=]].
  - by intros [x [=]].
Qed.

(** [mkdir] only adds entries. *)
Lemma mkdir_from_preserves base comps s p n :
  s !! p = Some n → final_state (fs.mkdir_from base comps s) !! p = Some n.
Proof.
  revert base s. induction comps as [|c cs IH]; intros base s Hp; simpl; [done|].
  destruct (s !! (base // c)) as [[x|]|] eqn:Hbase; simpl.
  - done.
  - by apply IH.
  - apply IH. rewrite lookup_insert_ne; [done|]. intros <-. by rewrite Hbase in Hp.
Qed.

Lemma mkdir_preserves dir s s' p n :
  fs.mkdir dir s = Returned s' tt → s !! p = Some n → s' !! p = Some n.
Proof.
  intros Hmk Hp. pose proof (mkdir_from_preserves [] dir s p n Hp) as H.
  unfold fs.mkdir in Hmk. by rewrite Hmk in H.
Qed.

(** What [mkdir] adds are directories on the way to the one asked for. *)
Lemma mkdir_from_new (base : path) (comps : list string) (s : FS) (g : path) (y : node) :
  final_state (fs.mkdir_from base comps s) !! g = Some y →
  s !! g = Some y ∨ (y = NDir ∧ g `prefix_of` base ++ comps).
Proof.
  revert base s. induction comps as [|c cs IH]; intros base s; simpl; [by left|].
  destruct (s !! (base // c)) as [[x|]|] eqn:Hbase; simpl.
  - by left.
  - intros [Hg|[-> Hg]]%IH; [by left|]. right. split; [done|].
    unfold joinpath in Hg. by rewrite <-app_assoc in Hg.
  - intros [Hg|[-> Hg]]%IH.
    + destruct (decide (g = base // c)) as [->|Hne].
      * rewrite lookup_insert_eq in Hg. injection Hg as <-. right. split; [done|].
        unfold joinpath. apply prefix_app, prefix_cons, prefix_nil.
      * rewrite lookup_insert_ne in Hg by done. by left.
    + right. split; [done|]. unfold joinpath in Hg. by rewrite <-app_assoc in Hg.
Qed.

Lemma mkdir_new (dir : path) (s s1 : FS) (g : path) (y : node) :
  fs.mkdir dir s = Returned s1 tt → s1 !! g = Some y →
  s !! g = Some y ∨ (y = NDir ∧ g `prefix_of` dir).
Proof.
  unfold fs.mkdir. intros Hmk Hg. apply (mkdir_from_new [] dir s g y). by rewrite Hmk.
Qed.

(** Moving a regular file to a free path renames that one entry. *)
Lemma shutil_move_file s s' src dst x :
  s !! src = Some (NFile x) → s !! dst = None →
  fs.shutil_move src dst s = Returned s' tt →
  s' = <[dst := NFile x]> (delete src s).
Proof.
  intros Hsrc Hdst. unfold fs.shutil_move. rewrite Hsrc.
  assert (fs.is_dir s dst = false) as ->.
  { unfold fs.is_dir. apply bool_decide_eq_false. by rewrite Hdst. }
  cbn [andb]. repeat case_match; try done. by intros [= <-].
Qed.

Lemma list_files_state target recursive s :
  final_state (list_files target recursive s) = s.
Proof. unfold list_files. by repeat case_match. Qed.

Lemma files_where_NoDup sel s : NoDup (fs.files_where sel s).
Proof.
  unfold fs.files_where. eapply sublist_NoDup; [apply (NoDup_fst_map_to_list s)|].
  apply fmap_sublist, sublist_filter.
Qed.

Lemma files_where_is_file sel s p :
  p ∈ fs.files_where sel s → fs.is_file s p = true.
Proof.
  unfold fs.files_where.
  intros ([q n] & -> & [[_ Hfile] Hin]%list_elem_of_filter)%list_elem_of_fmap.
  apply elem_of_map_to_list in Hin. simpl in *.
  apply is_file_Some. destruct n; [eauto|done].
Qed.

(** The files listed are distinct regular files. *)
Lemma list_files_spec target recursive s files :
  list_files target recursive s = Returned s files →
  NoDup files ∧ ∀ f, f ∈ files → fs.is_file s f = true.
Proof.
  unfold list_files. intros Hls.
  repeat case_match; simplify_eq;
    (split; [apply files_where_NoDup|intros f; apply files_where_is_file]).
Qed.

End file_system.

Section loops.

Context {S A B : Type} (body : A → py S B).

Lemma for_each_cons x xs (s : S) :
  for_each body (x :: xs) s =
    match body x s with
    | Returned s1 y =>
        match for_each body xs s1 with
        | Returned s2 ys => Returned s2 (y :: ys)
        | Raised s2 e => Raised s2 e
        end
    | Raised s1 e => Raised s1 e
    end.
Proof. reflexivity. Qed.

(** The loop stops at the first round that raises: the rounds after it
    are not run and no list is returned. *)
Lemma for_each_raises pre x post (s s1 s2 : S) ys e :
  for_each body pre s = Returned s1 ys →
  body x s1 = Raised s2 e →
  for_each body (pre ++ x :: post) s = Raised s2 e.
Proof.
  revert s ys. induction pre as [|x0 pre IH]; intros s ys Hpre Hx.
  - injection Hpre as <- _. rewrite app_nil_l, for_each_cons. by rewrite Hx.
  - rewrite <-app_comm_cons. rewrite for_each_cons in *.
    destruct (body x0 s) as [s0 y0|]; [|done].
    destruct (for_each body pre s0) as [s0' ys0|] eqn:Hrest; [|done].
    injection Hpre as -> _. by rewrite (IH _ _ Hrest Hx).
Qed.

End loops.

Section abort.

Context (now : string) (target : path) (ext_map : ExtMap).

(** What [run_organize] shows and keeps when the organizer raises. *)
Lemma run_organize_error (m : mode) (recursive dry : bool) (s s2 : FS)
    (h : artifact) (d : disk) (e : exn) :
  match m with
  | by_type => organize_by_type now target ext_map dry recursive
  | by_date => organize_by_date now target dry recursive
  end s = Raised s2 e →
  run_organize now target ext_map m dry recursive
      {| w_fs := s; w_history := h; w_disk := d |}
    = ({| w_fs := s2; w_history := h; w_disk := d |}, [Starting; Error e]).
Proof.
  intros Hraise. unfold run_organize, run_organize_try, bind, on_fs. simpl.
  by rewrite Hraise.
Qed.

End abort.

(** C2, as the code has it.  Neither strategy has a handler around the
    move.  When the move of a listed file raises, the files listed before it
    having been handled, the call raises that error at once: it returns no
    list of records, the file system stays as the earlier rounds left it,
    and the files listed after it are not looked at.  [run_organize] then
    shows the error on its console and leaves the history alone. *)
Theorem organize_stops_at_failed_move (now : string) (target : path)
    (ext_map : ExtMap) (recursive : bool) (s : FS) (h : artifact) (d : disk)
    (pre post : list path) (f : path) (e : exn) :
  list_files target recursive s = Returned s (pre ++ f :: post) →
  (∀ s1 ms s1' s2,
     for_each (organize_one_by_type now target ext_map false) pre s = Returned s1 ms →
     let dest_dir := target // find_category_by_ext ext_map (Str.lower (suffix f)) in
     fs.mkdir dest_dir s1 = Returned s1' tt →
     fs.shutil_move f (make_unique_path s1' (dest_dir // name f)) s1' = Raised s2 e →
     organize_by_type now target ext_map false recursive s = Raised s2 e ∧
     run_organize now target ext_map by_type false recursive
         {| w_fs := s; w_history := h; w_disk := d |}
       = ({| w_fs := s2; w_history := h; w_disk := d |}, [Starting; Error e])) ∧
  (∀ s1 ms st s1' s2,
     for_each (organize_one_by_date now target false) pre s = Returned s1 ms →
     fs.stat f s1 = Returned s1 st →
     let dest_dir := target // (pretty st.2.1 +:+ "-" +:+ Str.pad2 st.2.2) in
     fs.mkdir dest_dir s1 = Returned s1' tt →
     fs.shutil_move f (make_unique_path s1' (dest_dir // name f)) s1' = Raised s2 e →
     organize_by_date now target false recursive s = Raised s2 e ∧
     run_organize now target ext_map by_date false recursive
         {| w_fs := s; w_history := h; w_disk := d |}
       = ({| w_fs := s2; w_history := h; w_disk := d |}, [Starting; Error e])).
Proof.
  intros Hls. split.
  - intros s1 ms s1' s2 Hpre dest_dir Hmk Hmove.
    assert (organize_by_type now target ext_map false recursive s = Raised s2 e) as Hraise.
    { unfold organize_by_type, bind. rewrite Hls.
      apply (for_each_raises _ pre f post s s1 s2 ms e Hpre).
      unfold organize_one_by_type, bind. fold dest_dir. rewrite Hmk.
      unfold get. cbn [negb]. by rewrite Hmove. }
    split; [done|]. by apply (run_organize_error now target ext_map by_type).
  - intros s1 ms st s1' s2 Hpre Hst dest_dir Hmk Hmove.
    assert (organize_by_date now target false recursive s = Raised s2 e) as Hraise.
    { unfold organize_by_date, bind. rewrite Hls.
      apply (for_each_raises _ pre f post s s1 s2 ms e Hpre).
      unfold organize_one_by_date, bind. rewrite Hst. fold dest_dir. rewrite Hmk.
      unfold get. cbn [negb]. by rewrite Hmove. }
    split; [done|]. by apply (run_organize_error now target ext_map by_date).
Qed.

(** The theorem at work on [sample.one_locked], where [b.txt] is listed
    first and cannot be moved. *)
Lemma organize_stops_at_failed_move_witness :
  organize_by_type "now" ["t"] DEFAULT_EXT_MAP false false sample.one_locked
    = Raised sample.locked_after PermissionError ∧
  run_organize "now" ["t"] DEFAULT_EXT_MAP by_type false false
      {| w_fs := sample.one_locked; w_history := Absent; w_disk := Writes |}
    = ({| w_fs := sample.locked_after; w_history := Absent; w_disk := Writes |},
       [Starting; Error PermissionError]).
Proof.
  apply (proj1 (organize_stops_at_failed_move "now" ["t"] DEFAULT_EXT_MAP false
                  sample.one_locked Absent Writes [] [["t"; "a.jpg"]] ["t"; "b.txt"]
                  PermissionError ltac:(reflexivity))
               sample.one_locked []
               (final_state (fs.mkdir ["t"; "Documents"] sample.one_locked))
               sample.locked_after);
    reflexivity.
Defined.

(** C2, as stated, fails: [b.txt], listed first, cannot be moved; the call
    raises [PermissionError], returns no records, and [a.jpg], listed after
    it, is still where it was. *)
Lemma organize_aborts_on_locked_file :
  returned (list_files ["t"] false sample.one_locked)
    = Some [["t"; "b.txt"]; ["t"; "a.jpg"]] ∧
  raised (organize_by_type "now" ["t"] DEFAULT_EXT_MAP false false sample.one_locked)
    = Some PermissionError ∧
  returned (organize_by_type "now" ["t"] DEFAULT_EXT_MAP false false sample.one_locked)
    = None ∧
  final_state (organize_by_type "now" ["t"] DEFAULT_EXT_MAP false false sample.one_locked)
    !! ["t"; "a.jpg"] = Some (sample.jpg "x") ∧
  final_state (organize_by_type "now" ["t"] DEFAULT_EXT_MAP false false sample.one_locked)
    !! ["t"; "Images"; "a.jpg"] = None.
Proof. vm_compute. done. Qed.

Section snapshot.

Implicit Types (s : FS) (f dest : path).

(** The common end of both loop bodies: the destination is allocated in
    the directory just made and, unless the run is dry, the file is moved
    there. *)
Lemma allocate_and_move_step now dry f dest_dir s s1 s' m :
  fs.is_file s f = true →
  fs.mkdir dest_dir s = Returned s1 tt →
  (let dest := make_unique_path s1 (dest_dir // name f) in
   bind (if negb dry then fs.shutil_move f dest else ret tt)
        (λ _, ret {| mv_src := str f; mv_dst := str dest;
                     mv_time := now; mv_dry := dry |})) s1 = Returned s' m →
  mv_src m = str f ∧
  ∃ dest, mv_dst m = str dest ∧
          (∀ g, is_Some (s !! g) → dest ≠ g) ∧
          (∀ g x, g ≠ f → s !! g = Some x → s' !! g = Some x).
Proof.
  intros [x Hf]%is_file_Some Hmk. cbv zeta.
  set (dest := make_unique_path s1 (dest_dir // name f)).
  assert (s1 !! dest = None) as Hfresh by apply make_unique_path_fresh.
  assert (∀ g, is_Some (s !! g) → dest ≠ g) as Hne.
  { intros g [y Hg] <-. apply (mkdir_preserves _ _ _ _ _ Hmk) in Hg. congruence. }
  unfold bind. destruct dry; cbn [negb].
  - unfold ret. intros [= <- <-]. split; [done|]. exists dest. split_and!; [done..|].
    intros g y _ Hg. by apply (mkdir_preserves _ _ _ _ _ Hmk).
  - destruct (fs.shutil_move f dest s1) as [s2 []|] eqn:Hmove; [|done].
    unfold ret. intros [= <- <-]. split; [done|]. exists dest. split_and!; [done..|].
    intros g y Hgf Hg. apply (mkdir_preserves _ _ _ _ _ Hmk) in Hg.
    apply (mkdir_preserves _ _ _ _ _ Hmk) in Hf.
    rewrite (shutil_move_file _ _ _ _ _ Hf Hfresh Hmove).
    rewrite lookup_insert_ne by congruence. by rewrite lookup_delete_ne.
Qed.

Lemma organize_one_by_type_step now target ext_map dry :
  organize_step (organize_one_by_type now target ext_map dry).
Proof.
  intros f s s' m Hf. unfold organize_one_by_type. unfold bind at 1.
  destruct (fs.mkdir _ s) as [s1 []|] eqn:Hmk; [|done].
  unfold bind at 1, get. intros Hrun.
  by eapply (allocate_and_move_step now dry f).
Qed.

Lemma organize_one_by_date_step now target dry :
  organize_step (organize_one_by_date now target dry).
Proof.
  intros f s s' m Hf. unfold organize_one_by_date. unfold bind at 1.
  pose proof (stat_state f s) as Hst.
  destruct (fs.stat f s) as [s0 st|] eqn:Hstat; [|done]. simpl in Hst. subst s0.
  unfold bind at 1.
  destruct (fs.mkdir _ s) as [s1 []|] eqn:Hmk; [|done].
  unfold bind at 1, get. intros Hrun.
  by eapply (allocate_and_move_step now dry f).
Qed.

Context (body : path → py FS MoveRecord) (Hstep : organize_step body).

(** The loop over a list of distinct regular files: a record per file, in
    order, and no destination is a file still waiting for its round. *)
Lemma for_each_organize files s s' moves :
  NoDup files → (∀ f, f ∈ files → fs.is_file s f = true) →
  for_each body files s = Returned s' moves →
  mv_src <$> moves = str <$> files ∧
  ∃ dests, mv_dst <$> moves = str <$> dests ∧
           ∀ i j d g, i < j → dests !! i = Some d → files !! j = Some g → d ≠ g.
Proof.
  revert s moves. induction files as [|f files IH]; intros s moves Hnd Hfiles.
  - intros [= <- <-]. split; [done|]. exists []. split; [done|].
    intros i j d g _ Hd. by rewrite lookup_nil in Hd.
  - rewrite for_each_cons.
    destruct (body f s) as [s1 m|] eqn:Hbody; [|done].
    destruct (for_each body files s1) as [s2 ms|] eqn:Hrest; [|done].
    intros [= <- <-]. apply NoDup_cons in Hnd as [Hf Hnd].
    destruct (Hstep f s s1 m) as (Hsrc & dest & Hdst & Hfresh & Hkeep);
      [apply Hfiles; by left|done|].
    destruct (IH s1 ms Hnd) as (Hsrcs & dests & Hdsts & Hlater); [|done|].
    { intros g Hg.
      assert (fs.is_file s g = true) as [x Hx]%is_file_Some
        by (apply Hfiles; by right).
      apply is_file_Some. exists x. apply Hkeep; [|done]. by intros ->. }
    split; [by rewrite !fmap_cons, Hsrc, Hsrcs|].
    exists (dest :: dests). split; [by rewrite !fmap_cons, Hdst, Hdsts|].
    intros i j d g Hij Hd Hg. destruct j as [|j]; [lia|]. simpl in Hg.
    destruct i as [|i]; simpl in Hd.
    + injection Hd as <-. apply Hfresh.
      apply list_elem_of_lookup_2 in Hg.
      assert (fs.is_file s g = true) as [x Hx]%is_file_Some
        by (apply Hfiles; by right).
      eauto.
    + apply (Hlater i j); [lia|done..].
Qed.

End snapshot.

(** C10. In both strategies the files are listed once, before the loop
    starts.  A call that returns gives exactly one record per listed file,
    in listing order, and the listed files are distinct; and no destination
    chosen in some round is a file handled in a later round, so no file is
    moved twice in a call, whether the listing was recursive or not. *)
Theorem organize_handles_snapshot_once (now : string) (target : path)
    (ext_map : ExtMap) (dry recursive : bool) (s s' : FS)
    (files : list path) (moves : list MoveRecord) (m : mode) :
  list_files target recursive s = Returned s files →
  match m with
  | by_type => organize_by_type now target ext_map dry recursive
  | by_date => organize_by_date now target dry recursive
  end s = Returned s' moves →
  NoDup files ∧
  mv_src <$> moves = str <$> files ∧
  ∃ dests, mv_dst <$> moves = str <$> dests ∧
           ∀ i j d g, i < j → dests !! i = Some d → files !! j = Some g → d ≠ g.
Proof.
  intros Hls Hrun. destruct (list_files_spec _ _ _ _ Hls) as [Hnd Hfiles].
  split; [done|]. destruct m.
  - unfold organize_by_type, bind in Hrun. rewrite Hls in Hrun.
    eapply for_each_organize; [apply organize_one_by_type_step|done..].
  - unfold organize_by_date, bind in Hrun. rewrite Hls in Hrun.
    eapply for_each_organize; [apply organize_one_by_date_step|done..].
Qed.

(** The theorem at work on the recursive run by type over [sample.nested]. *)
Lemma organize_handles_snapshot_once_witness :
  NoDup sample.nested_files ∧
  mv_src <$> sample.nested_moves = str <$> sample.nested_files ∧
  ∃ dests, mv_dst <$> sample.nested_moves = str <$> dests ∧
           ∀ i j d g, i < j → dests !! i = Some d →
                      sample.nested_files !! j = Some g → d ≠ g.
Proof.
  apply (organize_handles_snapshot_once "now" ["t"] DEFAULT_EXT_MAP false true
           sample.nested (w_fs sample.organized) sample.nested_files
           sample.nested_moves by_type);
    reflexivity.
Defined.

(** ** Undo engine *)

Section undo.

Lemma undo_one_dry (m : MoveRecord) (s : FS) :
  mv_dry m = true → undo_one (move_json m) s = Returned s tt.
Proof. intros Hdry. unfold undo_one, bind. simpl. by rewrite Hdry. Qed.

Lemma undo_one_live (m : MoveRecord) (s : FS) :
  mv_dry m = false →
  undo_one (move_json m) s =
    if fs.exists_ s (Path (mv_dst m))
    then fs.shutil_move (Path (mv_dst m)) (make_unique_path s (Path (mv_src m))) s
    else Returned s tt.
Proof.
  intros Hdry. unfold undo_one, bind. simpl. rewrite Hdry. simpl.
  by destruct (fs.exists_ s (Path (mv_dst m))).
Qed.

(** Moving a regular file makes no directory. *)
Lemma shutil_move_file_dirs (s : FS) (src dst p : path) (x : file) :
  s !! src = Some (NFile x) →
  final_state (fs.shutil_move src dst s) !! p = Some NDir → s !! p = Some NDir.
Proof.
  intros Hsrc. unfold fs.shutil_move. rewrite Hsrc.
  set (real_dst := if fs.is_dir s dst then dst // name src else dst).
  destruct (fs.is_dir s dst && fs.exists_ s real_dst); [done|].
  destruct (f_movable x && fs.is_dir s (parent real_dst)).
  { cbn [final_state fs.rename].
    destruct (decide (p = real_dst)) as [->|Hp]; [by rewrite lookup_insert_eq|].
    rewrite lookup_insert_ne by done.
    destruct (decide (p = src)) as [->|Hp']; [by rewrite lookup_delete_eq|].
    by rewrite lookup_delete_ne. }
  destruct (bool_decide (src = real_dst)); [done|].
  destruct (f_readable x); [|done]. cbn [negb].
  destruct (s !! parent real_dst) as [[y|]|]; [done| |done].
  cbn [final_state].
  destruct (decide (p = real_dst)) as [->|Hp]; [by rewrite lookup_insert_eq|].
  by rewrite lookup_insert_ne.
Qed.

(** The loop of [undo_last] over the records of a run does the restores
    of the specification, and stops at a move that raises. *)
Lemma undo_loop_restores (ms : list MoveRecord) (s : FS) :
  Forall (λ m, s !! Path (mv_dst m) ≠ Some NDir) ms →
  ∃ o, restores s ms o ∧ void (for_each undo_one (move_json <$> ms) s) = o.
Proof.
  revert s. induction ms as [|m ms IH]; intros s Hfiles.
  - eexists. split; [constructor|done].
  - apply Forall_cons in Hfiles as [Hm Hms].
    rewrite fmap_cons, for_each_cons. destruct (mv_dry m) eqn:Hdry.
    + rewrite undo_one_dry by done. destruct (IH s Hms) as (o & Ho & <-).
      eexists. split; [by apply restores_dry|].
      by destruct (for_each _ _ s).
    + rewrite undo_one_live by done.
      destruct (fs.exists_ s (Path (mv_dst m))) eqn:Hex.
      * apply exists_true in Hex as [[x|] Hx]; [|done].
        pose proof (shutil_move_file_dirs s (Path (mv_dst m))
                      (make_unique_path s (Path (mv_src m)))) as Hdirs.
        destruct (fs.shutil_move _ _ s) as [s1 []|s1 e] eqn:Hmove.
        -- destruct (IH s1) as (o & Ho & <-).
           { eapply Forall_impl; [exact Hms|]. intros m' Hm' Hdir.
             apply Hm'. by eapply (Hdirs _ x). }
           eexists. split.
           ++ eapply restores_moved; [done..|apply make_unique_path_fresh|done|done].
           ++ by destruct (for_each _ _ s1).
        -- eexists. split; [by eapply restores_failed|done].
      * apply exists_false in Hex. destruct (IH s Hms) as (o & Ho & <-).
        eexists. split; [by apply restores_gone|].
        by destruct (for_each _ _ s).
Qed.

(** [undo_last] on a history that ends with a run, up to its loop. *)
Lemma undo_last_run (w : World) (runs : list json) (run_time : string)
    (target : path) (ms : list MoveRecord) :
  w_history w = Doc (JList (runs ++ [run_json run_time target ms])) →
  undo_last w =
    match for_each undo_one (move_json <$> reverse ms) (w_fs w) with
    | Returned s' _ =>
        Returned {| w_fs := s';
                    w_history := written (JList runs) (w_history w) (w_disk w);
                    w_disk := w_disk w |}
                 (Restored (length ms))
    | Raised s' e =>
        Raised {| w_fs := s'; w_history := w_history w; w_disk := w_disk w |} e
    end.
Proof.
  intros Hhist. unfold undo_last. unfold bind at 1, get. rewrite Hhist.
  cbn [load_move_history lift]. unfold bind at 1, ret at 1.
  cbn [pyval.truthy].
  rewrite bool_decide_eq_false_2 by (by destruct runs). cbn [negb].
  unfold bind, lift, ret, on_fs, save_move_history. cbn [pyval.pop].
  rewrite last_snoc, removelast_last. simpl.
  rewrite fmap_reverse.
  destruct (for_each undo_one _ (w_fs w)); simpl.
  - by rewrite length_fmap, Hhist.
  - by rewrite Hhist.
Qed.

End undo.

(** C3, as the code has it.  When the history ends with a run whose records
    name plain paths, as the records of [run_organize] do, and no recorded
    destination is a directory, [undo_last] does the restores of the
    specification over the records of that run in reverse: dry records and
    records whose destination is gone are skipped, every other destination
    is moved to the unique path made from its source, at which nothing
    exists.  When all moves succeed, [undo_last] tries to save the history
    without that run and reports the records of the run, whatever became of
    the save: when the file is written a later load no longer shows the run;
    when it cannot be opened for writing the history is as it was and still
    holds the run; when the write fails after the file was opened a later
    load shows no run at all.  When a move raises, [undo_last] ends with
    that error: the restores done so far stay, and the history is not saved
    and still holds the run.  (The history file is none of the files the
    records name: it lies outside the organized tree.) *)
Theorem undo_last_spec (w : World) (runs : list json) (run_time : string)
    (target : path) (ms : list MoveRecord) :
  w_history w = Doc (JList (runs ++ [run_json run_time target ms])) →
  Forall (λ m, plain_record m = true) ms →
  Forall (λ m, w_fs w !! Path (mv_dst m) ≠ Some NDir) ms →
  ∃ o, restores (w_fs w) (reverse ms) o ∧
       match o with
       | Returned s' _ =>
           ∃ h, undo_last w = Returned {| w_fs := s'; w_history := h; w_disk := w_disk w |}
                                       (Restored (length ms)) ∧
                match w_disk w with
                | Writes => h = Doc (JList runs) ∧ load_move_history h = inr (JList runs)
                | Refuses => h = w_history w
                | Truncates => h = Garbled ∧ load_move_history h = inr (JList [])
                end
       | Raised s' e =>
           undo_last w = Raised {| w_fs := s'; w_history := w_history w;
                                   w_disk := w_disk w |} e
       end.
Proof.
  intros Hhist _ Hfiles.
  destruct (undo_loop_restores (reverse ms) (w_fs w)) as (o & Ho & Hloop).
  { by apply Forall_reverse. }
  exists o. split; [done|].
  rewrite (undo_last_run w runs run_time target ms Hhist).
  destruct (for_each undo_one (move_json <$> reverse ms) (w_fs w)) as [s' us|s' e];
    simpl in Hloop; subst o; [|done].
  eexists. split; [done|]. rewrite Hhist. by destruct (w_disk w).
Qed.

(** The theorem at work on [sample.organized], whose history holds the one
    run that organized [sample.nested]. *)
Lemma undo_last_spec_witness :
  ∃ o, restores (w_fs sample.organized) (reverse sample.nested_moves) o ∧
       match o with
       | Returned s' _ =>
           ∃ h, undo_last sample.organized
                  = Returned {| w_fs := s'; w_history := h;
                                w_disk := w_disk sample.organized |} (Restored 2) ∧
                match w_disk sample.organized with
                | Writes => h = Doc (JList []) ∧ load_move_history h = inr (JList [])
                | Refuses => h = w_history sample.organized
                | Truncates => h = Garbled ∧ load_move_history h = inr (JList [])
                end
       | Raised s' e =>
           undo_last sample.organized
             = Raised {| w_fs := s'; w_history := w_history sample.organized;
                         w_disk := w_disk sample.organized |} e
       end.
Proof.
  apply (undo_last_spec sample.organized [] "now" ["t"] sample.nested_moves).
  - reflexivity.
  - repeat constructor.
  - repeat constructor; by vm_compute.
Defined.

(** Organizing [sample.nested] and undoing it puts both files back and
    empties the history. *)
Example undo_last_round_trip :
  returned (undo_last sample.organized) = Some (Restored 2) ∧
  w_fs (final_state (undo_last sample.organized)) !! ["t"; "sub"; "a.jpg"]
    = sample.nested !! ["t"; "sub"; "a.jpg"] ∧
  w_fs (final_state (undo_last sample.organized)) !! ["t"; "b.jpg"]
    = sample.nested !! ["t"; "b.jpg"] ∧
  w_fs (final_state (undo_last sample.organized)) !! ["t"; "Images"; "a.jpg"] = None ∧
  w_history (final_state (undo_last sample.organized)) = Doc (JList []).
Proof. vm_compute. done. Qed.

(** C3, as stated, fails: the destination exists, but the directory of the
    source is gone, so the move raises; [undo_last] ends with that error
    and the history still holds the run. *)
Lemma undo_last_aborts_without_saving :
  w_history sample.orphaned = Doc (JList [run_json "now" ["t"] [sample.moved_a]]) ∧
  fs.exists_ (w_fs sample.orphaned) (Path (mv_dst sample.moved_a)) = true ∧
  raised (undo_last sample.orphaned) = Some FileNotFoundError ∧
  w_history (final_state (undo_last sample.orphaned)) = w_history sample.orphaned.
Proof. vm_compute. done. Qed.

(** C4: the message counts the records of the run, restored or not.  Here
    the one record's destination is gone, nothing is restored and the file
    system stays as it was, and the message says one file was restored. *)
Theorem undo_last_counts_all_records :
  fs.exists_ (w_fs sample.stale) (Path (mv_dst sample.moved_a)) = false ∧
  returned (undo_last sample.stale) = Some (Restored 1) ∧
  w_fs (final_state (undo_last sample.stale)) = w_fs sample.stale ∧
  restores (w_fs sample.stale) [sample.moved_a] (Returned (w_fs sample.stale) tt).
Proof.
  split_and!; [reflexivity..|].
  apply restores_gone; [done|reflexivity|constructor].
Qed.

Section dry_run.

Lemma for_each_keeps {A B : Type} (body : A → py FS B) (p : path) (n : node) :
  (∀ x (s : FS), s !! p = Some n → final_state (body x s) !! p = Some n) →
  ∀ xs (s : FS), s !! p = Some n → final_state (for_each body xs s) !! p = Some n.
Proof.
  intros Hbody xs. induction xs as [|x xs IH]; intros s Hp; [done|].
  rewrite for_each_cons. pose proof (Hbody x s Hp) as Hx.
  destruct (body x s) as [s1 y|s1 e]; simpl in Hx; [|done].
  pose proof (IH s1 Hx) as Hxs.
  by destruct (for_each body xs s1).
Qed.

Lemma dry_body_keeps (dest_dir : path) (k : FS → MoveRecord) (s : FS) p n :
  s !! p = Some n →
  final_state ((fs.mkdir dest_dir ;;; let* s' := get in ret tt ;;; ret (k s')) s) !! p = Some n.
Proof.
  intros Hp. pose proof (mkdir_from_preserves [] dest_dir s p n Hp) as Hmk.
  unfold bind, get, ret, fs.mkdir. by destruct (fs.mkdir_from [] dest_dir s).
Qed.

Lemma for_each_new {A B : Type} (body : A → py FS B) (p : path) :
  (∀ x (s : FS) n, final_state (body x s) !! p = Some n → s !! p = Some n ∨ n = NDir) →
  ∀ xs (s : FS) n, final_state (for_each body xs s) !! p = Some n →
                   s !! p = Some n ∨ n = NDir.
Proof.
  intros Hbody xs. induction xs as [|x xs IH]; intros s n Hp; [by left|].
  rewrite for_each_cons in Hp. pose proof (Hbody x s n) as Hx.
  destruct (body x s) as [s1 y|s1 e]; simpl in Hx; [|by apply Hx].
  pose proof (IH s1 n) as Hxs.
  destruct (for_each body xs s1); simpl in Hxs, Hp;
    (destruct (Hxs Hp) as [H1|H1]; [by apply Hx|by right]).
Qed.

Lemma dry_body_new (dest_dir : path) (k : FS → MoveRecord) (s : FS) p n :
  final_state ((fs.mkdir dest_dir ;;; let* s' := get in ret tt ;;; ret (k s')) s) !! p = Some n →
  s !! p = Some n ∨ n = NDir.
Proof.
  pose proof (mkdir_from_new [] dest_dir s p n) as Hmk.
  unfold bind, get, ret, fs.mkdir.
  destruct (fs.mkdir_from [] dest_dir s); simpl in *; intros Hp;
    (destruct (Hmk Hp) as [H1|[H1 _]]; [by left|by right]).
Qed.

Lemma organize_dry_run_keeps_entries (now : string) (target : path)
    (ext_map : ExtMap) (recursive : bool) (s : FS) (p : path) (n : node) :
  s !! p = Some n →
  final_state (organize_by_type now target ext_map true recursive s) !! p = Some n ∧
  final_state (organize_by_date now target true recursive s) !! p = Some n.
Proof.
  intros Hp. split.
  - unfold organize_by_type, bind. pose proof (list_files_state target recursive s) as Hls.
    destruct (list_files target recursive s) as [s0 files|s0 e]; simpl in Hls; subst s0; [|done].
    apply for_each_keeps; [|done]. intros f s1 Hp1.
    unfold organize_one_by_type. cbn [negb]. by apply dry_body_keeps.
  - unfold organize_by_date, bind. pose proof (list_files_state target recursive s) as Hls.
    destruct (list_files target recursive s) as [s0 files|s0 e]; simpl in Hls; subst s0; [|done].
    apply for_each_keeps; [|done]. intros f s1 Hp1.
    unfold organize_one_by_date. unfold bind at 1.
    pose proof (stat_state f s1) as Hst.
    destruct (fs.stat f s1) as [s2 st|s2 e]; simpl in Hst; subst s2; [|done].
    cbn [negb]. by apply dry_body_keeps.
Qed.

Lemma organize_dry_run_new_entries (now : string) (target : path)
    (ext_map : ExtMap) (recursive : bool) (s : FS) (p : path) (n : node) :
  (final_state (organize_by_type now target ext_map true recursive s) !! p = Some n →
   s !! p = Some n ∨ n = NDir) ∧
  (final_state (organize_by_date now target true recursive s) !! p = Some n →
   s !! p = Some n ∨ n = NDir).
Proof.
  split.
  - unfold organize_by_type, bind. pose proof (list_files_state target recursive s) as Hls.
    destruct (list_files target recursive s) as [s0 files|s0 e]; simpl in Hls; subst s0;
      [|by left].
    apply for_each_new. intros f s1 n1.
    unfold organize_one_by_type. cbn [negb]. apply dry_body_new.
  - unfold organize_by_date, bind. pose proof (list_files_state target recursive s) as Hls.
    destruct (list_files target recursive s) as [s0 files|s0 e]; simpl in Hls; subst s0;
      [|by left].
    apply for_each_new. intros f s1 n1.
    unfold organize_one_by_date. unfold bind at 1.
    pose proof (stat_state f s1) as Hst.
    destruct (fs.stat f s1) as [s2 st|s2 e]; simpl in Hst; subst s2; [|by left].
    cbn [negb]. apply dry_body_new.
Qed.

End dry_run.

(** X10. A dry run, by type or by date, returning or raising, adds
    directories to the file system and does nothing else: every entry is
    left as it was, and where there was none there is none afterwards, or a
    directory. *)
Theorem organize_dry_run_adds_directories_only (now : string) (target : path)
    (ext_map : ExtMap) (recursive : bool) (s : FS) (p : path) :
  let typed := final_state (organize_by_type now target ext_map true recursive s) in
  let dated := final_state (organize_by_date now target true recursive s) in
  match s !! p with
  | Some n => typed !! p = Some n ∧ dated !! p = Some n
  | None => (typed !! p = None ∨ typed !! p = Some NDir) ∧
            (dated !! p = None ∨ dated !! p = Some NDir)
  end.
Proof.
  cbv zeta. destruct (s !! p) as [n|] eqn:Hp.
  - by apply organize_dry_run_keeps_entries.
  - split.
    + destruct (final_state (organize_by_type _ _ _ _ _ _) !! p) as [n|] eqn:Hn; [|by left].
      destruct (organize_dry_run_new_entries now target ext_map recursive s p n) as [Hnew _].
      destruct (Hnew Hn) as [Hs| ->]; [congruence|by right].
    + destruct (final_state (organize_by_date _ _ _ _ _) !! p) as [n|] eqn:Hn; [|by left].
      destruct (organize_dry_run_new_entries now target ext_map recursive s p n) as [_ Hnew].
      destruct (Hnew Hn) as [Hs| ->]; [congruence|by right].
Qed.

(** C1: a dry run moves no file but still makes the destination
    directories.  On [/t] holding [a.jpg] alone, the dry run by type leaves
    [a.jpg] where it was and creates [/t/Images], and the dry run by date
    creates [/t/2024-03]; a second dry run proposes the same destination. *)
Theorem organize_dry_run_makes_directories :
  sample.fresh !! ["t"; "Images"] = None ∧
  final_state (organize_by_type "now" ["t"] DEFAULT_EXT_MAP true false sample.fresh)
    !! ["t"; "Images"] = Some NDir ∧
  final_state (organize_by_type "now" ["t"] DEFAULT_EXT_MAP true false sample.fresh)
    !! ["t"; "a.jpg"] = sample.fresh !! ["t"; "a.jpg"] ∧
  sample.fresh !! ["t"; "2024-03"] = None ∧
  final_state (organize_by_date "now" ["t"] true false sample.fresh)
    !! ["t"; "2024-03"] = Some NDir ∧
  proposed (organize_by_type "now" ["t"] DEFAULT_EXT_MAP true false sample.fresh)
    = Some ["/t/Images/a.jpg"] ∧
  proposed (organize_by_type "now" ["t"] DEFAULT_EXT_MAP true false
              (final_state (organize_by_type "now" ["t"] DEFAULT_EXT_MAP true false
                              sample.fresh)))
    = Some ["/t/Images/a.jpg"].
Proof. vm_compute. done. Qed.

(** * Further properties *)

(** ** Undo engine: what the history can become *)

Section undo_frame.



End undo_frame.


(** ** More on the path allocator and the classifier *)

(** X4. The path [make_unique_path] returns never exists, lies in the
    directory of the wanted path, and is left alone when allocated again. *)
Theorem make_unique_path_free_sibling (s : FS) (dest : path) :
  s !! make_unique_path s dest = None ∧
  parent (make_unique_path s dest) = parent dest ∧
  make_unique_path s (make_unique_path s dest) = make_unique_path s dest.
Proof.
  pose proof (make_unique_path_fresh s dest) as Hfresh. split_and!; [done| |].
  - destruct (make_unique_path_cases s dest) as [[_ ->]|(_ & k & _ & -> & _)]; [done|].
    apply parent_joinpath.
  - unfold make_unique_path at 1. apply exists_false in Hfresh. by rewrite Hfresh.
Qed.

(** X5. The category found is always a key of the map or "Others", and a
    category found in a map is still the one found after more entries are
    added behind it. *)
Theorem find_category_by_ext_closed (ext_map more : ExtMap) (ext : string) :
  (find_category_by_ext ext_map ext ∈ ext_map.*1 ∨
   find_category_by_ext ext_map ext = "Others") ∧
  (Exists (lists (Str.lower ext)) ext_map →
   find_category_by_ext (ext_map ++ more) ext = find_category_by_ext ext_map ext).
Proof.
  unfold find_category_by_ext. split; [apply first_category_in|].
  intros (pre & cat & exts & post & -> & Hin & Hpre)%first_category_split.
  rewrite <-app_assoc. rewrite (first_category_skip pre) by done.
  rewrite (first_category_skip pre) by done. simpl.
  by rewrite bool_decide_eq_true_2.
Qed.

(** X19. Lowering an extension before it is classified changes nothing:
    [find_category_by_ext] lowers it again, and lowering twice is lowering
    once.  So the dashboard, which passes the suffix as it is, counts a file
    under the very category [organize_by_type], which lowers the suffix
    first, files it under. *)
Theorem find_category_by_ext_lowered (ext_map : ExtMap) :
  (∀ ext, find_category_by_ext ext_map (Str.lower ext)
          = find_category_by_ext ext_map ext) ∧
  (∀ f x, category_of ext_map f = folder_of by_type ext_map f x).
Proof.
  assert (∀ ext, find_category_by_ext ext_map (Str.lower ext)
                 = find_category_by_ext ext_map ext) as Hlow.
  { intros ext. unfold find_category_by_ext. by rewrite lower_idemp. }
  split; [done|]. intros f x. unfold category_of, folder_of. by rewrite Hlow.
Qed.

(** ** Hashing in blocks *)

Section blocks.

Lemma string_app_nil_r (a : string) : a +:+ EmptyString = a.
Proof.
  induction a as [|c a IH]; [done|].
  change (String c a +:+ EmptyString) with (String c (a +:+ EmptyString)). by rewrite IH.
Qed.

Lemma string_app_assoc (a b c : string) : (a +:+ b) +:+ c = a +:+ (b +:+ c).
Proof.
  induction a as [|x a IH]; [done|].
  change ((String x a +:+ b) +:+ c) with (String x ((a +:+ b) +:+ c)). by rewrite IH.
Qed.

(** A string is its first [n] characters followed by the rest. *)
Lemma substring_split (n : nat) (s : string) :
  String.substring 0 n s +:+ String.substring n (String.length s - n) s = s.
Proof.
  revert n. induction s as [|c s IH]; intros [|n]; simpl; try done.
  - change (EmptyString +:+ String c (String.substring 0 (String.length s) s))
      with (String c (String.substring 0 (String.length s) s)).
    by rewrite substring_all.
  - change (String c (String.substring 0 n s) +:+
              String.substring n (String.length s - n) s)
      with (String c (String.substring 0 n s +:+
                        String.substring n (String.length s - n) s)).
    by rewrite IH.
Qed.

Lemma substring_head_nonempty (n : nat) (s : string) :
  0 < n → s ≠ EmptyString → String.substring 0 n s ≠ EmptyString.
Proof. intros Hn Hs. destruct s; [done|]. destruct n; [lia|done]. Qed.

(** Feeding the blocks one after the other feeds the whole string. *)
Lemma read_blocks_feed (fuel bs : nat) (data acc : string) :
  0 < bs → String.length data < fuel →
  foldl (λ a chunk, a +:+ chunk) acc (read_blocks fuel bs data) = acc +:+ data.
Proof.
  intros Hbs. revert data acc.
  induction fuel as [|fuel IH]; intros data acc Hlen; [lia|].
  cbn [read_blocks]. case_decide as Hchunk.
  - destruct (decide (data = EmptyString)) as [->|Hne].
    + simpl. by rewrite string_app_nil_r.
    + by apply (substring_head_nonempty bs) in Hne.
  - cbn [foldl].
    pose proof (substring_split bs data) as Hsplit.
    set (chunk := String.substring 0 bs data) in *.
    set (rest := String.substring bs (String.length data - bs) data) in *.
    assert (String.length rest < fuel) as Hrest.
    { apply (f_equal String.length) in Hsplit. rewrite string_app_length in Hsplit.
      assert (0 < String.length chunk) by (destruct chunk; [done|simpl; lia]). lia. }
    rewrite (IH rest _ Hrest), string_app_assoc. by rewrite Hsplit.
Qed.

Lemma fed_bytes_all (data : string) : fed_bytes data = data.
Proof.
  unfold fed_bytes. apply (read_blocks_feed _ block_size data EmptyString); [|lia].
  unfold block_size. pose proof (Nat.pow_nonzero 2 16). lia.
Qed.

End blocks.

(** X7. Reading a file in blocks of 64 KiB gives the digest of its whole
    content: [get_file_hash] is the MD5 digest of the bytes of a regular
    file that can be read, and [None] for anything else (a missing path, a
    directory, a file that cannot be opened). *)
Theorem get_file_hash_whole_content (s : FS) (p : path) :
  get_file_hash s p = md5.hexdigest <$> fs.read_bytes s p ∧
  (is_Some (get_file_hash s p) ↔
   ∃ f, s !! p = Some (NFile f) ∧ f_readable f = true).
Proof.
  unfold get_file_hash, fs.read_bytes. split.
  - destruct (s !! p) as [[f|]|]; [|done..].
    destruct (f_readable f); [|done]. simpl. by rewrite fed_bytes_all.
  - destruct (s !! p) as [[f|]|].
    + destruct (f_readable f) eqn:Hr.
      * split; [eauto|done].
      * split; [by intros []|]. intros (f' & [= <-] & ?). congruence.
    + split; [by intros []|]. by intros (f' & [=] & ?).
    + split; [by intros []|]. by intros (f' & [=] & ?).
Qed.

(** ** More on the duplicate finder *)

Section reports.

Lemma two_members {A : Type} (l : list A) (x y : A) :
  x ∈ l → y ∈ l → x ≠ y → 2 ≤ length l.
Proof.
  intros Hx Hy Hne. destruct l as [|a [|b l]]; simpl; [|exfalso|lia].
  - by apply elem_of_nil in Hx.
  - apply list_elem_of_singleton in Hx, Hy. congruence.
Qed.

(** What [find_duplicates] returns, by digest. *)
Lemma find_duplicates_lookup (target : path) (recursive : bool) (s : FS)
    (files : list path) :
  list_files target recursive s = Returned s files →
  ∃ dups, find_duplicates target recursive s = Returned s dups ∧
          ∀ h paths, dups !! h = Some paths ↔
                     paths = group_of s files h ∧ 2 ≤ length paths.
Proof.
  intros Hls. unfold find_duplicates, bind. rewrite Hls.
  eexists. split; [reflexivity|].
  intros h paths. rewrite map_lookup_filter_Some, lookup_hash_map, lookup_empty. simpl.
  case_decide as Hg.
  - split; [by intros [? _]|]. intros [-> Hlen]. rewrite Hg in Hlen. simpl in Hlen. lia.
  - split.
    + intros [[= <-] Hlen]. split; [done|lia].
    + intros [-> Hlen]. split; [done|lia].
Qed.

End reports.

(** X8. No pair of duplicates is missed, and nothing else is reported: two
    different listed files that read the same bytes are in one group, filed
    under the digest of those bytes; and every path of every group is a
    listed file whose digest is the key of the group. *)
Theorem find_duplicates_complete (target : path) (recursive : bool) (s : FS)
    (files : list path) :
  list_files target recursive s = Returned s files →
  ∃ dups,
    find_duplicates target recursive s = Returned s dups ∧
    (∀ f1 f2 data,
       f1 ∈ files → f2 ∈ files → f1 ≠ f2 →
       fs.read_bytes s f1 = Some data → fs.read_bytes s f2 = Some data →
       ∃ paths, dups !! md5.hexdigest data = Some paths ∧
                str f1 ∈ paths ∧ str f2 ∈ paths) ∧
    (∀ h paths p,
       dups !! h = Some paths → p ∈ paths →
       ∃ f, f ∈ files ∧ p = str f ∧ get_file_hash s f = Some h).
Proof.
  intros Hls. destruct (find_duplicates_lookup _ _ _ _ Hls) as (dups & Hrun & Hchar).
  exists dups. split_and!; [done| |].
  - intros f1 f2 data Hf1 Hf2 Hne Hr1 Hr2.
    assert (∀ f, f ∈ files → fs.read_bytes s f = Some data →
                 f ∈ filter (λ f, digest_of s f = Some (md5.hexdigest data)) files) as Hin.
    { intros f Hf Hr. apply list_elem_of_filter. split; [|done].
      rewrite digest_of_hash. destruct (get_file_hash_whole_content s f) as [-> _].
      by rewrite Hr. }
    exists (group_of s files (md5.hexdigest data)). split_and!.
    + apply Hchar. split; [done|]. unfold group_of. rewrite length_fmap.
      by apply (two_members _ f1 f2); [apply Hin..|].
    + unfold group_of. apply list_elem_of_fmap. exists f1. split; [done|by apply Hin].
    + unfold group_of. apply list_elem_of_fmap. exists f2. split; [done|by apply Hin].
  - intros h paths p [-> _]%Hchar Hp. unfold group_of in Hp.
    apply list_elem_of_fmap in Hp as (f & -> & [Hd Hf]%list_elem_of_filter).
    exists f. split_and!; [done..|]. by rewrite <-digest_of_hash.
Qed.

Lemma find_duplicates_complete_witness :
  ∃ dups,
    find_duplicates ["t"] false sample.triple = Returned sample.triple dups ∧
    (∀ f1 f2 data,
       f1 ∈ [["t"; "c.txt"]; ["t"; "b.txt"]; ["t"; "a.txt"]] →
       f2 ∈ [["t"; "c.txt"]; ["t"; "b.txt"]; ["t"; "a.txt"]] → f1 ≠ f2 →
       fs.read_bytes sample.triple f1 = Some data →
       fs.read_bytes sample.triple f2 = Some data →
       ∃ paths, dups !! md5.hexdigest data = Some paths ∧
                str f1 ∈ paths ∧ str f2 ∈ paths) ∧
    (∀ h paths p,
       dups !! h = Some paths → p ∈ paths →
       ∃ f, f ∈ [["t"; "c.txt"]; ["t"; "b.txt"]; ["t"; "a.txt"]] ∧ p = str f ∧
            get_file_hash sample.triple f = Some h).
Proof.
  apply (find_duplicates_complete ["t"] false sample.triple). reflexivity.
Defined.

(** ** More on the stats aggregator *)

Section totals.

Lemma count_total_insert_new (cnts : gmap string nat) (k : string) (c : nat) :
  cnts !! k = None → count_total (<[k := c]> cnts) = c + count_total cnts.
Proof.
  intros Hk. unfold count_total. apply (map_fold_insert_L (λ _ c acc, c + acc)); [|done].
  intros. lia.
Qed.

Lemma count_total_delete (cnts : gmap string nat) (k : string) (c : nat) :
  cnts !! k = Some c → count_total cnts = c + count_total (delete k cnts).
Proof.
  intros Hk. unfold count_total. apply (map_fold_delete_L (λ _ c acc, c + acc)); [|done].
  intros. lia.
Qed.

(** Counting one more under an existing key adds one to the sum. *)
Lemma count_total_bump (cnts : gmap string nat) (k : string) (c : nat) :
  cnts !! k = Some c → count_total (<[k := c + 1]> cnts) = count_total cnts + 1.
Proof.
  intros Hk. rewrite <-insert_delete_eq.
  rewrite count_total_insert_new by apply lookup_delete_eq.
  rewrite (count_total_delete cnts k c Hk). lia.
Qed.

Lemma count_total_zero (cnts : gmap string nat) :
  (∀ k c, cnts !! k = Some c → c = 0) → count_total cnts = 0.
Proof.
  induction cnts as [|k c cnts Hk IH] using map_ind; intros Hzero.
  - unfold count_total. by rewrite map_fold_empty.
  - rewrite count_total_insert_new by done.
    rewrite (Hzero k c) by apply lookup_insert_eq.
    rewrite IH; [done|]. intros k' c' Hk'. apply (Hzero k').
    rewrite lookup_insert_ne; [done|]. intros <-. congruence.
Qed.

Lemma stats_loop_total (ext_map : ExtMap) (files : list path)
    (cnts : gmap string nat) (n size : nat) (s : FS) :
  (∀ f, is_Some (cnts !! category_of ext_map f)) →
  ∃ cnts' size',
    stats_loop ext_map (cnts, n, size) files s = Returned s (cnts', n + length files, size') ∧
    count_total cnts' = count_total cnts + length files.
Proof.
  revert cnts n size. induction files as [|f files IH]; intros cnts n size Hdom.
  - exists cnts, size. split; [|simpl; lia].
    simpl. unfold ret. by rewrite Nat.add_0_r.
  - destruct (Hdom f) as [c Hc].
    assert (∀ g, is_Some (<[category_of ext_map f := c + 1]> cnts !! category_of ext_map g))
      as Hdom'.
    { intros g. destruct (decide (category_of ext_map g = category_of ext_map f)) as [->|Hne].
      - by rewrite lookup_insert_eq.
      - rewrite lookup_insert_ne by done. apply Hdom. }
    cbn [stats_loop]. unfold bind at 1. unfold stats_one.
    fold (category_of ext_map f). rewrite Hc. cbn [lift]. unfold bind at 1. unfold ret at 1.
    pose proof (stat_state f s) as Hst.
    destruct (fs.stat f s) as [s1 st|s1 e]; simpl in Hst; subst s1.
    + destruct (IH _ (n + 1) (size + st.1) Hdom') as (cnts' & size' & -> & Hsum).
      exists cnts', size'. split; [simpl; do 3 f_equal; lia|].
      rewrite Hsum, (count_total_bump _ _ _ Hc). simpl. lia.
    + destruct (IH _ (n + 1) size Hdom') as (cnts' & size' & -> & Hsum).
      exists cnts', size'. split; [simpl; do 3 f_equal; lia|].
      rewrite Hsum, (count_total_bump _ _ _ Hc). simpl. lia.
Qed.

End totals.

(** X9. The counts [gather_stats_for_dashboard] returns add up to its
    total: every listed file is counted under exactly one category. *)
Theorem gather_stats_counts_add_up (target : path) (ext_map : ExtMap)
    (recursive : bool) (s s' : FS) (st : Stats) :
  gather_stats_for_dashboard target ext_map recursive s = Returned s' st →
  count_total (counts st) = total_files st.
Proof.
  unfold gather_stats_for_dashboard, bind.
  pose proof (list_files_state target recursive s) as Hls.
  destruct (list_files target recursive s) as [s0 files|s0 e]; simpl in Hls; subst s0; [|done].
  destruct (stats_loop_total ext_map files (initial_counts ext_map) 0 0 s)
    as (cnts' & size' & -> & Hsum); [apply category_of_counted|].
  unfold ret. intros [= <- <-]. simpl. rewrite Hsum.
  rewrite count_total_zero; [done|].
  intros k c. rewrite lookup_initial_counts. case_decide; [|done]. by intros [= <-].
Qed.

Lemma gather_stats_counts_add_up_witness :
  count_total
    (counts (default {| total_files := 0; total_size_mb := 0; counts := ∅ |}
               (returned (gather_stats_for_dashboard ["t"] DEFAULT_EXT_MAP true
                            sample.nested))))
  = 2.
Proof.
  apply (gather_stats_counts_add_up ["t"] DEFAULT_EXT_MAP true sample.nested sample.nested
           (default {| total_files := 0; total_size_mb := 0; counts := ∅ |}
              (returned (gather_stats_for_dashboard ["t"] DEFAULT_EXT_MAP true
                           sample.nested)))).
  reflexivity.
Defined.

(** ** Configuration *)

Section configuration.

Lemma starts_with_dot_lower (e : string) :
  starts_with_dot e = true → starts_with_dot (Str.lower e) = true.
Proof.
  destruct e as [|c e]; [done|]. simpl. intros ->%bool_decide_eq_true. done.
Qed.

Lemma normalize_ext_normal (e : string) : normal_ext (normalize_ext e).
Proof.
  unfold normal_ext, normalize_ext. destruct (starts_with_dot e) eqn:Hdot.
  - split; [by apply starts_with_dot_lower|apply lower_idemp].
  - split; [done|apply lower_dot].
Qed.

Lemma normalize_ext_idemp (e : string) : normalize_ext (normalize_ext e) = normalize_ext e.
Proof.
  destruct (normalize_ext_normal e) as [Hdot Hlow].
  unfold normalize_ext at 1. by rewrite Hdot.
Qed.

Lemma normalize_all_normal (items : list json) (exts : list string) :
  normalize_all items = inr exts → Forall normal_ext exts.
Proof.
  revert exts. induction items as [|[| | |x| |] items IH]; intros exts; simpl; try done.
  - by intros [= <-].
  - destruct (normalize_all items) as [|exts']; [done|]. intros [= <-].
    constructor; [apply normalize_ext_normal|by apply IH].
Qed.

Lemma dict_set_normal (k : string) (exts : list string) (norm : ExtMap) :
  Forall normal_ext exts → normal_map norm → normal_map (dict_set k exts norm).
Proof.
  intros Hexts. unfold normal_map.
  induction 1 as [|[k' exts'] norm Hce Hnorm IH]; simpl.
  - constructor; [done|constructor].
  - case_decide; constructor; done.
Qed.

Lemma normalize_entries_normal (entries : list (string * json)) (norm res : ExtMap) :
  normal_map norm → normalize_entries entries norm = inr res → normal_map res.
Proof.
  revert norm. induction entries as [|[k v] entries IH]; intros norm Hnorm; simpl.
  - by intros [= <-].
  - destruct (iterate v) as [|items]; [done|].
    destruct (normalize_all items) as [|exts] eqn:Hall; [done|].
    apply IH. apply dict_set_normal; [|done]. by eapply normalize_all_normal.
Qed.

Lemma dict_set_new (k : string) (exts : list string) (norm : ExtMap) :
  k ∉ norm.*1 → dict_set k exts norm = norm ++ [(k, exts)].
Proof.
  induction norm as [|[k' exts'] norm IH]; simpl; [done|].
  intros Hk. rewrite decide_False.
  - rewrite IH; [done|]. intros ?. apply Hk. by right.
  - intros ->. apply Hk. by left.
Qed.

Lemma normalize_all_strings (exts : list string) :
  normalize_all (JStr <$> exts) = inr (normalize_ext <$> exts).
Proof.
  induction exts as [|e exts IH]; [done|].
  rewrite !fmap_cons. cbn [normalize_all]. by rewrite IH.
Qed.

Lemma normalize_entries_shaped (cfg norm : list (string * list string)) :
  NoDup (norm.*1 ++ cfg.*1) →
  normalize_entries
      ((λ ce : string * list string, (ce.1, JList (JStr <$> ce.2))) <$> cfg) norm
    = inr (norm ++ ((λ ce : string * list string,
                       (ce.1, normalize_ext <$> ce.2)) <$> cfg)).
Proof.
  revert norm. induction cfg as [|[k exts] cfg IH]; intros norm Hnd.
  - simpl. by rewrite app_nil_r.
  - rewrite !fmap_cons. cbn [normalize_entries iterate fst snd].
    rewrite normalize_all_strings.
    assert (k ∉ norm.*1) as Hk.
    { apply NoDup_app in Hnd as (_ & Hdisj & _). intros Hin. apply (Hdisj k Hin). by left. }
    rewrite dict_set_new by done. rewrite IH.
    + by rewrite <-app_assoc.
    + rewrite fmap_app. simpl. rewrite <-app_assoc. done.
Qed.

Lemma default_map_normal : normal_map DEFAULT_EXT_MAP.
Proof. unfold normal_map, DEFAULT_EXT_MAP. repeat constructor. Qed.

End configuration.

(** X11. Every map [load_config] returns, loaded or default, holds only
    dotted extensions in lower case, which is what [find_category_by_ext]
    compares the lowered extension of a file with; whenever the warning is
    shown the map returned is the default one; and [load_config] raises
    only when the test for the file itself does. *)
Theorem load_config_normal (config : artifact) :
  match load_config config with
  | inr (ext_map, warned) =>
      normal_map ext_map ∧
      (warned = true → ext_map = DEFAULT_EXT_MAP) ∧
      (config = Absent → ext_map = DEFAULT_EXT_MAP ∧ warned = false)
  | inl e => config = Denied ∧ e = PermissionError
  end.
Proof.
  destruct config as [| | |data|]; cbn [load_config];
    try (split_and!; [apply default_map_normal|done..]); [|done].
  destruct (normalize_config data) as [|norm] eqn:Hnorm;
    [split_and!; [apply default_map_normal|done..]|].
  split_and!; [|done..].
  destruct data; try done. simpl in Hnorm.
  eapply normalize_entries_normal; [|done]. constructor.
Qed.

(** X12. A configuration of the documented shape (categories with lists of
    extension strings, no category twice) is loaded category by category, in
    order, each extension lowered and dotted, without a warning.  An
    extension whose lower-case form is what a listed extension was loaded as
    is then classified by the first category that lists one loaded like
    that. *)
Theorem load_config_classifies (cfg : list (string * list string)) :
  NoDup cfg.*1 →
  let loaded := (λ ce : string * list string, (ce.1, normalize_ext <$> ce.2)) <$> cfg in
  load_config (Doc (config_json cfg)) = inr (loaded, false) ∧
  ∀ pre cat exts post x e,
    cfg = pre ++ (cat, exts) :: post →
    x ∈ exts →
    Forall (λ ce : string * list string,
              Forall (λ y, normalize_ext y ≠ normalize_ext x) ce.2) pre →
    Str.lower e = normalize_ext x →
    find_category_by_ext loaded e = cat.
Proof.
  intros Hnd loaded. split.
  { unfold load_config, config_json, normalize_config.
    by rewrite (normalize_entries_shaped cfg []). }
  intros pre cat exts post x e -> Hx Hpre He. subst loaded.
  unfold find_category_by_ext. rewrite fmap_app, fmap_cons.
  rewrite first_category_skip.
  - cbn [first_category fst snd]. rewrite bool_decide_eq_true_2; [done|].
    rewrite He. apply list_elem_of_fmap. eauto.
  - apply Forall_fmap. eapply Forall_impl; [exact Hpre|].
    intros [k exts'] Hk. unfold lists. simpl in *. rewrite He.
    intros (y & Hy & Hin)%list_elem_of_fmap.
    rewrite Forall_forall in Hk. by apply (Hk y Hin).
Qed.

Lemma load_config_classifies_witness :
  let loaded := (λ ce : string * list string, (ce.1, normalize_ext <$> ce.2))
                  <$> [("Pics", ["JPG"; ".Png"]); ("Docs", ["txt"])] in
  load_config (Doc (config_json [("Pics", ["JPG"; ".Png"]); ("Docs", ["txt"])]))
    = inr (loaded, false) ∧
  ∀ pre cat exts post x e,
    [("Pics", ["JPG"; ".Png"]); ("Docs", ["txt"])] = pre ++ (cat, exts) :: post →
    x ∈ exts →
    Forall (λ ce : string * list string,
              Forall (λ y, normalize_ext y ≠ normalize_ext x) ce.2) pre →
    Str.lower e = normalize_ext x →
    find_category_by_ext loaded e = cat.
Proof.
  apply (load_config_classifies [("Pics", ["JPG"; ".Png"]); ("Docs", ["txt"])]).
  apply (bool_decide_unpack _). vm_compute. exact I.
Defined.

Example load_config_classifies_png :
  load_config (Doc (config_json [("Pics", ["JPG"; ".Png"]); ("Docs", ["txt"])]))
    = inr ([("Pics", [".jpg"; ".png"]); ("Docs", [".txt"])], false) ∧
  find_category_by_ext [("Pics", [".jpg"; ".png"]); ("Docs", [".txt"])] ".PNG" = "Pics".
Proof. vm_compute. done. Qed.

(** ** Where a live run puts the files *)

Section placement.

Implicit Types (s : FS) (f dest : path).

Lemma make_unique_path_parent (s : FS) (dest : path) (n : string) :
  parent (make_unique_path s (dest // n)) = dest.
Proof.
  destruct (make_unique_path_cases s (dest // n)) as [[_ ->]|(_ & k & _ & -> & _)].
  - apply parent_joinpath.
  - unfold candidate. by rewrite !parent_joinpath.
Qed.

(** The common end of both loop bodies in a live run: the file ends, as it
    is, at a destination in the directory made, at which nothing was. *)
Lemma allocate_and_move_places (now : string) (f dest_dir : path) (x : file)
    (s s1 s' : FS) (m : MoveRecord) :
  s !! f = Some (NFile x) →
  fs.mkdir dest_dir s = Returned s1 tt →
  (let dest := make_unique_path s1 (dest_dir // name f) in
   bind (fs.shutil_move f dest)
        (λ _, ret {| mv_src := str f; mv_dst := str dest;
                     mv_time := now; mv_dry := false |})) s1 = Returned s' m →
  mv_src m = str f ∧
  ∃ dest, mv_dst m = str dest ∧ parent dest = dest_dir ∧ s !! dest = None ∧
          s' !! dest = Some (NFile x) ∧
          (∀ g y, g ≠ f → s !! g = Some y → s' !! g = Some y).
Proof.
  intros Hf Hmk. cbv zeta.
  set (dest := make_unique_path s1 (dest_dir // name f)).
  assert (s1 !! dest = None) as Hfresh by apply make_unique_path_fresh.
  assert (s !! dest = None) as Hnew.
  { destruct (s !! dest) as [y|] eqn:Hd; [|done].
    apply (mkdir_preserves _ _ _ _ _ Hmk) in Hd. congruence. }
  unfold bind. destruct (fs.shutil_move f dest s1) as [s2 []|] eqn:Hmove; [|done].
  unfold ret. intros [= <- <-]. split; [done|]. exists dest.
  pose proof (mkdir_preserves _ _ _ _ _ Hmk Hf) as Hf1.
  rewrite (shutil_move_file _ _ _ _ _ Hf1 Hfresh Hmove).
  split_and!; [done|apply make_unique_path_parent|done|by rewrite lookup_insert_eq|].
  intros g y Hgf Hg. apply (mkdir_preserves _ _ _ _ _ Hmk) in Hg.
  rewrite lookup_insert_ne by congruence. by rewrite lookup_delete_ne.
Qed.

Context (body : path → py FS MoveRecord) (dir_of : path → file → path).
Context (Hplace : ∀ f x s s' m,
  s !! f = Some (NFile x) → body f s = Returned s' m →
  mv_src m = str f ∧
  ∃ dest, mv_dst m = str dest ∧ parent dest = dir_of f x ∧ s !! dest = None ∧
          s' !! dest = Some (NFile x) ∧
          (∀ g y, g ≠ f → s !! g = Some y → s' !! g = Some y)).

Lemma for_each_places (files : list path) (s s' : FS) (moves : list MoveRecord) :
  NoDup files → (∀ f, f ∈ files → fs.is_file s f = true) →
  for_each body files s = Returned s' moves →
  ∃ dests,
    mv_src <$> moves = str <$> files ∧
    mv_dst <$> moves = str <$> dests ∧
    NoDup dests ∧
    (∀ d, d ∈ dests → s !! d = None ∨ d ∈ files) ∧
    (∀ i f d, files !! i = Some f → dests !! i = Some d →
       ∃ x, s !! f = Some (NFile x) ∧ parent d = dir_of f x ∧
            s' !! d = Some (NFile x)) ∧
    (∀ g y, g ∉ files → s !! g = Some y → s' !! g = Some y).
Proof.
  revert s moves. induction files as [|f files IH]; intros s moves Hnd Hfiles.
  - intros [= <- <-]. exists []. split_and!; try done.
    intros d Hd. by apply elem_of_nil in Hd.
  - rewrite for_each_cons.
    destruct (body f s) as [s1 m|] eqn:Hbody; [|done].
    destruct (for_each body files s1) as [s2 ms|] eqn:Hrest; [|done].
    intros [= <- <-]. apply NoDup_cons in Hnd as [Hf Hnd].
    assert (fs.is_file s f = true) as [x Hx]%is_file_Some by (apply Hfiles; by left).
    destruct (Hplace f x s s1 m Hx Hbody)
      as (Hsrc & dest & Hdst & Hpar & Hnew & Hthere & Hkeep).
    assert (∀ g, g ∈ files → ∃ y, s !! g = Some (NFile y) ∧ s1 !! g = Some (NFile y))
      as Hlater.
    { intros g Hg.
      assert (fs.is_file s g = true) as [y Hy]%is_file_Some
        by (apply Hfiles; by right).
      exists y. split; [done|]. apply Hkeep; [|done]. by intros ->. }
    destruct (IH s1 ms Hnd) as (dests & Hsrcs & Hdsts & Hnd' & Hfree & Hput & Hrest');
      [|done|].
    { intros g Hg. apply is_file_Some. destruct (Hlater g Hg) as (y & _ & Hy). eauto. }
    assert (dest ∉ files) as Hdest.
    { intros Hin. destruct (Hlater dest Hin) as (y & Hy & _). congruence. }
    exists (dest :: dests). split_and!.
    + by rewrite !fmap_cons, Hsrc, Hsrcs.
    + by rewrite !fmap_cons, Hdst, Hdsts.
    + apply NoDup_cons. split; [|done]. intros Hin.
      destruct (Hfree dest Hin) as [Hnone|Hin']; [congruence|done].
    + intros d [->|Hd]%elem_of_cons; [by left|].
      destruct (Hfree d Hd) as [Hnone|Hin]; [|right; by right].
      destruct (decide (d = f)) as [->|Hdf]; [right; by left|]. left.
      destruct (s !! d) as [y|] eqn:Hsd; [|done].
      apply Hkeep in Hsd; [congruence|done].
    + intros [|i] g d; simpl.
      * intros [= <-] [= <-]. exists x. split_and!; [done..|]. by apply Hrest'.
      * intros Hg Hd. destruct (Hput i g d Hg Hd) as (y & Hy & Hpary & Hsy).
        exists y. split_and!; [|done..].
        destruct (Hlater g) as (z & Hz & Hz1); [by eapply list_elem_of_lookup_2|].
        congruence.
    + intros g y [Hgf Hg]%not_elem_of_cons Hsg. apply Hrest'; [done|]. by apply Hkeep.
Qed.

End placement.

(** X13. A live run of [organize_by_type] that returns, over files whose
    categories are plain names (one component of a path: not empty, no
    slash, neither [.] nor [..]), has put every listed file, with its
    content and attributes, at the destination its record names; the
    destination lies in the directory of the file's category under the
    target; no two files went to the same destination; and every entry that
    was not a listed file is where it was. *)
Theorem organize_by_type_places_files (now : string) (target : path)
    (ext_map : ExtMap) (recursive : bool) (s s' : FS) (files : list path)
    (moves : list MoveRecord) :
  list_files target recursive s = Returned s files →
  (∀ f x, f ∈ files → s !! f = Some (NFile x) →
          plain_name (folder_of by_type ext_map f x) = true) →
  organize_by_type now target ext_map false recursive s = Returned s' moves →
  ∃ dests,
    mv_src <$> moves = str <$> files ∧
    mv_dst <$> moves = str <$> dests ∧
    NoDup dests ∧
    (∀ i f d, files !! i = Some f → dests !! i = Some d →
       ∃ x, s !! f = Some (NFile x) ∧ s' !! d = Some (NFile x) ∧
            parent d = target // folder_of by_type ext_map f x) ∧
    (∀ g y, g ∉ files → s !! g = Some y → s' !! g = Some y).
Proof.
  intros Hls _. unfold organize_by_type, bind. rewrite Hls. intros Hrun.
  destruct (list_files_spec _ _ _ _ Hls) as [Hnd Hfiles].
  destruct (for_each_places (organize_one_by_type now target ext_map false)
              (λ f x, target // folder_of by_type ext_map f x)) with files s s' moves
    as (dests & Hsrcs & Hdsts & Hnd' & _ & Hput & Hrest); [|done..|].
  { intros f x s1 s2 m Hf. unfold organize_one_by_type. unfold bind at 1.
    destruct (fs.mkdir _ s1) as [s3 []|] eqn:Hmk; [|done].
    unfold bind at 1, get. cbn [negb folder_of]. intros Hbody.
    by eapply (allocate_and_move_places now f). }
  exists dests. split_and!; [done..| |done].
  intros i f d Hf Hd. destruct (Hput i f d Hf Hd) as (x & Hx & Hpar & Hthere). eauto.
Qed.

Lemma organize_by_type_places_files_witness :
  ∃ dests,
    mv_src <$> sample.nested_moves = str <$> sample.nested_files ∧
    mv_dst <$> sample.nested_moves = str <$> dests ∧
    NoDup dests ∧
    (∀ i f d, sample.nested_files !! i = Some f → dests !! i = Some d →
       ∃ x, sample.nested !! f = Some (NFile x) ∧
            w_fs sample.organized !! d = Some (NFile x) ∧
            parent d = ["t"] // folder_of by_type DEFAULT_EXT_MAP f x) ∧
    (∀ g y, g ∉ sample.nested_files → sample.nested !! g = Some y →
            w_fs sample.organized !! g = Some y).
Proof.
  apply (organize_by_type_places_files "now" ["t"] DEFAULT_EXT_MAP true
           sample.nested (w_fs sample.organized) sample.nested_files
           sample.nested_moves).
  - reflexivity.
  - intros f x Hf _. unfold sample.nested_files in Hf.
    apply elem_of_cons in Hf as [->|Hf]; [|apply elem_of_cons in Hf as [->|Hf]].
    + by vm_compute.
    + by vm_compute.
    + by apply elem_of_nil in Hf.
  - reflexivity.
Defined.

(** X14. A live run of [organize_by_date] that returns has put every listed
    file, with its content and attributes, at the destination its record
    names; the destination lies in the directory named by the year and the
    two-digit month of the file's modification time, under the target; no
    two files went to the same destination; and every entry that was not a
    listed file is where it was. *)
Theorem organize_by_date_places_files (now : string) (target : path)
    (recursive : bool) (s s' : FS) (moves : list MoveRecord) :
  organize_by_date now target false recursive s = Returned s' moves →
  ∃ files dests,
    list_files target recursive s = Returned s files ∧
    mv_src <$> moves = str <$> files ∧
    mv_dst <$> moves = str <$> dests ∧
    NoDup dests ∧
    (∀ i f d, files !! i = Some f → dests !! i = Some d →
       ∃ x, s !! f = Some (NFile x) ∧ s' !! d = Some (NFile x) ∧
            parent d
              = target // (pretty (f_mtime x).1 +:+ "-" +:+ Str.pad2 (f_mtime x).2)) ∧
    (∀ g y, g ∉ files → s !! g = Some y → s' !! g = Some y).
Proof.
  unfold organize_by_date, bind. intros Hrun.
  pose proof (list_files_state target recursive s) as Hstate.
  destruct (list_files target recursive s) as [s0 files|] eqn:Hls; [|done].
  simpl in Hstate. subst s0.
  destruct (list_files_spec _ _ _ _ Hls) as [Hnd Hfiles].
  destruct (for_each_places (organize_one_by_date now target false)
              (λ _ x, target // (pretty (f_mtime x).1 +:+ "-" +:+ Str.pad2 (f_mtime x).2)))
    with files s s' moves
    as (dests & Hsrcs & Hdsts & Hnd' & _ & Hput & Hrest); [|done..|].
  { intros f x s1 s2 m Hf. unfold organize_one_by_date. unfold bind at 1.
    unfold fs.stat at 1. rewrite Hf. destruct (f_statable x); [|done].
    unfold bind at 1.
    destruct (fs.mkdir _ s1) as [s3 []|] eqn:Hmk; [|done].
    unfold bind at 1, get. cbn [negb snd fst]. intros Hbody.
    by eapply (allocate_and_move_places now f). }
  exists files, dests. split_and!; [done..| |done].
  intros i f d Hf Hd. destruct (Hput i f d Hf Hd) as (x & Hx & Hpar & Hthere). eauto.
Qed.

Lemma organize_by_date_places_files_witness :
  ∃ files dests,
    list_files ["t"] true sample.nested = Returned sample.nested files ∧
    [ "/t/b.jpg"; "/t/sub/a.jpg" ] = str <$> files ∧
    [ "/t/2024-03/b.jpg"; "/t/2024-03/a.jpg" ] = str <$> dests ∧
    NoDup dests ∧
    (∀ i f d, files !! i = Some f → dests !! i = Some d →
       ∃ x, sample.nested !! f = Some (NFile x) ∧
            final_state (organize_by_date "now" ["t"] false true sample.nested) !! d
              = Some (NFile x) ∧
            parent d
              = ["t"] // (pretty (f_mtime x).1 +:+ "-" +:+ Str.pad2 (f_mtime x).2)) ∧
    (∀ g y, g ∉ files → sample.nested !! g = Some y →
            final_state (organize_by_date "now" ["t"] false true sample.nested) !! g
              = Some y).
Proof.
  apply (organize_by_date_places_files "now" ["t"] true sample.nested
           (final_state (organize_by_date "now" ["t"] false true sample.nested))
           [ {| mv_src := "/t/b.jpg"; mv_dst := "/t/2024-03/b.jpg";
                mv_time := "now"; mv_dry := false |};
             {| mv_src := "/t/sub/a.jpg"; mv_dst := "/t/2024-03/a.jpg";
                mv_time := "now"; mv_dry := false |} ]).
  reflexivity.
Defined.

(** ** The allocator keeps the extension *)

Section extension.

Lemma pretty_N_char_no_dot (x : N) : pretty_N_char x ≠ "."%char.
Proof. unfold pretty_N_char. by repeat case_match. Qed.

Lemma pretty_N_go_no_dot (x : N) (s : string) :
  Str.rfind_dot s = None → Str.rfind_dot (pretty_N_go x s) = None.
Proof.
  revert s. induction (N.lt_wf_0 x) as [x _ IH]; intros s Hs.
  assert (x = 0 ∨ 0 < x)%N as [->|Hpos] by lia.
  - by rewrite pretty_N_go_0.
  - rewrite pretty_N_go_step by done. apply IH; [by apply N.div_lt|].
    simpl. rewrite Hs. rewrite decide_False; [done|apply pretty_N_char_no_dot].
Qed.

Lemma pretty_nat_no_dot (k : nat) : Str.rfind_dot (pretty k) = None.
Proof.
  unfold pretty, pretty_nat, pretty, pretty_N.
  destruct (decide (N.of_nat k = 0%N)); [done|]. by apply pretty_N_go_no_dot.
Qed.

(** A tail without a dot does not move the last dot. *)
Lemma rfind_dot_app_tail (a b : string) :
  Str.rfind_dot b = None → Str.rfind_dot (a +:+ b) = Str.rfind_dot a.
Proof.
  intros Hb. induction a as [|c a IH]; [done|].
  change (String c a +:+ b) with (String c (a +:+ b)). simpl. by rewrite IH.
Qed.

(** A name is cut in two at its last dot. *)
Lemma rfind_dot_split (nm : string) (i : nat) :
  Str.rfind_dot nm = Some i →
  ∃ pre ext, nm = pre +:+ String "." ext ∧ String.length pre = i ∧
             Str.rfind_dot ext = None.
Proof.
  revert i. induction nm as [|c nm IH]; intros i; [done|]. simpl.
  destruct (Str.rfind_dot nm) as [j|] eqn:Hj.
  - intros [= <-]. destruct (IH j eq_refl) as (pre & ext & -> & Hlen & Hext).
    exists (String c pre), ext. split_and!; [done|simpl; by rewrite Hlen|done].
  - destruct (decide (c = "."%char)) as [->|]; [|done]. intros [= <-].
    by exists EmptyString, nm.
Qed.

Lemma counter_no_dot (k : nat) : Str.rfind_dot ("_" +:+ pretty k) = None.
Proof.
  change ("_" +:+ pretty k) with (String "_" (pretty k)). simpl.
  by rewrite pretty_nat_no_dot.
Qed.

Lemma suffix_of_numbered (nm : string) (k : nat) :
  (∀ pre, nm ≠ pre +:+ ".") →
  suffix_of_name (stem_of_name nm +:+ "_" +:+ pretty k +:+ suffix_of_name nm)
    = suffix_of_name nm.
Proof.
  intros Hend. destruct (Str.rfind_dot nm) as [i|] eqn:Hi.
  - destruct (rfind_dot_split nm i Hi) as (pre & ext & -> & Hlen & Hext).
    destruct ext as [|c ext]; [by destruct (Hend pre)|].
    destruct pre as [|b pre].
    + simpl in Hlen. subst i.
      unfold stem_of_name at 1, suffix_of_name at 2 3. rewrite Hi. cbn [bool_decide andb].
      rewrite bool_decide_eq_false_2 by lia. cbn [andb].
      rewrite string_app_nil_r. unfold suffix_of_name.
      rewrite rfind_dot_app_tail by apply counter_no_dot.
      rewrite Hi. by rewrite bool_decide_eq_false_2 by lia.
    + destruct (stem_suffix_dotted (String b pre) (String c ext)) as [-> ->]; [done..|].
      rewrite <-!string_app_assoc. by apply stem_suffix_dotted.
  - unfold stem_of_name at 1, suffix_of_name at 2 3. rewrite Hi.
    rewrite string_app_nil_r. unfold suffix_of_name.
    rewrite rfind_dot_app_tail by apply counter_no_dot. by rewrite Hi.
Qed.

End extension.

(** X15. Unless the last dot of the wanted name is its last character, the
    path [make_unique_path] returns has the extension of the wanted path, so
    a file renamed on the way is classified as it was. *)
Theorem make_unique_path_keeps_suffix (s : FS) (dest : path) (ext_map : ExtMap) :
  Str.rfind_dot (name dest) ≠ Some (String.length (name dest) - 1) →
  suffix (make_unique_path s dest) = suffix dest ∧
  category_of ext_map (make_unique_path s dest) = category_of ext_map dest.
Proof.
  intros Hend.
  assert (suffix (make_unique_path s dest) = suffix dest) as Hsuffix.
  { destruct (make_unique_path_cases s dest) as [[_ ->]|(_ & k & _ & -> & _)]; [done|].
    unfold suffix at 1, candidate. rewrite name_joinpath.
    apply suffix_of_numbered. intros pre Hpre. apply Hend. rewrite Hpre.
    rewrite (rfind_dot_app pre EmptyString) by done.
    rewrite string_app_length. simpl. f_equal. lia. }
  split; [done|]. unfold category_of. by rewrite Hsuffix.
Qed.

Lemma make_unique_path_keeps_suffix_witness :
  suffix (make_unique_path sample.numbered ["t"; "a.jpg"]) = suffix ["t"; "a.jpg"] ∧
  category_of DEFAULT_EXT_MAP (make_unique_path sample.numbered ["t"; "a.jpg"])
    = category_of DEFAULT_EXT_MAP ["t"; "a.jpg"].
Proof.
  apply (make_unique_path_keeps_suffix sample.numbered ["t"; "a.jpg"] DEFAULT_EXT_MAP).
  vm_compute. discriminate.
Defined.

(** ** Integrity checker *)

Section integrity_checks.

Import integrity.

Lemma fed_chunks_all (data : string) : fed_chunks data = data.
Proof.
  unfold fed_chunks. apply (read_blocks_feed _ chunk_size data EmptyString); [|lia].
  unfold chunk_size. pose proof (Nat.pow_nonzero 2 12). lia.
Qed.

Lemma get_file_hash_readable (s : FS) (f : path) (x : file) :
  s !! f = Some (NFile x) → f_readable x = true →
  get_file_hash s f = inr (sha256.hexdigest (f_data x)).
Proof. intros Hf Hr. unfold get_file_hash. by rewrite Hf, Hr, fed_chunks_all. Qed.

Lemma assoc_app (k : string) (kv more : list (string * json)) :
  pyval.assoc k (kv ++ more)
    = match pyval.assoc k kv with Some v => Some v | None => pyval.assoc k more end.
Proof.
  induction kv as [|[k' v'] kv IH]; [done|].
  rewrite <-app_comm_cons. cbn [pyval.assoc]. by destruct (decide (k' = k)).
Qed.

End integrity_checks.

(** X16. The first check of a readable file that the hash file does not
    know records the SHA-256 digest of its whole content under its path and
    reports a new baseline, without touching the file system.  Every later
    check of that path against the hash file so written reports the file
    unchanged when the digest of its content is the one recorded (so when
    the content is the same), and modified otherwise; and it writes
    nothing. *)
Theorem verify_file_integrity_baseline (f : path) (x : file) (v : integrity.Vault) :
  integrity.v_fs v !! f = Some (NFile x) → f_readable x = true →
  (integrity.v_hashes v = Absent ∨
   ∃ kv, integrity.v_hashes v = Doc (JObj kv) ∧ pyval.assoc (str f) kv = None) →
  ∃ v1,
    integrity.verify_file_integrity (Some f) v = (v1, inr (Some integrity.Baseline)) ∧
    integrity.v_fs v1 = integrity.v_fs v ∧
    ∀ (s2 : FS) (x2 : file),
      s2 !! f = Some (NFile x2) → f_readable x2 = true →
      integrity.verify_file_integrity (Some f)
          {| integrity.v_fs := s2; integrity.v_hashes := integrity.v_hashes v1 |}
        = ({| integrity.v_fs := s2; integrity.v_hashes := integrity.v_hashes v1 |},
           inr (Some (if bool_decide (sha256.hexdigest (f_data x2)
                                        = sha256.hexdigest (f_data x))
                      then integrity.Unchanged else integrity.Modified))).
Proof.
  intros Hf Hr Hnew.
  assert (∃ kv, integrity.load_hashes (integrity.v_hashes v) = inr (JObj kv) ∧
                pyval.assoc (str f) kv = None) as (kv & Hload & Hkey).
  { destruct Hnew as [->|(kv & -> & Hkey)]; [by exists []|by exists kv]. }
  eexists. split_and!.
  - unfold integrity.verify_file_integrity.
    by rewrite Hload, (get_file_hash_readable _ _ _ Hf Hr), Hkey.
  - done.
  - intros s2 x2 Hf2 Hr2. unfold integrity.verify_file_integrity at 1.
    cbn [integrity.v_hashes integrity.v_fs integrity.load_hashes].
    rewrite (get_file_hash_readable _ _ _ Hf2 Hr2).
    rewrite assoc_app, Hkey. cbn [pyval.assoc].
    rewrite decide_True by done. cbn [integrity.equals_str].
    rewrite (bool_decide_ext _ (sha256.hexdigest (f_data x2) = sha256.hexdigest (f_data x)))
      by done.
    by case_bool_decide.
Qed.

Lemma verify_file_integrity_baseline_witness :
  ∃ v1,
    integrity.verify_file_integrity (Some ["t"; "b.txt"])
        {| integrity.v_fs := sample.three_bytes; integrity.v_hashes := Absent |}
      = (v1, inr (Some integrity.Baseline)) ∧
    integrity.v_fs v1 = sample.three_bytes ∧
    ∀ (s2 : FS) (x2 : file),
      s2 !! ["t"; "b.txt"] = Some (NFile x2) → f_readable x2 = true →
      integrity.verify_file_integrity (Some ["t"; "b.txt"])
          {| integrity.v_fs := s2; integrity.v_hashes := integrity.v_hashes v1 |}
        = ({| integrity.v_fs := s2; integrity.v_hashes := integrity.v_hashes v1 |},
           inr (Some (if bool_decide (sha256.hexdigest (f_data x2)
                                        = sha256.hexdigest (f_data (plain_file "abc" (2024, 3))))
                      then integrity.Unchanged else integrity.Modified))).
Proof.
  apply (verify_file_integrity_baseline ["t"; "b.txt"] (plain_file "abc" (2024, 3))
           {| integrity.v_fs := sample.three_bytes; integrity.v_hashes := Absent |}).
  - reflexivity.
  - reflexivity.
  - left. reflexivity.
Defined.

(** X17. Whatever was chosen and whatever it reports, a check leaves the
    file system alone; it writes the hash file only when it reports a new
    baseline; and a digest recorded in the hash file stays recorded as it is,
    also after the file was reported modified. *)
Theorem verify_file_integrity_keeps_baselines (selection : option path)
    (v : integrity.Vault) :
  integrity.v_fs (integrity.verify_file_integrity selection v).1 = integrity.v_fs v ∧
  ((integrity.verify_file_integrity selection v).2 ≠ inr (Some integrity.Baseline) →
   (integrity.verify_file_integrity selection v).1 = v) ∧
  ∀ kv k h,
    integrity.v_hashes v = Doc (JObj kv) → pyval.assoc k kv = Some h →
    ∃ kv', integrity.v_hashes (integrity.verify_file_integrity selection v).1
             = Doc (JObj kv') ∧
           pyval.assoc k kv' = Some h.
Proof.
  unfold integrity.verify_file_integrity.
  destruct selection as [file_path|]; [|by eauto].
  destruct (integrity.load_hashes (integrity.v_hashes v)) as [e|hashes] eqn:Hload;
    [by eauto|].
  destruct (integrity.get_file_hash (integrity.v_fs v) file_path) as [e|current_hash];
    [by eauto|].
  destruct hashes as [| | | | |kv0]; try by eauto.
  destruct (pyval.assoc (str file_path) kv0) as [recorded|] eqn:Hkey.
  - destruct (integrity.equals_str recorded current_hash); by eauto.
  - split_and!; [done..|]. intros kv k h Hv Hk. simpl.
    rewrite Hv in Hload. injection Hload as <-.
    eexists. split; [done|]. by rewrite assoc_app, Hk.
Qed.

(** ** A run and its undo *)

Section round_trip.

Implicit Types (s u : FS) (f d g : path).

(** Only a file that can be renamed is moved without an error. *)
Lemma shutil_move_movable (s s' : FS) (src dst : path) (x : file) :
  s !! src = Some (NFile x) → fs.shutil_move src dst s = Returned s' tt →
  f_movable x = true.
Proof.
  intros Hsrc. unfold fs.shutil_move. rewrite Hsrc.
  destruct (fs.is_dir s dst && fs.exists_ s _); [done|].
  destruct (f_movable x); [done|]. cbn [andb]. by repeat case_match.
Qed.

(** Moving a regular file to a free path in an existing directory. *)
Lemma shutil_move_to_free (s : FS) (src dst : path) (x : file) :
  s !! src = Some (NFile x) → f_movable x = true →
  s !! dst = None → s !! parent dst = Some NDir →
  fs.shutil_move src dst s = Returned (<[dst := NFile x]> (delete src s)) tt.
Proof.
  intros Hsrc Hmov Hdst Hpar. unfold fs.shutil_move. rewrite Hsrc.
  assert (fs.is_dir s dst = false) as ->.
  { unfold fs.is_dir. apply bool_decide_eq_false_2. by rewrite Hdst. }
  cbn [andb]. rewrite Hmov.
  assert (fs.is_dir s (parent dst) = true) as ->.
  { unfold fs.is_dir. by apply bool_decide_eq_true_2. }
  done.
Qed.

(** Plain paths: the allocator and the join keep them plain. *)
Lemma no_slash_app (a b : string) :
  Str.no_slash (a +:+ b) = Str.no_slash a && Str.no_slash b.
Proof.
  induction a as [|c a IH]; [done|].
  change (String c a +:+ b) with (String c (a +:+ b)). simpl.
  by rewrite IH, andb_assoc.
Qed.

Lemma pretty_N_char_no_slash (x : N) : pretty_N_char x ≠ "/"%char.
Proof. unfold pretty_N_char. by repeat case_match. Qed.

Lemma pretty_N_go_no_slash (x : N) (t : string) :
  Str.no_slash t = true → Str.no_slash (pretty_N_go x t) = true.
Proof.
  revert t. induction (N.lt_wf_0 x) as [x _ IH]; intros t Ht.
  assert (x = 0 ∨ 0 < x)%N as [->|Hpos] by lia.
  - by rewrite pretty_N_go_0.
  - rewrite pretty_N_go_step by done. apply IH; [by apply N.div_lt|].
    simpl. rewrite Ht. rewrite bool_decide_eq_true_2; [done|apply pretty_N_char_no_slash].
Qed.

Lemma pretty_nat_no_slash (k : nat) : Str.no_slash (pretty k) = true.
Proof.
  unfold pretty, pretty_nat, pretty, pretty_N.
  destruct (decide (N.of_nat k = 0%N)); [done|]. by apply pretty_N_go_no_slash.
Qed.

Lemma stem_suffix_app (nm : string) : stem_of_name nm +:+ suffix_of_name nm = nm.
Proof.
  unfold stem_of_name, suffix_of_name. destruct (Str.rfind_dot nm) as [i|].
  - destruct (bool_decide (0 < i) && bool_decide (i < String.length nm - 1)).
    + apply substring_split.
    + apply string_app_nil_r.
  - apply string_app_nil_r.
Qed.

Lemma plain_name_numbered (nm : string) (k : nat) :
  plain_name nm = true →
  plain_name (stem_of_name nm +:+ "_" +:+ pretty k +:+ suffix_of_name nm) = true.
Proof.
  rewrite !plain_name_spec. intros (_ & _ & _ & Hnm).
  rewrite <-(stem_suffix_app nm), no_slash_app in Hnm.
  apply andb_true_iff in Hnm as [Hstem Hsuffix]. split_and!.
  - by destruct (stem_of_name nm).
  - destruct (stem_of_name nm) as [|c [|c' st]]; done.
  - destruct (stem_of_name nm) as [|c [|c' [|c'' st]]]; done.
  - by rewrite !no_slash_app, Hstem, Hsuffix, pretty_nat_no_slash.
Qed.

Lemma plain_joinpath (p : path) (n : string) :
  plain (p // n) = plain p && plain_name n.
Proof. unfold plain, joinpath. rewrite forallb_app. simpl. by rewrite andb_true_r. Qed.

Lemma plain_prefix (p f : path) : p `prefix_of` f → plain f = true → plain p = true.
Proof.
  intros [t ->]. unfold plain. rewrite forallb_app. by intros [? _]%andb_true_iff.
Qed.

Lemma plain_name_last (f : path) : plain f = true → f ≠ [] → plain_name (name f) = true.
Proof.
  intros Hf Hne. destruct (exists_last Hne) as (p & n & ->).
  change (p ++ [n]) with (p // n) in *. rewrite name_joinpath.
  rewrite plain_joinpath in Hf. by apply andb_true_iff in Hf as [_ ?].
Qed.

Lemma plain_make_unique_path (s : FS) (dir : path) (n : string) :
  plain dir = true → plain_name n = true →
  plain (make_unique_path s (dir // n)) = true.
Proof.
  intros Hdir Hn.
  destruct (make_unique_path_cases s (dir // n)) as [[_ ->]|(_ & k & _ & -> & _)].
  - by rewrite plain_joinpath, Hdir, Hn.
  - unfold candidate, stem, suffix. rewrite parent_joinpath, name_joinpath.
    by rewrite plain_joinpath, Hdir, plain_name_numbered.
Qed.

Lemma prefix_snoc_inv (l k : path) (c : string) :
  l `prefix_of` k ++ [c] → l = k ++ [c] ∨ l `prefix_of` k.
Proof.
  intros [t Ht]. destruct t as [|y t _] using rev_ind.
  - left. by rewrite app_nil_r in Ht.
  - right. rewrite app_assoc in Ht. apply app_inj_tail in Ht as [-> _].
    by apply prefix_app_r.
Qed.

(** The common end of both loop bodies in a live run, in full: after the
    directories made, the file sits at the destination and nowhere else. *)
Lemma allocate_and_move_live (F : list path) (now : string) (f dest_dir : path)
    (x : file) (s s1 s' : FS) (m : MoveRecord) :
  s !! f = Some (NFile x) →
  plain dest_dir = true → plain_name (name f) = true →
  (∀ g, g ∈ F → ¬ g `prefix_of` dest_dir) →
  fs.mkdir dest_dir s = Returned s1 tt →
  (let dest := make_unique_path s1 (dest_dir // name f) in
   bind (fs.shutil_move f dest)
        (λ _, ret {| mv_src := str f; mv_dst := str dest;
                     mv_time := now; mv_dry := false |})) s1 = Returned s' m →
  mv_src m = str f ∧ mv_dry m = false ∧ f_movable x = true ∧
  ∃ d, mv_dst m = str d ∧ plain d = true ∧ s1 !! d = None ∧
       s' = <[d := NFile x]> (delete f s1) ∧ dirs_added F s1 s.
Proof.
  intros Hf Hdir Hname Hout Hmk. cbv zeta.
  set (dest := make_unique_path s1 (dest_dir // name f)).
  assert (s1 !! dest = None) as Hfresh by apply make_unique_path_fresh.
  pose proof (mkdir_preserves _ _ _ _ _ Hmk Hf) as Hf1.
  unfold bind. destruct (fs.shutil_move f dest s1) as [s2 []|] eqn:Hmove; [|done].
  unfold ret. intros [= <- <-].
  pose proof (shutil_move_movable _ _ _ _ _ Hf1 Hmove) as Hmov.
  split_and!; [done..|]. exists dest. split_and!; [done| |done| |].
  - by apply plain_make_unique_path.
  - by apply shutil_move_file.
  - split.
    + intros g y Hg. by apply (mkdir_preserves _ _ _ _ _ Hmk).
    + intros g y Hg. destruct (mkdir_new _ _ _ _ _ Hmk Hg) as [?|[-> Hpre]]; [by left|].
      right. split; [done|]. intros Hin. by apply (Hout g).
Qed.

(** A record of a live run is undone when its destination holds the file,
    its source is free and the directory of the source is there. *)
Lemma undo_one_restores (m : MoveRecord) (f d : path) (x : file) (u : FS) :
  mv_src m = str f → mv_dst m = str d → mv_dry m = false →
  plain f = true → plain d = true →
  u !! d = Some (NFile x) → f_movable x = true →
  u !! f = None → u !! parent f = Some NDir →
  undo_one (move_json m) u = Returned (<[f := NFile x]> (delete d u)) tt.
Proof.
  intros Hsrc Hdst Hdry Hpf Hpd Hd Hmov Hf Hpar.
  rewrite undo_one_live by done. rewrite Hsrc, Hdst, !Path_str by done.
  assert (fs.exists_ u d = true) as -> by (apply exists_true; eauto).
  assert (make_unique_path u f = f) as ->.
  { destruct (make_unique_path_cases u f) as [[_ ->]|([y Hy] & _)]; [done|congruence]. }
  by apply shutil_move_to_free.
Qed.

Lemma for_each_snoc {A B : Type} (body : A → py FS B) (xs : list A) (x : A) (s : FS) :
  for_each body (xs ++ [x]) s =
    match for_each body xs s with
    | Returned s1 ys =>
        match body x s1 with
        | Returned s2 y => Returned s2 (ys ++ [y])
        | Raised s2 e => Raised s2 e
        end
    | Raised s1 e => Raised s1 e
    end.
Proof.
  revert s. induction xs as [|a xs IH]; intros s.
  - rewrite app_nil_l, for_each_cons. simpl. by destruct (body x s).
  - rewrite <-app_comm_cons, !for_each_cons. destruct (body a s) as [s1 y|]; [|done].
    rewrite IH. destruct (for_each body xs s1) as [s2 ys|]; [|done].
    by destruct (body x s2).
Qed.

Context (F : list path) (body : path → py FS MoveRecord) (ok : path → file → Prop).
Context (Hlive : ∀ f x s s' m,
  f ∈ F → s !! f = Some (NFile x) → ok f x → body f s = Returned s' m →
  mv_src m = str f ∧ mv_dry m = false ∧ f_movable x = true ∧
  ∃ d s1, mv_dst m = str d ∧ plain d = true ∧ s1 !! d = None ∧
          s' = <[d := NFile x]> (delete f s1) ∧ dirs_added F s1 s).

(** Undoing the records of the loop backwards leads back to where the loop
    started, up to the directories made. *)
Lemma for_each_undone (files : list path) (s s' : FS) (ms : list MoveRecord) :
  files ⊆ F → NoDup files →
  (∀ f, f ∈ files →
        plain f = true ∧ s !! parent f = Some NDir ∧
        ∃ x, s !! f = Some (NFile x) ∧ ok f x) →
  for_each body files s = Returned s' ms →
  length ms = length files ∧
  ∀ u, dirs_added F u s' →
       ∃ u0, void (for_each undo_one (move_json <$> reverse ms) u) = Returned u0 tt ∧
             dirs_added F u0 s.
Proof.
  revert s ms. induction files as [|f files IH]; intros s ms Hsub Hnd Hfiles.
  - intros [= <- <-]. split; [done|]. intros u Hu. by exists u.
  - rewrite for_each_cons.
    destruct (body f s) as [sA m|] eqn:Hbody; [|done].
    destruct (for_each body files sA) as [s2 ms'|] eqn:Hrest; [|done].
    intros [= <- <-]. apply NoDup_cons in Hnd as [Hf Hnd].
    assert (f ∈ F) as HfF by (apply Hsub; by left).
    destruct (Hfiles f) as (Hpf & Hpar & x & Hx & Hok); [by left|].
    destruct (Hlive f x s sA m HfF Hx Hok Hbody)
      as (Hsrc & Hdry & Hmov & d & s1 & Hdst & Hpd & Hfree & -> & Hs1a & Hs1b).
    assert (d ≠ f) as Hdf.
    { intros ->. apply Hs1a in Hx. congruence. }
    assert (∀ g y, g ≠ f → s !! g = Some y →
                   (<[d := NFile x]> (delete f s1) : FS) !! g = Some y) as Hkept.
    { intros g y Hgf Hg. apply Hs1a in Hg.
      rewrite lookup_insert_ne by congruence. by rewrite lookup_delete_ne. }
    destruct (IH (<[d := NFile x]> (delete f s1)) ms') as [Hlen Hundo]; [| |  |done|].
    { intros g Hg. apply Hsub. by right. }
    { done. }
    { intros g Hg. destruct (Hfiles g) as (Hpg & Hparg & y & Hy & Hoky); [by right|].
      split_and!; [done| |].
      - apply Hkept; [congruence|done].
      - exists y. split; [|done]. apply Hkept; [|done]. by intros ->. }
    split; [simpl; by rewrite Hlen|].
    intros u Hu. destruct (Hundo u Hu) as (u1 & Hu1 & Hu1a & Hu1b).
    rewrite reverse_cons, fmap_app. cbn [fmap list_fmap]. rewrite for_each_snoc.
    destruct (for_each undo_one (move_json <$> reverse ms') u) as [u1' us|]; [|done].
    simpl in Hu1. injection Hu1 as ->.
    rewrite (undo_one_restores m f d x u1); try done.
    + simpl. eexists. split; [done|]. split.
      * intros g y Hg. destruct (decide (g = f)) as [->|Hgf].
        { rewrite lookup_insert_eq. congruence. }
        rewrite lookup_insert_ne by done.
        assert (g ≠ d) by (intros ->; apply Hs1a in Hg; congruence).
        rewrite lookup_delete_ne by done. apply Hu1a. by apply Hkept.
      * intros g y. destruct (decide (g = f)) as [->|Hgf].
        { rewrite lookup_insert_eq. intros [= <-]. by left. }
        rewrite lookup_insert_ne by done.
        destruct (decide (g = d)) as [->|Hgd]; [by rewrite lookup_delete_eq|].
        rewrite lookup_delete_ne by done.
        intros [Hg|Hg]%Hu1b; [|by right].
        rewrite lookup_insert_ne, lookup_delete_ne in Hg by done. by apply Hs1b.
    + apply Hu1a. by rewrite lookup_insert_eq.
    + destruct (u1 !! f) as [y|] eqn:Hy; [|done].
      apply Hu1b in Hy as [Hy|[_ Hy]]; [|done].
      rewrite lookup_insert_ne, lookup_delete_eq in Hy by done. done.
    + apply Hu1a, Hkept; [congruence|done].
Qed.

End round_trip.

Section round_trip_run.

Lemma files_where_selected (sel : path → bool) (s : FS) (f : path) :
  f ∈ fs.files_where sel s → sel f = true.
Proof.
  unfold fs.files_where.
  intros ([q n] & -> & [[Hsel _] _]%list_elem_of_filter)%list_elem_of_fmap.
  by apply Is_true_true.
Qed.

(** The files listed lie below the target. *)
Lemma list_files_below (target : path) (recursive : bool) (s : FS) (files : list path) :
  list_files target recursive s = Returned s files →
  ∀ f, f ∈ files → target `prefix_of` f ∧ f ≠ target.
Proof.
  unfold list_files. destruct recursive.
  - destruct (fs.blocked _ s); [done|].
    intros [= <-] f Hf%files_where_selected.
    unfold fs.is_below in Hf. by apply bool_decide_eq_true in Hf.
  - destruct (s !! target) as [[x|]|]; [done| |done].
    destruct (fs.blocked _ s); [done|].
    intros [= <-] f Hf%files_where_selected.
    unfold fs.is_child in Hf. apply bool_decide_eq_true in Hf as [Hne <-].
    destruct (exists_last Hne) as (p & n & ->).
    change (p ++ [n]) with (p // n). rewrite parent_joinpath. split.
    + by apply prefix_app_r.
    + unfold joinpath. intros Heq. apply (f_equal length) in Heq.
      rewrite length_app in Heq. simpl in Heq. lia.
Qed.

(** The body of either loop, live, does what [for_each_undone] asks of it. *)
Lemma organize_one_live (now : string) (target : path) (ext_map : ExtMap) (m : mode)
    (F : list path) (f : path) (x : file) (s s' : FS) (mr : MoveRecord) :
  (∀ g, g ∈ F → target `prefix_of` g ∧ g ≠ target) →
  f ∈ F → s !! f = Some (NFile x) →
  plain f = true ∧ plain_name (folder_of m ext_map f x) = true ∧
    target // folder_of m ext_map f x ∉ F →
  match m with
  | by_type => organize_one_by_type now target ext_map false
  | by_date => organize_one_by_date now target false
  end f s = Returned s' mr →
  mv_src mr = str f ∧ mv_dry mr = false ∧ f_movable x = true ∧
  ∃ d s1, mv_dst mr = str d ∧ plain d = true ∧ s1 !! d = None ∧
          s' = <[d := NFile x]> (delete f s1) ∧ dirs_added F s1 s.
Proof.
  intros Hbelow HfF Hf (Hpf & Hfolder & Hclear).
  destruct (Hbelow f HfF) as [Hpre Hne].
  assert (plain (target // folder_of m ext_map f x) = true) as Hdir.
  { rewrite plain_joinpath, Hfolder, andb_true_r. by apply (plain_prefix target f). }
  assert (plain_name (name f) = true) as Hname.
  { apply plain_name_last; [done|]. intros ->. by apply prefix_nil_inv in Hpre. }
  assert (∀ g, g ∈ F → ¬ g `prefix_of` target // folder_of m ext_map f x) as Hout.
  { intros g Hg [->|Hgt]%prefix_snoc_inv; [done|].
    destruct (Hbelow g Hg) as [Htg Hgne]. apply Hgne. by apply (anti_symm prefix). }
  assert (∀ dest_dir s1,
    dest_dir = target // folder_of m ext_map f x →
    fs.mkdir dest_dir s = Returned s1 tt →
    (let dest := make_unique_path s1 (dest_dir // name f) in
     bind (fs.shutil_move f dest)
          (λ _, ret {| mv_src := str f; mv_dst := str dest;
                       mv_time := now; mv_dry := false |})) s1 = Returned s' mr →
    mv_src mr = str f ∧ mv_dry mr = false ∧ f_movable x = true ∧
    ∃ d s1, mv_dst mr = str d ∧ plain d = true ∧ s1 !! d = None ∧
            s' = <[d := NFile x]> (delete f s1) ∧ dirs_added F s1 s) as Htail.
  { intros dest_dir s1 -> Hmk Hrun.
    destruct (allocate_and_move_live F now f _ x s s1 s' mr Hf Hdir Hname Hout Hmk Hrun)
      as (? & ? & ? & d & ?). split_and!; [done..|]. by exists d, s1. }
  destruct m.
  - unfold organize_one_by_type. unfold bind at 1.
    destruct (fs.mkdir _ s) as [s1 []|] eqn:Hmk; [|done].
    unfold bind at 1, get. cbn [negb]. by apply Htail.
  - unfold organize_one_by_date. unfold bind at 1.
    unfold fs.stat at 1. rewrite Hf. destruct (f_statable x); [|done].
    unfold bind at 1.
    destruct (fs.mkdir _ s) as [s1 []|] eqn:Hmk; [|done].
    unfold bind at 1, get. cbn [negb snd fst]. by apply Htail.
Qed.

Lemma dirs_added_refl (F : list path) (s : FS) : dirs_added F s s.
Proof. split; [done|]. intros g y Hg. by left. Qed.

End round_trip_run.

(** X18. A live run of [organize_by_type] or [organize_by_date] that
    returns is undone in full by the loop of [undo_last] over its records,
    taken backwards on the file system as the run left it.  When the
    listed files have plain paths in existing directories, the folders they
    are filed under have plain names and none of them is made where a
    listed file is, the run has one record for each listed file, every
    restore succeeds, and afterwards every entry of the file system is back
    where it was before the run, with its content; all that is new are
    directories, none of them at the path of a listed file. *)
Theorem organize_then_undo (now : string) (target : path) (ext_map : ExtMap)
    (m : mode) (recursive : bool) (s s' : FS) (files : list path)
    (moves : list MoveRecord) :
  list_files target recursive s = Returned s files →
  (∀ f x, f ∈ files → s !! f = Some (NFile x) →
     plain f = true ∧ s !! parent f = Some NDir ∧
     plain_name (folder_of m ext_map f x) = true ∧
     target // folder_of m ext_map f x ∉ files) →
  match m with
  | by_type => organize_by_type now target ext_map false recursive
  | by_date => organize_by_date now target false recursive
  end s = Returned s' moves →
  length moves = length files ∧
  ∃ u, void (for_each undo_one (move_json <$> reverse moves) s') = Returned u tt ∧
       dirs_added files u s.
Proof.
  intros Hls Hfiles Hrun.
  destruct (list_files_spec _ _ _ _ Hls) as [Hnd Hreg].
  pose proof (list_files_below _ _ _ _ Hls) as Hbelow.
  set (body := match m with
               | by_type => organize_one_by_type now target ext_map false
               | by_date => organize_one_by_date now target false
               end).
  assert (for_each body files s = Returned s' moves) as Hloop.
  { destruct m; [unfold organize_by_type in Hrun|unfold organize_by_date in Hrun];
      unfold bind in Hrun; by rewrite Hls in Hrun. }
  destruct (for_each_undone files body
              (λ f x, plain f = true ∧ plain_name (folder_of m ext_map f x) = true ∧
                      target // folder_of m ext_map f x ∉ files))
    with files s s' moves as [Hlen Hundo]; [|done|done| |done|].
  { intros f x s0 s1 mr HfF Hf Hok Hbody.
    by apply (organize_one_live now target ext_map m files f x s0 s1 mr). }
  { intros f Hf.
    assert (fs.is_file s f = true) as [x Hx]%is_file_Some by by apply Hreg.
    destruct (Hfiles f x Hf Hx) as (? & ? & ? & ?). split_and!; [done..|]. by exists x. }
  split; [done|]. apply Hundo, dirs_added_refl.
Qed.

(** The theorem at work on [sample.nested], organized by type and
    recursively into the file system of [sample.organized]. *)
Lemma organize_then_undo_witness :
  length sample.nested_moves = length sample.nested_files ∧
  ∃ u, void (for_each undo_one (move_json <$> reverse sample.nested_moves)
               (w_fs sample.organized)) = Returned u tt ∧
       dirs_added sample.nested_files u sample.nested.
Proof.
  apply (organize_then_undo "now" ["t"] DEFAULT_EXT_MAP by_type true
           sample.nested (w_fs sample.organized) sample.nested_files
           sample.nested_moves).
  - reflexivity.
  - intros f x Hf. unfold sample.nested_files in Hf.
    apply elem_of_cons in Hf as [->|Hf]; [|apply elem_of_cons in Hf as [->|Hf]].
    + intros _. split_and!; [by vm_compute..|].
      apply (bool_decide_unpack _). by vm_compute.
    + intros _. split_and!; [by vm_compute..|].
      apply (bool_decide_unpack _). by vm_compute.
    + by apply elem_of_nil in Hf.
  - reflexivity.
Defined.
